(** * rits-chat-app: conversation state engine and streaming ingestion

    A shallow embedding of [src/index.tsx]: the global state of the page is a
    record that every handler takes and returns; [localStorage] is a finite
    map; the two streaming transports are folds over the sequence of events
    their iterators deliver.  What the page only draws (DOM nodes, icons,
    markdown rendering, focus) is left out: it never feeds back into the
    state the handlers keep. *)

From Stdlib Require Import ZArith NArith Ascii String List Bool Lia DecimalString DecimalN.
From Stdlib Require Import Floats.SpecFloat.
From stdpp Require Import base option list gmap strings.

(* ===================================================================== *)
(** ** JavaScript values used by the code *)
(* ===================================================================== *)

Module JS.

(** A JS [number] is an IEEE 754 binary64 value. *)
Definition number := spec_float.
Definition prec : Z := 53.
Definition emax : Z := 1024.

Definition sub (x y : number) : number := SFsub prec emax x y.
Definition div (x y : number) : number := SFdiv prec emax x y.

(** Integer literals of the source. *)
Definition zero : number := S754_zero false.
Definition of_pos (p : positive) : number := binary_normalize prec emax (Zpos p) 0 false.
Definition thousand : number := Eval vm_compute in of_pos 1000.


(** [x ?? d] on an optional value. *)
Definition nullish {A} (x : option A) (d : A) : A :=
  match x with Some v => v | None => d end.

(** Truthiness of [boolean | undefined] and of [string | null]. *)
Definition truthy_bool (b : option bool) : bool :=
  match b with Some true => true | _ => false end.

Definition truthy_string (s : string) : bool :=
  match s with EmptyString => false | String _ _ => true end.

Definition truthy_ostring (s : option string) : bool :=
  match s with Some t => truthy_string t | None => false end.

(** Truthiness of [T | null] for an object type [T]. *)
Definition truthy_object {A} (o : option A) : bool :=
  match o with Some _ => true | None => false end.

(** [s1 || s2] on strings. *)
Definition or_string (s d : string) : string :=
  if truthy_string s then s else d.

(** [s.split(sep)] for a one-character separator: never empty. *)
Fixpoint split (sep : ascii) (s : string) : list string :=
  match s with
  | EmptyString => [EmptyString]
  | String c s' =>
      if Ascii.eqb c sep then EmptyString :: split sep s'
      else match split sep s' with
           | [] => [String c EmptyString]
           | l :: ls => String c l :: ls
           end
  end.

(** [arr.pop()]: the removed last element and what stays in the array. *)
Definition pop {A} (l : list A) : option A * list A :=
  (last l, removelast l).

(** [s.startsWith(p)]. *)
Definition startsWith (p s : string) : bool := String.prefix p s.

(** [s.substring(n)] and [s.substring(0, n)]. *)
Definition substring_from (n : nat) (s : string) : string :=
  String.substring n (String.length s - n) s.
Definition substring_to (n : nat) (s : string) : string :=
  String.substring 0 n s.

(** White space removed by [trim], within the 8-bit code units the model
    keeps: TAB, LF, VT, FF, CR, SP and NBSP. *)
Definition is_white (c : ascii) : bool :=
  let n := nat_of_ascii c in
  (Nat.eqb n 9 || Nat.eqb n 10 || Nat.eqb n 11 || Nat.eqb n 12
   || Nat.eqb n 13 || Nat.eqb n 32 || Nat.eqb n 160)%bool.

Fixpoint trim_start (s : string) : string :=
  match s with
  | EmptyString => EmptyString
  | String c s' => if is_white c then trim_start s' else s
  end.

(** Drops the white space at the end: a character stays when it is not
    white or when something stays after it. *)
Fixpoint trim_end (s : string) : string :=
  match s with
  | EmptyString => EmptyString
  | String c s' =>
      match trim_end s' with
      | EmptyString => if is_white c then EmptyString else String c EmptyString
      | t => String c t
      end
  end.

Definition trim (s : string) : string := trim_end (trim_start s).

(** A string added to with [+=] when the right-hand side may be
    [undefined]. *)
Definition to_string_or_undefined (o : option string) : string :=
  match o with Some s => s | None => "undefined" end.

(** [new Map(entries)] keeps insertion order: setting a key that is already
    present overwrites its value where it stands, a new key goes last. *)
Section MapOf.
Context {V : Type}.

Fixpoint map_set (k : string) (v : V) (m : list (string * V)) : list (string * V) :=
  match m with
  | [] => [(k, v)]
  | (k', v') :: m' =>
      if String.eqb k' k then (k', v) :: m' else (k', v') :: map_set k v m'
  end.

Definition new_Map (entries : list (string * V)) : list (string * V) :=
  fold_left (fun m e => map_set (fst e) (snd e) m) entries [].

Definition values (m : list (string * V)) : list V := map snd m.
End MapOf.

End JS.

(* ===================================================================== *)
(** ** Types and constants *)
(* ===================================================================== *)

Inductive Model := gemini | deepseek.
(** The two values of [sender], ['user'] and ['model']. *)
Inductive Sender := sender_user | sender_model.

Record MessageStats := { tokenCount : JS.number; speed : JS.number }.
Record FileData := { data : string; mimeType : string }.

(** An element of [groundingSources] (typed [any] in the source, read
    through [uri] and [title]). *)
Record GroundingChunk := { uri : string; src_title : string }.

Record ChatMessage := {
  sender : Sender;
  content : string;
  timestamp : string;
  stats : option MessageStats;
  file : option FileData;
  groundingSources : option (list GroundingChunk)
}.

Record ChatIndexItem := {
  id : string;
  title : string;
  pinned : option bool;
  archived : option bool
}.
Definition ChatIndex := list ChatIndexItem.

Record ChatSettings := {
  systemInstruction : option string;
  temperature : option JS.number;
  model : option Model
}.

Record StoredChat := { settings : ChatSettings; messages : list ChatMessage }.

(** [Partial<Omit<ChatIndexItem, 'id'>>]: a property is absent ([None]) or
    present with its value, which may itself be [undefined]. *)
Record IndexPatch := {
  p_title : option string;
  p_pinned : option (option bool);
  p_archived : option (option bool)
}.

(* ===================================================================== *)
(** ** Global state *)
(* ===================================================================== *)

(** [localStorage] holds the catalog under the fixed key [CHAT_INDEX_KEY] and
    each conversation under [CHAT_DATA_PREFIX + id]; the two are kept as two
    components, the second keyed by the conversation id.  [JSON.stringify]
    followed by [JSON.parse] gives back the value it was given (an
    [undefined] property is dropped and reads as [undefined] again; a number
    that is not finite would come back as [null], and nothing below reads a
    stored number). *)
Record State := {
  chatHistoryArray : list ChatMessage;
  currentSettings : ChatSettings;
  isGenerating : bool;
  stopGeneration : bool;
  attachedFile : option FileData;
  chatIndex : ChatIndex;
  activeChatId : option string;
  isRecording : bool;
  storedIndex : option ChatIndex;
  storedChats : gmap string StoredChat
}.

Definition set_chatHistoryArray (v : list ChatMessage) (s : State) : State :=
  {| chatHistoryArray := v; currentSettings := currentSettings s;
     isGenerating := isGenerating s; stopGeneration := stopGeneration s;
     attachedFile := attachedFile s; chatIndex := chatIndex s;
     activeChatId := activeChatId s; isRecording := isRecording s;
     storedIndex := storedIndex s; storedChats := storedChats s |}.

Definition set_currentSettings (v : ChatSettings) (s : State) : State :=
  {| chatHistoryArray := chatHistoryArray s; currentSettings := v;
     isGenerating := isGenerating s; stopGeneration := stopGeneration s;
     attachedFile := attachedFile s; chatIndex := chatIndex s;
     activeChatId := activeChatId s; isRecording := isRecording s;
     storedIndex := storedIndex s; storedChats := storedChats s |}.

Definition set_isGenerating (v : bool) (s : State) : State :=
  {| chatHistoryArray := chatHistoryArray s; currentSettings := currentSettings s;
     isGenerating := v; stopGeneration := stopGeneration s;
     attachedFile := attachedFile s; chatIndex := chatIndex s;
     activeChatId := activeChatId s; isRecording := isRecording s;
     storedIndex := storedIndex s; storedChats := storedChats s |}.

Definition set_stopGeneration (v : bool) (s : State) : State :=
  {| chatHistoryArray := chatHistoryArray s; currentSettings := currentSettings s;
     isGenerating := isGenerating s; stopGeneration := v;
     attachedFile := attachedFile s; chatIndex := chatIndex s;
     activeChatId := activeChatId s; isRecording := isRecording s;
     storedIndex := storedIndex s; storedChats := storedChats s |}.

Definition set_attachedFile (v : option FileData) (s : State) : State :=
  {| chatHistoryArray := chatHistoryArray s; currentSettings := currentSettings s;
     isGenerating := isGenerating s; stopGeneration := stopGeneration s;
     attachedFile := v; chatIndex := chatIndex s;
     activeChatId := activeChatId s; isRecording := isRecording s;
     storedIndex := storedIndex s; storedChats := storedChats s |}.

Definition set_chatIndex (v : ChatIndex) (s : State) : State :=
  {| chatHistoryArray := chatHistoryArray s; currentSettings := currentSettings s;
     isGenerating := isGenerating s; stopGeneration := stopGeneration s;
     attachedFile := attachedFile s; chatIndex := v;
     activeChatId := activeChatId s; isRecording := isRecording s;
     storedIndex := storedIndex s; storedChats := storedChats s |}.

Definition set_activeChatId (v : option string) (s : State) : State :=
  {| chatHistoryArray := chatHistoryArray s; currentSettings := currentSettings s;
     isGenerating := isGenerating s; stopGeneration := stopGeneration s;
     attachedFile := attachedFile s; chatIndex := chatIndex s;
     activeChatId := v; isRecording := isRecording s;
     storedIndex := storedIndex s; storedChats := storedChats s |}.

Definition set_storedIndex (v : option ChatIndex) (s : State) : State :=
  {| chatHistoryArray := chatHistoryArray s; currentSettings := currentSettings s;
     isGenerating := isGenerating s; stopGeneration := stopGeneration s;
     attachedFile := attachedFile s; chatIndex := chatIndex s;
     activeChatId := activeChatId s; isRecording := isRecording s;
     storedIndex := v; storedChats := storedChats s |}.

Definition set_storedChats (v : gmap string StoredChat) (s : State) : State :=
  {| chatHistoryArray := chatHistoryArray s; currentSettings := currentSettings s;
     isGenerating := isGenerating s; stopGeneration := stopGeneration s;
     attachedFile := attachedFile s; chatIndex := chatIndex s;
     activeChatId := activeChatId s; isRecording := isRecording s;
     storedIndex := storedIndex s; storedChats := v |}.

(** [setFormState(generating)]: of what it does only [isGenerating] is state;
    the rest disables and relabels buttons. *)
Definition setFormState (generating : bool) (s : State) : State :=
  set_isGenerating generating s.

(* ===================================================================== *)
(** ** Local storage data functions *)
(* ===================================================================== *)

Definition getChatIndex (s : State) : ChatIndex :=
  match storedIndex s with Some index => index | None => [] end.

Definition saveChatIndex (s : State) : State :=
  set_storedIndex (Some (chatIndex s)) s.

Definition getStoredChat (chatId : string) (s : State) : option StoredChat :=
  storedChats s !! chatId.

(** [if (!activeChatId) return;] also returns on the empty string. *)
Definition saveCurrentChat (s : State) : State :=
  match activeChatId s with
  | Some aid =>
      if JS.truthy_string aid then
        let chatData := {| settings := currentSettings s;
                           messages := chatHistoryArray s |} in
        set_storedChats (<[aid := chatData]> (storedChats s)) s
      else s
  | None => s
  end.

(** [chatIndex.find(c => c.id === chatId)]. *)
Definition find_by_id (chatId : string) (index : ChatIndex) : option ChatIndexItem :=
  List.find (fun c => String.eqb (id c) chatId) index.

(** The item that [find] returned is the array's own object: writing to it
    changes the first element that satisfies the predicate, in place. *)
Fixpoint update_first {A} (p : A -> bool) (f : A -> A) (l : list A) : list A :=
  match l with
  | [] => []
  | x :: l' => if p x then f x :: l' else x :: update_first p f l'
  end.

Definition Object_assign (item : ChatIndexItem) (patch : IndexPatch) : ChatIndexItem :=
  {| id := id item;
     title := JS.nullish (p_title patch) (title item);
     pinned := JS.nullish (p_pinned patch) (pinned item);
     archived := JS.nullish (p_archived patch) (archived item) |}.

Definition updateChatMetadata (chatId : string) (patch : IndexPatch) (s : State) : State :=
  match find_by_id chatId (chatIndex s) with
  | Some _ =>
      saveChatIndex
        (set_chatIndex
           (update_first (fun c => String.eqb (id c) chatId)
                         (fun c => Object_assign c patch) (chatIndex s)) s)
  | None => s
  end.

(* ===================================================================== *)
(** ** Sidebar and chat management *)
(* ===================================================================== *)

Definition has_id (chatId : string) (c : ChatIndexItem) : bool :=
  String.eqb (id c) chatId.

Definition not_archived (c : ChatIndexItem) : bool :=
  negb (JS.truthy_bool (archived c)).

(** [activeChatId === chatId]. *)
Definition is_active (chatId : string) (s : State) : bool :=
  match activeChatId s with
  | Some aid => String.eqb aid chatId
  | None => false
  end.

(** [loadChat]: the [Chat] session object that is rebuilt from the history
    belongs to the SDK and is not part of the state kept here. *)
Definition loadChat (chatId : string) (s : State) : State :=
  if is_active chatId s then s
  else
    let s1 := set_activeChatId (Some chatId) s in
    match getStoredChat chatId s1 with
    | Some storedChat =>
        set_currentSettings (settings storedChat)
          (set_chatHistoryArray (messages storedChat) s1)
    | None => s1
    end.

(** The literal [0.9] as a binary64 value. *)
Definition temperature_default : JS.number :=
  S754_finite false 8106479329266893 (-53).

Definition startNewChat (s : State) : State :=
  set_currentSettings
    {| systemInstruction := None;
       temperature := Some temperature_default;
       model := Some gemini |}
    (set_chatHistoryArray [] (set_activeChatId None s)).

(** What both [deleteChat] and [toggleArchive] do when the active
    conversation went away: [chatIndex.find(c => !c.archived)], then
    [loadChat] or [startNewChat]. *)
Definition activate_next (s : State) : State :=
  match List.find not_archived (chatIndex s) with
  | Some nextChat => loadChat (id nextChat) s
  | None => startNewChat s
  end.

(** [deleteChat]; [confirmed] is the answer given to the [confirm] dialog. *)
Definition deleteChat (confirmed : bool) (chatId : string) (s : State) : State :=
  if confirmed then
    let s1 := set_storedChats (delete chatId (storedChats s)) s in
    let s2 := set_chatIndex
                (List.filter (fun c => negb (has_id chatId c)) (chatIndex s1)) s1 in
    let s3 := saveChatIndex s2 in
    if is_active chatId s3 then activate_next s3 else s3
  else s.

Definition togglePin (chatId : string) (s : State) : State :=
  match find_by_id chatId (chatIndex s) with
  | Some item =>
      let pinned' := Some (negb (JS.truthy_bool (pinned item))) in
      let s1 := set_chatIndex
                  (update_first (has_id chatId)
                     (fun c => {| id := id c; title := title c;
                                  pinned := pinned'; archived := archived c |})
                     (chatIndex s)) s in
      updateChatMetadata chatId
        {| p_title := None; p_pinned := Some pinned'; p_archived := None |} s1
  | None => s
  end.

Definition toggleArchive (chatId : string) (s : State) : State :=
  match find_by_id chatId (chatIndex s) with
  | Some item =>
      let archived' := negb (JS.truthy_bool (archived item)) in
      (* Unpin when archiving *)
      let pinned' := if archived' then Some false else pinned item in
      let s1 := set_chatIndex
                  (update_first (has_id chatId)
                     (fun c => {| id := id c; title := title c;
                                  pinned := pinned'; archived := Some archived' |})
                     (chatIndex s)) s in
      let s2 := updateChatMetadata chatId
                  {| p_title := None; p_pinned := Some pinned';
                     p_archived := Some (Some archived') |} s1 in
      (* If the active chat is archived, load the next available active chat *)
      if (archived' && is_active chatId s2)%bool then activate_next s2 else s2
  | None => s
  end.

(* ===================================================================== *)
(** ** Values delivered by the two transports *)
(* ===================================================================== *)

(** What one step of an asynchronous iterator (or one [reader.read()])
    gives: a value, or an exception.  The end of the list of steps is the
    end of the stream ([done]). *)
Inductive Next (A : Type) := Yield (value : A) | Raise.
Arguments Yield {A} value.
Arguments Raise {A}.

(** While the handler is suspended on an [await], the only other handler
    taken into account is the submit button's, which sets [stopGeneration]
    when a response is being generated.  Each step of a stream comes with
    the flag [pressed]: whether that happened since the previous check of
    [stopGeneration]. *)
Definition Step (A : Type) : Type := bool * Next A.

(** The parts of a [GenerateContentResponse] that the code reads. *)
Record UsageMetadata := { totalTokenCount : option JS.number }.
Record GroundingMetadata := { groundingChunks : option (list GroundingChunk) }.
Record Candidate := { groundingMetadata : option GroundingMetadata }.
Record GenerateContentResponse := {
  text : option string;
  candidates : option (list Candidate);
  usageMetadata : option UsageMetadata
}.

(** The result of [JSON.parse]. *)
#[local] Set Warnings "-register-all".
Inductive JSON :=
| JNull
| JBool (b : bool)
| JNumber (x : JS.number)
| JString (s : string)
| JArray (xs : list JSON)
| JObject (fields : list (string * JSON)).

Module Json.

(** A JS value read out of parsed JSON: [None] is [undefined]. *)
Definition value := option JSON.

Definition lookup_field (k : string) (fields : list (string * JSON)) : value :=
  snd <$> List.find (fun kv => String.eqb (fst kv) k) fields.

(** [v.name] on a value that is neither [null] nor [undefined], for a
    name that no array, string, number or boolean has. *)
Definition prop (name : string) (v : JSON) : value :=
  match v with
  | JObject fields => lookup_field name fields
  | _ => None
  end.

(** [v[0]] on a value that is neither [null] nor [undefined]. *)
Definition index0 (v : JSON) : value :=
  match v with
  | JArray xs => head xs
  | JString (String c _) => Some (JString (String c EmptyString))
  | JObject fields => lookup_field "0" fields
  | _ => None
  end.

(** [v.name] and [v[0]]: a [TypeError] ([None]) on [null] and
    [undefined]. *)
Definition get (name : string) (v : value) : option value :=
  match v with
  | None | Some JNull => None
  | Some x => Some (prop name x)
  end.

Definition get0 (v : value) : option value :=
  match v with
  | None | Some JNull => None
  | Some x => Some (index0 x)
  end.

(** [v?.name]. *)
Definition opt_get (name : string) (v : value) : value :=
  match v with
  | None | Some JNull => None
  | Some x => prop name x
  end.

Definition truthy (v : value) : bool :=
  match v with
  | None | Some JNull | Some (JBool false) | Some (JString EmptyString) => false
  | Some (JNumber (S754_zero _)) | Some (JNumber S754_nan) => false
  | _ => true
  end.

Section ToString.
(** [Number.prototype.toString], which the code never reaches on the
    documented wire format. *)
Variable Number_toString : JS.number -> string.

Definition join (parts : list string) : string :=
  match parts with
  | [] => ""
  | p :: ps => fold_left (fun acc q => acc +:+ "," +:+ q) ps p
  end.

(** The string that [+=] appends for a value. *)
Fixpoint ToString (v : JSON) : string :=
  match v with
  | JNull => "null"
  | JBool true => "true"
  | JBool false => "false"
  | JNumber x => Number_toString x
  | JString s => s
  | JArray xs =>
      join (map (fun x => match x with JNull => "" | _ => ToString x end) xs)
  | JObject _ => "[object Object]"
  end.
End ToString.

End Json.

(* ===================================================================== *)
(** ** Core API interaction *)
(* ===================================================================== *)

(** What the outside world supplies to one call of [sendMessageWithGemini]:
    the two readings of [performance.now()], the time stamp given to the
    model message, and the stream that [chat.sendMessageStream] resolves to
    ([None] when it rejects). *)
Record GeminiRun := {
  startTime : JS.number;
  endTime : JS.number;
  modelTimestamp : string;
  result : option (list (Step GenerateContentResponse))
}.

(** What [fetch('/api/deepseek')] comes to. *)
Inductive FetchOutcome :=
| FetchRejects
| FetchNotOk
| FetchOk (reads : list (Step string)).

(** The same for one call of [sendMessageWithDeepSeek].  A read delivers the
    text that [decoder.decode(value, {stream: true})] returns for it. *)
Record DeepSeekRun := {
  ds_modelTimestamp : string;
  response : FetchOutcome
}.

Record Run := { gemini_run : GeminiRun; deepseek_run : DeepSeekRun }.

(** The local variables of the [for await] loop of [sendMessageWithGemini]. *)
Record GeminiLocals := {
  g_fullResponse : string;
  g_lastChunk : option GenerateContentResponse;
  g_groundingSources : list GroundingChunk
}.

Definition gemini_init : GeminiLocals :=
  {| g_fullResponse := ""; g_lastChunk := None; g_groundingSources := [] |}.

(** [chunk.candidates?.[0]?.groundingMetadata?.groundingChunks]. *)
Definition chunk_groundingChunks (chunk : GenerateContentResponse)
  : option (list GroundingChunk) :=
  cs ← candidates chunk;
  first ← head cs;
  metadata ← groundingMetadata first;
  groundingChunks metadata.

(** The body of the loop, after the test of [stopGeneration]. *)
Definition gemini_body (chunk : GenerateContentResponse) (l : GeminiLocals)
  : GeminiLocals :=
  {| g_fullResponse := g_fullResponse l +:+ JS.to_string_or_undefined (text chunk);
     g_lastChunk := Some chunk;
     g_groundingSources :=
       match chunk_groundingChunks chunk with
       | Some chunks => g_groundingSources l ++ chunks
       | None => g_groundingSources l
       end |}.

(** [for await (const chunk of result) { if (stopGeneration) break; ... }]:
    the chunk is awaited first, the flag is read after it arrived.  [None]
    when the iterator raised. *)
Fixpoint gemini_loop (stop : bool) (steps : list (Step GenerateContentResponse))
    (l : GeminiLocals) : option (bool * GeminiLocals) :=
  match steps with
  | [] => Some (stop, l)
  | (pressed, next) :: steps' =>
      let stop' := (stop || pressed)%bool in
      match next with
      | Raise => None
      | Yield chunk =>
          if stop' then Some (stop', l)
          else gemini_loop stop' steps' (gemini_body chunk l)
      end
  end.

(** [Array.from(new Map(groundingSources.map(item => [item.uri, item])).values())]. *)
Definition uniqueSources (groundingSources : list GroundingChunk)
  : list GroundingChunk :=
  JS.values (JS.new_Map (map (fun item => (uri item, item)) groundingSources)).

Definition gemini_stats (run : GeminiRun) (l : GeminiLocals) : MessageStats :=
  let tokenCount :=
    JS.nullish (lastChunk ← g_lastChunk l;
                usage ← usageMetadata lastChunk;
                totalTokenCount usage) JS.zero in
  let speed :=
    JS.div tokenCount (JS.div (JS.sub (endTime run) (startTime run)) JS.thousand) in
  {| tokenCount := tokenCount; speed := speed |}.

Definition gemini_message (run : GeminiRun) (l : GeminiLocals) : ChatMessage :=
  {| sender := sender_model;
     content := g_fullResponse l;
     timestamp := modelTimestamp run;
     stats := Some (gemini_stats run l);
     file := None;
     groundingSources := Some (uniqueSources (g_groundingSources l)) |}.

(** [chatHistoryArray.push(msg)]. *)
Definition push_message (msg : ChatMessage) (s : State) : State :=
  set_chatHistoryArray (chatHistoryArray s ++ [msg]) s.

(** The [finally] block of both senders. *)
Definition send_finally (s : State) : State :=
  setFormState false (set_stopGeneration false s).

(** [sendMessageWithGemini]: [userMessage] and [file] go into the request
    only; the response is [run]. *)
Definition sendMessageWithGemini (userMessage : string) (file : option FileData)
    (run : GeminiRun) (s : State) : State :=
  let s1 := setFormState true s in
  let s2 :=
    match result run with
    | None => s1
    | Some steps =>
        match gemini_loop (stopGeneration s1) steps gemini_init with
        | None => s1
        | Some (stop, l) =>
            saveCurrentChat
              (push_message (gemini_message run l) (set_stopGeneration stop s1))
        end
    end in
  send_finally s2.

Section Platform.

(** [JSON.parse]: [None] when it raises a [SyntaxError]. *)
Variable JSON_parse : string -> option JSON.
Variable Number_toString : JS.number -> string.

(** The [try] block of the text-delta reader:
    [chunkData.choices[0]?.delta?.content || ''], as the string appended
    to [fullResponse]; [None] when [JSON.parse] or a property read raises
    and the [catch] logs the record. *)
Definition textChunk (jsonString : string) : option string :=
  chunkData ← JSON_parse jsonString;
  choices ← Json.get "choices" (Some chunkData);
  first ← Json.get0 choices;
  let content := Json.opt_get "content" (Json.opt_get "delta" first) in
  Some (if Json.truthy content
        then match content with
             | Some v => Json.ToString Number_toString v
             | None => ""
             end
        else "").

(** [for (const line of lines) { ... }]: the new [fullResponse] and whether
    the loop was left through the [[DONE]] record, which sets
    [stopGeneration]. *)
Fixpoint deepseek_lines (lines : list string) (fullResponse : string)
  : string * bool :=
  match lines with
  | [] => (fullResponse, false)
  | line :: lines' =>
      if JS.startsWith "data: " line then
        let jsonString := JS.trim (JS.substring_from 6 line) in
        if String.eqb jsonString "[DONE]" then (fullResponse, true)
        else
          match textChunk jsonString with
          | Some chunk => deepseek_lines lines' (fullResponse +:+ chunk)
          | None => deepseek_lines lines' fullResponse
          end
      else deepseek_lines lines' fullResponse
  end.

(** The local variables [buffer] and [fullResponse]. *)
Record DeepSeekLocals := { d_buffer : string; d_fullResponse : string }.

Definition deepseek_init : DeepSeekLocals :=
  {| d_buffer := ""; d_fullResponse := "" |}.

Definition newline : ascii := ascii_of_nat 10.

(** One pass through the body of the [while] loop for a value read. *)
Definition deepseek_body (value : string) (l : DeepSeekLocals)
  : bool * DeepSeekLocals :=
  let buffer := d_buffer l +:+ value in
  let lines := JS.split newline buffer in
  let '(popped, lines) := JS.pop lines in
  let buffer := JS.or_string (JS.nullish popped "") "" in
  let '(fullResponse, done) := deepseek_lines lines (d_fullResponse l) in
  (done, {| d_buffer := buffer; d_fullResponse := fullResponse |}).

(** [while (!stopGeneration) { const {done, value} = await reader.read();
    if (done) break; ... }]: the flag is read before the read is issued. *)
Fixpoint deepseek_loop (stop : bool) (reads : list (Step string))
    (l : DeepSeekLocals) : option (bool * DeepSeekLocals) :=
  match reads with
  | [] => Some (stop, l)
  | (pressed, next) :: reads' =>
      if (stop || pressed)%bool then Some (true, l)
      else
        match next with
        | Raise => None
        | Yield value =>
            let '(done, l') := deepseek_body value l in
            deepseek_loop done reads' l'
        end
  end.

Definition deepseek_message (run : DeepSeekRun) (l : DeepSeekLocals) : ChatMessage :=
  {| sender := sender_model;
     content := d_fullResponse l;
     timestamp := ds_modelTimestamp run;
     stats := None;
     file := None;
     groundingSources := None |}.

(** [clearAttachedFile]. *)
Definition clearAttachedFile (s : State) : State := set_attachedFile None s.

Definition sendMessageWithDeepSeek (userMessage : string) (file : option FileData)
    (run : DeepSeekRun) (s : State) : State :=
  match file with
  | Some _ => clearAttachedFile s
  | None =>
      let s1 := setFormState true s in
      let s2 :=
        match response run with
        | FetchRejects | FetchNotOk => s1
        | FetchOk reads =>
            match deepseek_loop (stopGeneration s1) reads deepseek_init with
            | None => s1
            | Some (stop, l) =>
                saveCurrentChat
                  (push_message (deepseek_message run l)
                                (set_stopGeneration stop s1))
            end
        end in
      send_finally s2
  end.

(** [(currentSettings.model || 'gemini') === 'deepseek']. *)
Definition sendMessage (userMessage : string) (file : option FileData)
    (run : Run) (s : State) : State :=
  match JS.nullish (model (currentSettings s)) gemini with
  | deepseek => sendMessageWithDeepSeek userMessage file (deepseek_run run) s
  | gemini => sendMessageWithGemini userMessage file (gemini_run run) s
  end.

(* ------------------------------------------------------------------- *)
(** *** Regenerate, edit, submit *)
(* ------------------------------------------------------------------- *)

(** [handleRegenerate]. *)
Definition handleRegenerate (run : Run) (s : State) : State :=
  let n := length (chatHistoryArray s) in
  if (isGenerating s || (n <? 2))%bool then s
  else
    match chatHistoryArray s !! (n - 2) with
    | None => s
    | Some lastUserMessage =>
        (* Remove last model response *)
        let s1 := set_chatHistoryArray (take (n - 1) (chatHistoryArray s)) s in
        let s2 := saveCurrentChat s1 in
        sendMessage (content lastUserMessage) (file lastUserMessage) run s2
    end.

(** [message.content = newText] on the element at [index], which is the
    array's own object. *)
Definition set_content (newText : string) (m : ChatMessage) : ChatMessage :=
  {| sender := sender m; content := newText; timestamp := timestamp m;
     stats := stats m; file := file m; groundingSources := groundingSources m |}.

(** The click handler of the Save button that [handleEdit] builds on the
    message at [index], up to the point where the request is issued again:
    the state it leaves, and the arguments of the [sendMessage] call when
    there is one.  [value] is the content of the text area.  The message is
    assumed not to have changed between the click on Edit, which reads
    [originalText], and the click on Save. *)
Definition editUser (index : nat) (value : string) (s : State)
  : State * option (string * option FileData) :=
  match chatHistoryArray s !! index with
  | None => (s, None)
  | Some message =>
      let originalText := content message in
      let newText := JS.trim value in
      if (JS.truthy_string newText && negb (String.eqb newText originalText))%bool
      then
        let edited := <[index := set_content newText message]> (chatHistoryArray s) in
        (* Truncate history after this message *)
        let s1 := set_chatHistoryArray (take (index + 1) edited) s in
        (saveCurrentChat s1, Some (newText, file message))
      else (s, None)
  end.

Definition handleEdit_save (index : nat) (value : string) (run : Run) (s : State)
  : State :=
  match editUser index value s with
  | (s', Some (newText, f)) => sendMessage newText f run s'
  | (s', None) => s'
  end.

(** [`chat_${Date.now()}`]. *)
Definition new_chat_id (now : N) : string :=
  "chat_" +:+ NilEmpty.string_of_uint (N.to_uint now).

(** What [handleFormSubmit] does before it calls [sendMessage], when it
    gets that far: the catalog entry for a conversation that has no id yet,
    and the user message pushed but not saved.  [inl] when it returns
    early. *)
Definition submit_prepare (chatInput : string) (now : N) (userTimestamp : string)
    (s : State) : State + (State * string) :=
  if isGenerating s then inl (set_stopGeneration true s)
  else if isRecording s then inl s
  else
    let userMessage := JS.trim chatInput in
    if (negb (JS.truthy_string userMessage) && negb (JS.truthy_object (attachedFile s)))%bool
    then inl s
    else
      let s1 :=
        if JS.truthy_ostring (activeChatId s) then s
        else
          let newId := new_chat_id now in
          let title := JS.or_string (JS.substring_to 30 userMessage) "New Chat" in
          let newIndexItem := {| id := newId; title := title;
                                 pinned := Some false; archived := Some false |} in
          saveChatIndex
            (set_chatIndex (newIndexItem :: chatIndex s)
               (set_activeChatId (Some newId) s)) in
      let userMessageForHistory :=
        {| sender := sender_user; content := userMessage;
           timestamp := userTimestamp; stats := None;
           file := attachedFile s1; groundingSources := None |} in
      (* Don't save yet, save after model response *)
      inr (push_message userMessageForHistory s1, userMessage).

Definition handleFormSubmit (chatInput : string) (now : N) (userTimestamp : string)
    (run : Run) (s : State) : State :=
  match submit_prepare chatInput now userTimestamp s with
  | inl s' => s'
  | inr (s1, userMessage) =>
      clearAttachedFile (sendMessage userMessage (attachedFile s1) run s1)
  end.

End Platform.

(* ===================================================================== *)
(** ** Further handlers of the page *)
(* ===================================================================== *)

(** The [blur] handler of a title input:
    [updateChatMetadata(item.id, { title: titleInput.value })]. *)
Definition renameChat (chatId newTitle : string) (s : State) : State :=
  updateChatMetadata chatId
    {| p_title := Some newTitle; p_pinned := None; p_archived := None |} s.

(** The [click] handler of a conversation item.  The item is the object of
    [chatIndex] that the sidebar was drawn from, given here by its position:
    [if (item.archived) toggleArchive(item.id); loadChat(item.id)]. *)
Definition clickConversation (position : nat) (s : State) : State :=
  match chatIndex s !! position with
  | Some item =>
      let s1 := if JS.truthy_bool (archived item) then toggleArchive (id item) s else s in
      loadChat (id item) s1
  | None => s
  end.

(** [handleSettingsSave]: the three values are those of the form
    ([parseFloat] of the slider already taken); the theme goes to a key of
    its own and is left out. *)
Definition handleSettingsSave (systemPrompt : string) (temperatureInput : JS.number)
    (modelInput : Model) (s : State) : State :=
  let s1 := set_currentSettings
              {| systemInstruction := Some systemPrompt;
                 temperature := Some temperatureInput;
                 model := Some modelInput |} s in
  if JS.truthy_ostring (activeChatId s1)
  then
    let s2 := saveCurrentChat s1 in
    (* Reload chat with new settings *)
    match activeChatId s2 with
    | Some aid => loadChat aid s2
    | None => s2
    end
  else s1.

(** The globals of a page that has just been loaded, over what
    [localStorage] holds. *)
Definition fresh_page (index : option ChatIndex) (chats : gmap string StoredChat) : State :=
  {| chatHistoryArray := []; currentSettings := {| systemInstruction := None;
                                                   temperature := None; model := None |};
     isGenerating := false; stopGeneration := false; attachedFile := None;
     chatIndex := []; activeChatId := None; isRecording := false;
     storedIndex := index; storedChats := chats |}.

(** [initializeAppForUser], without the theme and the sidebar. *)
Definition initializeAppForUser (s : State) : State :=
  let s1 := set_chatIndex (getChatIndex s) s in
  let s2 :=
    match List.find not_archived (chatIndex s1) with
    | Some firstActiveChat => loadChat (id firstActiveChat) s1
    | None => startNewChat s1
    end in
  setFormState false s2.

(** The history sent to the text-delta backend:
    [chatHistoryArray.map(msg => ({role: ..., content: msg.content}))]. *)
Inductive Role := role_user | role_assistant.

Definition deepseek_history (history : list ChatMessage) : list (Role * string) :=
  map (λ msg, (match sender msg with
               | sender_user => role_user
               | sender_model => role_assistant
               end, content msg)) history.

(* ===================================================================== *)
(** ** The code renderer *)
(* ===================================================================== *)

Module Renderer.

(** [s.replace(/c/g, by)] for a one-character pattern. *)
Fixpoint replace_all (c : ascii) (by_ : string) (s : string) : string :=
  match s with
  | EmptyString => EmptyString
  | String x s' =>
      if Ascii.eqb x c then by_ +:+ replace_all c by_ s'
      else String x (replace_all c by_ s')
  end.

Definition amp : ascii := ascii_of_nat 38.
Definition lt : ascii := ascii_of_nat 60.
Definition gt : ascii := ascii_of_nat 62.

(** [code.replace(/&/g, '&amp;').replace(/</g, '&lt;').replace(/>/g, '&gt;')]. *)
Definition sanitizedCode (code : string) : string :=
  replace_all gt "&gt;" (replace_all lt "&lt;" (replace_all amp "&amp;" code)).

End Renderer.

(* ===================================================================== *)
(** ** Single user authentication *)
(* ===================================================================== *)

Module Auth.

Record UserProfile := { name : string; email : string; password : string }.

(** The profile in memory, the profile and the session marker in
    [localStorage], the session marker in [sessionStorage], and whether the
    body carries the class [logged-in]. *)
Record Page := {
  currentUserProfile : UserProfile;
  localProfile : option UserProfile;
  localSession : option string;
  tabSession : option string;
  logged_in : bool
}.

Definition default_profile : UserProfile :=
  {| name := "Rommel"; email := "rommel@remoteit.solutions"; password := "Qazw0329!" |}.

Definition saveUserProfile (p : Page) : Page :=
  {| currentUserProfile := currentUserProfile p;
     localProfile := Some (currentUserProfile p);
     localSession := localSession p; tabSession := tabSession p;
     logged_in := logged_in p |}.

Definition set_profile (u : UserProfile) (p : Page) : Page :=
  {| currentUserProfile := u; localProfile := localProfile p;
     localSession := localSession p; tabSession := tabSession p;
     logged_in := logged_in p |}.

Definition loadUserProfile (p : Page) : Page :=
  match localProfile p with
  | Some storedProfile => set_profile storedProfile p
  | None => saveUserProfile (set_profile default_profile p)
  end.

(** [=== 'true'] on a stored item. *)
Definition is_true (item : option string) : bool :=
  match item with Some v => String.eqb v "true" | None => false end.

(** The check made when the page loads. *)
Definition session_found (p : Page) : bool :=
  is_true (localSession p) || is_true (tabSession p).

(** The page as the start-up code leaves it, over the two storages. *)
Definition startup (profile : option UserProfile) (localS tabS : option string) : Page :=
  let p := loadUserProfile
             {| currentUserProfile := default_profile; localProfile := profile;
                localSession := localS; tabSession := tabS; logged_in := false |} in
  {| currentUserProfile := currentUserProfile p; localProfile := localProfile p;
     localSession := localSession p; tabSession := tabSession p;
     logged_in := session_found p |}.

(** The [submit] handler of the login form. *)
Definition login (emailInput passwordInput : string) (rememberMe : bool) (p : Page) : Page :=
  if String.eqb emailInput (email (currentUserProfile p))
     && String.eqb passwordInput (password (currentUserProfile p))
  then
    {| currentUserProfile := currentUserProfile p; localProfile := localProfile p;
       localSession := if rememberMe then Some "true" else localSession p;
       tabSession := if rememberMe then tabSession p else Some "true";
       logged_in := true |}
  else p.

(** The [click] handler of the logout button: both markers are removed and
    the page is loaded again. *)
Definition logout (p : Page) : Page :=
  startup (localProfile p) None None.

(** [handleProfileSave]. *)
Definition handleProfileSave (nameInput emailInput passwordInput : string) (p : Page) : Page :=
  let newName := JS.trim nameInput in
  let newEmail := JS.trim emailInput in
  let newPassword := JS.trim passwordInput in
  let u := currentUserProfile p in
  let u := {| name := if JS.truthy_string newName then newName else name u;
              email := if JS.truthy_string newEmail then newEmail else email u;
              password := if JS.truthy_string newPassword then newPassword else password u |} in
  saveUserProfile (set_profile u p).

End Auth.

(* ===================================================================== *)
(** ** The server function in front of the text-delta backend *)
(* ===================================================================== *)

Module Proxy.

(** What the function reads of a response and what it builds. *)
Record Response := {
  status : nat;
  contentType : option string;
  body : list string
}.

(** The request sent on to the backend. *)
Record UpstreamRequest := {
  authorization : string;
  req_model : string;
  messages : list (Role * string);
  stream : bool
}.

(** [handler]: [apiKey] is [process.env.DEEPSEEK_API_KEY], [upstream] the
    backend as [fetch] reaches it. *)
Definition handler (apiKey : option string) (history : list (Role * string))
    (upstream : UpstreamRequest → Response) : Response :=
  if JS.truthy_ostring apiKey then
    let response :=
      upstream {| authorization := "Bearer " +:+ JS.nullish apiKey "";
                  req_model := "deepseek-chat";
                  messages := history;
                  stream := true |} in
    {| status := 200; contentType := Some "text/event-stream"; body := body response |}
  else
    {| status := 500; contentType := Some "text/plain;charset=UTF-8";
       body := ["API key not configured on the server."] |}.

(** [response.ok]. *)
Definition ok (r : Response) : bool := (200 <=? status r) && (status r <=? 299).

End Proxy.

(* ===================================================================== *)
(** ** File handling *)
(* ===================================================================== *)

(** [handleFileSelect] with the [onload] of its reader: no file chosen clears
    the attachment, a file becomes the attachment. *)
Definition handleFileSelect (chosen : option FileData) (s : State) : State :=
  match chosen with
  | None => set_attachedFile None s
  | Some f => set_attachedFile (Some f) s
  end.

(* ===================================================================== *)
(** ** The action buttons of the messages *)
(* ===================================================================== *)

Inductive MessageButton :=
| CopyMessage | ReadAloud | GoodResponse | BadResponse | Regenerate | EditMessage.

(** The action buttons that [appendMessage(msg, index)] creates:
    [index === chatHistoryArray.length - 1] and
    [index === chatHistoryArray.length - 2] are comparisons of numbers, the
    right-hand sides negative for short arrays. *)
Definition appendMessage_actions (s : State) (msg : ChatMessage) (index : nat)
  : list MessageButton :=
  let length := Z.of_nat (length (chatHistoryArray s)) in
  match sender msg with
  | sender_model =>
      [CopyMessage; ReadAloud; GoodResponse; BadResponse]
      ++ (if (Z.of_nat index =? length - 1)%Z then [Regenerate] else [])
  | sender_user =>
      (* Only allow editing the last user message *)
      if (Z.of_nat index =? length - 2)%Z then [EditMessage] else []
  end.

(** [renderHistory]: the buttons of every message drawn, in order; [now] is
    the time stamp given to the greeting. *)
Definition renderHistory_actions (now : string) (s : State) : list (list MessageButton) :=
  match chatHistoryArray s with
  | [] =>
      [appendMessage_actions s
         {| sender := sender_model; content := "Hello! How can I help you today?";
            timestamp := now; stats := None; file := None; groundingSources := None |} 0]
  | _ :: _ => imap (λ i msg, appendMessage_actions s msg i) (chatHistoryArray s)
  end.

(* ===================================================================== *)
(** ** The sidebar *)
(* ===================================================================== *)

Module Sidebar.

(** [array.sort(compareFn)], which is stable: an element goes after those
    that [compareFn] puts before it, and before the first one that it does
    not ([compareFn x y > 0] puts [x] after [y]). *)
Fixpoint sort_insert {A} (compareFn : A → A → Z) (x : A) (l : list A) : list A :=
  match l with
  | [] => [x]
  | y :: l' =>
      if (0 <? compareFn x y)%Z then y :: sort_insert compareFn x l' else x :: l
  end.

Definition sort {A} (compareFn : A → A → Z) (l : list A) : list A :=
  foldr (sort_insert compareFn) [] l.

(** What [renderSidebar] puts into the conversation list: the items of the
    chats that are not archived and, when there are archived chats, the
    section with their number in its header and their items. *)
Record Drawn := {
  activeItems : list ChatIndexItem;
  archiveSection : option (nat * list ChatIndexItem)
}.

Section Locale.
Variable localeCompare : string → string → Z.

(** [(b.pinned ? 1 : 0) - (a.pinned ? 1 : 0) || b.id.localeCompare(a.id)]. *)
Definition compare_active (a b : ChatIndexItem) : Z :=
  let byPin := ((if JS.truthy_bool (pinned b) then 1 else 0)
                - (if JS.truthy_bool (pinned a) then 1 else 0))%Z in
  if (byPin =? 0)%Z then localeCompare (id b) (id a) else byPin.

(** [b.id.localeCompare(a.id)]. *)
Definition compare_archived (a b : ChatIndexItem) : Z :=
  localeCompare (id b) (id a).

Definition renderSidebar (s : State) : Drawn :=
  (* Separate chats into active and archived *)
  let activeChats := List.filter (λ c, negb (JS.truthy_bool (archived c))) (chatIndex s) in
  let archivedChats := List.filter (λ c, JS.truthy_bool (archived c)) (chatIndex s) in
  {| activeItems := sort compare_active activeChats;
     archiveSection :=
       if (0 <? length archivedChats)%nat
       then Some (length archivedChats, sort compare_archived archivedChats)
       else None |}.

End Locale.

(** The buttons of a conversation item, in order. *)
Inductive ItemButton := Unarchive | Pin (filled : bool) | Archive | Delete.

(** The buttons that [createConversationItem] gives an item. *)
Definition createConversationItem_actions (item : ChatIndexItem) : list ItemButton :=
  (if JS.truthy_bool (archived item)
   then [Unarchive]
   else [Pin (JS.truthy_bool (pinned item)); Archive])
  ++ [Delete].

End Sidebar.

(* ===================================================================== *)
(** * Vocabulary of the properties *)
(* ===================================================================== *)

(** ** Catalog *)

(** [archived ⇒ pinned = false] on one entry and on the catalog. *)
Definition entry_ok (c : ChatIndexItem) : Prop :=
  JS.truthy_bool (archived c) = true → JS.truthy_bool (pinned c) = false.

Definition catalog_ok (index : ChatIndex) : Prop := Forall entry_ok index.

Inductive CatalogOp := Pin (chatId : string) | Archive (chatId : string).

Definition run_op (op : CatalogOp) (s : State) : State :=
  match op with
  | Pin chatId => togglePin chatId s
  | Archive chatId => toggleArchive chatId s
  end.

(** The states after each operation of a sequence. *)
Fixpoint trace (ops : list CatalogOp) (s : State) : list State :=
  match ops with
  | [] => []
  | op :: ops' => run_op op s :: trace ops' (run_op op s)
  end.

(** The sidebar offers the pin button on entries that are not archived only:
    every [Pin] of the sequence finds an entry that is not archived. *)
Fixpoint pins_offered (ops : list CatalogOp) (s : State) : Prop :=
  match ops with
  | [] => True
  | op :: ops' =>
      match op with
      | Pin chatId =>
          ∀ item, find_by_id chatId (chatIndex s) = Some item →
                  JS.truthy_bool (archived item) = false
      | Archive _ => True
      end ∧ pins_offered ops' (run_op op s)
  end.

Definition pin_entry (item c : ChatIndexItem) : ChatIndexItem :=
  {| id := id c; title := title c;
     pinned := Some (negb (JS.truthy_bool (pinned item)));
     archived := archived c |}.

Definition archive_entry (item c : ChatIndexItem) : ChatIndexItem :=
  let archived' := negb (JS.truthy_bool (archived item)) in
  {| id := id c; title := title c;
     pinned := if archived' then Some false else pinned item;
     archived := Some archived' |}.

(** A catalog with one archived entry, and the state that holds it. *)
Definition archived_entry : ChatIndexItem :=
  {| id := "chat_1"; title := "Notes"; pinned := Some false; archived := Some true |}.

Definition empty_settings : ChatSettings :=
  {| systemInstruction := None; temperature := None; model := None |}.

Definition state_of (index : ChatIndex) (active : option string)
    (history : list ChatMessage) (chats : gmap string StoredChat) : State :=
  {| chatHistoryArray := history; currentSettings := empty_settings;
     isGenerating := false; stopGeneration := false; attachedFile := None;
     chatIndex := index; activeChatId := active; isRecording := false;
     storedIndex := Some index; storedChats := chats |}.

Definition pinned_entry : ChatIndexItem :=
  {| id := "chat_2"; title := "Plans"; pinned := Some true; archived := None |}.

(** ** Conversations used as examples *)

Definition user_turn (text : string) : ChatMessage :=
  {| sender := sender_user; content := text; timestamp := "2025-01-01T10:00:00.000Z";
     stats := None; file := None; groundingSources := None |}.

Definition model_turn (text : string) : ChatMessage :=
  {| sender := sender_model; content := text; timestamp := "2025-01-01T10:00:05.000Z";
     stats := None; file := None; groundingSources := None |}.

Definition plain_entry (chatId : string) : ChatIndexItem :=
  {| id := chatId; title := "Chat"; pinned := Some false; archived := Some false |}.

Definition stored_plans : StoredChat :=
  {| settings := empty_settings; messages := [user_turn "plan"; model_turn "ok"] |}.

(** ** Streams *)

(** A stream step during which the stop button was not pressed. *)
Definition unpressed {A} (values : list A) : list (Step A) :=
  map (λ v, (false, Yield v)) values.

(** The citations that one chunk carries. *)
Definition citations_of (chunk : GenerateContentResponse) : list GroundingChunk :=
  default [] (chunk_groundingChunks chunk).

(** The text that one chunk adds. *)
Definition text_of (chunk : GenerateContentResponse) : string :=
  JS.to_string_or_undefined (text chunk).

(** Concatenation of a list of strings. *)
Definition concat_strings (parts : list string) : string :=
  fold_right String.append "" parts.

(** ** Citations *)

(** The keys of a sequence in the order in which each is first seen. *)
Fixpoint first_seen (ks : list string) : list string :=
  match ks with
  | [] => []
  | k :: ks' => k :: List.filter (λ k', negb (String.eqb k' k)) (first_seen ks')
  end.

(** The last citation of a sequence that has the given uri. *)
Definition last_with_uri (u : string) (l : list GroundingChunk) : option GroundingChunk :=
  last (List.filter (λ x, String.eqb (uri x) u) l).

Definition cite (u t : string) : GroundingChunk := {| uri := u; src_title := t |}.

(** A chunk with a text and a list of citations. *)
Definition chunk_with (t : string) (cites : list GroundingChunk) : GenerateContentResponse :=
  {| text := Some t;
     candidates := Some [ {| groundingMetadata := Some {| groundingChunks := Some cites |} |} ];
     usageMetadata := None |}.

Definition run_of (steps : list (Step GenerateContentResponse)) : GeminiRun :=
  {| startTime := JS.zero; endTime := JS.thousand;
     modelTimestamp := "2025-01-01T10:00:05.000Z"; result := Some steps |}.

(** ** Insertion-ordered maps *)

(** The value held for a key. *)
Definition assoc {V} (k : string) (m : list (string * V)) : option V :=
  snd <$> List.find (λ kv, String.eqb (fst kv) k) m.

Definition has_key (k : string) (ks : list string) : bool :=
  existsb (String.eqb k) ks.

(** The step of [new Map(entries)]. *)
Definition set_entry {V} (m : list (string * V)) (e : string * V) : list (string * V) :=
  JS.map_set (fst e) (snd e) m.

(** The entries [[item.uri, item]] and the map built from them. *)
Definition entries_of (l : list GroundingChunk) : list (string * GroundingChunk) :=
  map (λ item, (uri item, item)) l.

Definition source_map (l : list GroundingChunk) : list (string * GroundingChunk) :=
  fold_left set_entry (entries_of l) [].

(** Every entry is filed under the uri of its value. *)
Definition keyed (m : list (string * GroundingChunk)) : Prop :=
  ∀ e, In e m → fst e = uri (snd e).

(** The locals of the [for await] loop after a run of chunks. *)
Definition feed (chunks : list GenerateContentResponse) (l : GeminiLocals) : GeminiLocals :=
  fold_left (λ l c, gemini_body c l) chunks l.

(** What a sender leaves when its loop ended without an exception and the
    message [m] is committed, and when the [try] block was left by an
    exception. *)
Definition committed_state (m : ChatMessage) (stop : bool) (s : State) : State :=
  send_finally
    (saveCurrentChat (push_message m (set_stopGeneration stop (setFormState true s)))).

Definition failed_state (s : State) : State :=
  send_finally (setFormState true s).

(** The outcome of the [for await] loop of a run. *)
Definition gemini_outcome (run : GeminiRun) (s : State) : option (bool * GeminiLocals) :=
  steps ← result run; gemini_loop (stopGeneration s) steps gemini_init.

(** ** Statistics *)





(** ** Text-delta stream *)

(** The finished lines of a text and the unfinished line at its end. *)
Definition complete_lines (s : string) : list string :=
  removelast (JS.split newline s).

Definition pending (s : string) : string :=
  default "" (last (JS.split newline s)).

Fixpoint no_newline (s : string) : bool :=
  match s with
  | EmptyString => true
  | String c s' => negb (Ascii.eqb c newline) && no_newline s'
  end.

(** Records written one per line, each line ended by a line feed. *)
Definition unlines (records : list string) : string :=
  concat_strings (map (λ r, r +:+ String newline "") records).

(** The payload of a [data: ] record, and the record that ends the
    stream. *)
Definition payload (line : string) : string := JS.trim (JS.substring_from 6 line).

Definition is_done (line : string) : bool :=
  JS.startsWith "data: " line && String.eqb (payload line) "[DONE]".

(** The records that come before the first [[DONE]] record. *)
Fixpoint before_done (records : list string) : list string :=
  match records with
  | [] => []
  | r :: records' => if is_done r then [] else r :: before_done records'
  end.

Section PlatformVocabulary.
Variable JSON_parse : string -> option JSON.
Variable Number_toString : JS.number -> string.

(** The content delta of a well-formed record; [None] for a line that is not
    a [data: ] record and for a record whose payload fails to parse. *)
Definition delta (line : string) : option string :=
  if JS.startsWith "data: " line
  then textChunk JSON_parse Number_toString (payload line)
  else None.

(** A [data: ] record that is not [[DONE]] and fails in the [try] block. *)
Definition malformed (line : string) : bool :=
  JS.startsWith "data: " line && negb (is_done line)
  && negb (JS.truthy_object (textChunk JSON_parse Number_toString (payload line))).

(** The text accumulated from the finished lines of an input. *)
Definition lines_text (input : string) (fullResponse : string) : string :=
  fst (deepseek_lines JSON_parse Number_toString (complete_lines input) fullResponse).

(** The text that the reader has accumulated when a stream of reads, with
    the stop button left alone, is at its end. *)
Definition decoded (values : list string) : option string :=
  (λ r, d_fullResponse (snd r))
    <$> deepseek_loop JSON_parse Number_toString false (unpressed values) deepseek_init.

(** The outcome of the [while] loop of a run. *)
Definition deepseek_outcome (run : DeepSeekRun) (s : State)
  : option (bool * DeepSeekLocals) :=
  match response run with
  | FetchOk reads =>
      deepseek_loop JSON_parse Number_toString (stopGeneration s) reads deepseek_init
  | FetchRejects | FetchNotOk => None
  end.

(** A send commits no model turn: the request or the stream raised, the
    response was not a success, or a file was given to the text-delta
    sender. *)
Definition session_fails (f : option FileData) (run : Run) (s : State) : Prop :=
  match JS.nullish (model (currentSettings s)) gemini with
  | gemini => gemini_outcome (gemini_run run) s = None
  | deepseek => f ≠ None ∨ deepseek_outcome (deepseek_run run) s = None
  end.

End PlatformVocabulary.

(** A stand-in for [JSON.parse] that knows the few payloads used in the
    examples below and rejects everything else. *)
Definition delta_json (text : string) : JSON :=
  JObject [("choices", JArray [JObject [("delta", JObject [("content", JString text)])]])].

(** The payload [{"choices":[{"delta":{"content":text}}]}] as it stands on
    the wire. *)
Definition quoted (s : string) : string :=
  String (ascii_of_nat 34) s +:+ String (ascii_of_nat 34) "".

Definition delta_payload (text : string) : string :=
  "{" +:+ quoted "choices" +:+ ":[{" +:+ quoted "delta" +:+ ":{"
      +:+ quoted "content" +:+ ":" +:+ quoted text +:+ "}}]}".

Definition toy_parse (payload : string) : option JSON :=
  if String.eqb payload (delta_payload "Hel") then Some (delta_json "Hel")
  else if String.eqb payload (delta_payload "lo") then Some (delta_json "lo")
  else if String.eqb payload "{}" then Some (JObject [])
  else None.

Definition toy_number (x : JS.number) : string := "0".

(** Runs of the text-delta sender, and runs for [sendMessage]. *)
Definition reads_run (reads : list (Step string)) : DeepSeekRun :=
  {| ds_modelTimestamp := "2025-01-01T10:00:05.000Z"; response := FetchOk reads |}.

Definition failing_run : Run :=
  {| gemini_run := {| startTime := JS.zero; endTime := JS.thousand;
                      modelTimestamp := "2025-01-01T10:00:05.000Z"; result := None |};
     deepseek_run := {| ds_modelTimestamp := "2025-01-01T10:00:05.000Z";
                        response := FetchNotOk |} |}.

Definition answering_run : Run :=
  {| gemini_run := run_of (unpressed [chunk_with "Hello" []]);
     deepseek_run := reads_run [] |}.

(** A [data: ] record and the line feed. *)
Definition data_line (payload : string) : string := "data: " +:+ payload.
Definition LF : string := String newline "".

(** The stream used in the examples: two deltas, [Hel] and [lo], one record
    per line. *)
Definition hello_stream : string :=
  data_line (delta_payload "Hel") +:+ LF +:+ data_line (delta_payload "lo") +:+ LF.

(** The same input cut in the middle of lines. *)
Definition hello_pieces : list string :=
  ["da"; "ta: " +:+ delta_payload "Hel" +:+ LF +:+ "data"; ": " +:+ delta_payload "lo"; LF].

Definition chat_state (history : list ChatMessage) : State :=
  state_of [plain_entry "chat_1"] (Some "chat_1") history ∅.

(* ===================================================================== *)
(** * Vocabulary of the further properties *)
(* ===================================================================== *)

(** ** What the user can do on the page *)

Inductive Action :=
| DoTogglePin (chatId : string)
| DoToggleArchive (chatId : string)
| DoRename (chatId newTitle : string)
| DoDelete (confirmed : bool) (chatId : string)
| DoClick (position : nat)
| DoNewChat
| DoSelectFile (chosen : option FileData)
| DoSettingsSave (systemPrompt : string) (temperatureInput : JS.number) (modelInput : Model)
| DoSubmit (chatInput : string) (now : N) (userTimestamp : string) (run : Run)
| DoRegenerate (run : Run)
| DoEditSave (index : nat) (value : string) (run : Run).

Section Actions.
Variable JSON_parse : string -> option JSON.
Variable Number_toString : JS.number -> string.

(** The handler behind each action; a send is taken with its whole
    response. *)
Definition perform (a : Action) (s : State) : State :=
  match a with
  | DoTogglePin chatId => togglePin chatId s
  | DoToggleArchive chatId => toggleArchive chatId s
  | DoRename chatId newTitle => renameChat chatId newTitle s
  | DoDelete confirmed chatId => deleteChat confirmed chatId s
  | DoClick position => clickConversation position s
  | DoNewChat => startNewChat s
  | DoSelectFile chosen => handleFileSelect chosen s
  | DoSettingsSave systemPrompt temperatureInput modelInput =>
      handleSettingsSave systemPrompt temperatureInput modelInput s
  | DoSubmit chatInput now userTimestamp run =>
      handleFormSubmit JSON_parse Number_toString chatInput now userTimestamp run s
  | DoRegenerate run => handleRegenerate JSON_parse Number_toString run s
  | DoEditSave index value run =>
      handleEdit_save JSON_parse Number_toString index value run s
  end.

Definition perform_all (actions : list Action) (s : State) : State :=
  fold_left (λ s a, perform a s) actions s.

End Actions.

(** The catalog that a reload would read is the catalog in memory. *)
Definition catalog_saved (s : State) : Prop := getChatIndex s = chatIndex s.

(** No response is being generated and no stop is pending. *)
Definition idle (s : State) : Prop :=
  isGenerating s = false ∧ stopGeneration s = false.

(** Every stored conversation and the active conversation have an entry in
    the catalog. *)
Definition catalogued (chatId : string) (s : State) : Prop :=
  In chatId (map id (chatIndex s)).

Definition no_orphans (s : State) : Prop :=
  (∀ chatId, is_Some (storedChats s !! chatId) → catalogued chatId s)
  ∧ (∀ aid, activeChatId s = Some aid → catalogued aid s).

(** A step that leaves the catalog and its stored copy alone, or leaves the
    stored copy equal to the catalog. *)
Definition catalog_step (s s' : State) : Prop :=
  (chatIndex s' = chatIndex s ∧ storedIndex s' = storedIndex s)
  ∨ storedIndex s' = Some (chatIndex s').

(** A step that leaves the two flags of a send alone. *)
Definition flags_kept (s s' : State) : Prop :=
  isGenerating s' = isGenerating s ∧ stopGeneration s' = stopGeneration s.

(** The page loaded again over the storage that a state leaves. *)
Definition reload (s : State) : State :=
  initializeAppForUser (fresh_page (storedIndex s) (storedChats s)).

(** A page loaded over a given storage. *)
Definition loaded_page (index : option ChatIndex) (chats : gmap string StoredChat) : State :=
  initializeAppForUser (fresh_page index chats).

(** A storage with two conversations, and a few actions on it. *)
Definition two_chats_index : ChatIndex := [plain_entry "chat_2"; plain_entry "chat_1"].

Definition two_chats_store : gmap string StoredChat :=
  {[ "chat_1" := stored_plans ]}.

Definition sample_actions : list Action :=
  [DoSubmit "hello" 1735725600000 "2025-01-01T10:00:00.000Z" answering_run;
   DoTogglePin "chat_1"; DoToggleArchive "chat_2"; DoNewChat;
   DoSubmit "again" 1735725700000 "2025-01-01T10:01:40.000Z" failing_run;
   DoRename "chat_1" "Plans"; DoDelete true "chat_2"; DoClick 0].

(** ** Lines *)

(** The carriage return, and a string that does not hold a given
    character. *)
Definition CR : string := String (ascii_of_nat 13) "".

Fixpoint lacks (c : ascii) (s : string) : bool :=
  match s with
  | EmptyString => true
  | String x s' => negb (Ascii.eqb x c) && lacks c s'
  end.

(** ** The page behind the server function *)

(** What the page's [fetch] makes of a response: [response.ok] decides, and
    the body is read chunk by chunk, the stop button left alone. *)
Definition client_fetch (r : Proxy.Response) : FetchOutcome :=
  if Proxy.ok r then FetchOk (unpressed (Proxy.body r)) else FetchNotOk.

(** The request that the server function sends on for a key and a
    history. *)
Definition upstream_request (key : string) (history : list (Role * string))
  : Proxy.UpstreamRequest :=
  {| Proxy.authorization := "Bearer " +:+ key;
     Proxy.req_model := "deepseek-chat";
     Proxy.messages := history;
     Proxy.stream := true |}.

(** A send of the page through the server function. *)
Definition proxied_run (apiKey : option string) (history : list (Role * string))
    (upstream : Proxy.UpstreamRequest → Proxy.Response) (stamp : string) : DeepSeekRun :=
  {| ds_modelTimestamp := stamp;
     response := client_fetch (Proxy.handler apiKey history upstream) |}.

(** ** Rendered code *)

(** What a browser reads back from the three entities that the renderer
    writes. *)
Fixpoint unescape (s : string) : string :=
  match s with
  | EmptyString => EmptyString
  | String "&" (String "a" (String "m" (String "p" (String ";" rest)))) =>
      String "&" (unescape rest)
  | String "&" (String "l" (String "t" (String ";" rest))) =>
      String "<" (unescape rest)
  | String "&" (String "g" (String "t" (String ";" rest))) =>
      String ">" (unescape rest)
  | String c rest => String c (unescape rest)
  end.

(** The one-pass form of the three replacements. *)
Definition entity (c : ascii) : string :=
  if Ascii.eqb c Renderer.amp then "&amp;"
  else if Ascii.eqb c Renderer.lt then "&lt;"
  else if Ascii.eqb c Renderer.gt then "&gt;"
  else String c "".

Fixpoint escape (s : string) : string :=
  match s with
  | EmptyString => EmptyString
  | String c s' => entity c +:+ escape s'
  end.

(** ** Buttons *)

(** A send that is refused before any request: the text-delta sender with a
    file. *)
Definition file_refused (f : option FileData) (s : State) : Prop :=
  JS.nullish (model (currentSettings s)) gemini = deepseek ∧ f ≠ None.

(** ** The sidebar *)

(** The items of the archive section, none when there is no section. *)
Definition archivedItems (d : Sidebar.Drawn) : list ChatIndexItem :=
  match Sidebar.archiveSection d with
  | Some (_, items) => items
  | None => []
  end.

(** A list whose pinned items all come before the others. *)
Definition pinned_first (l : list ChatIndexItem) : Prop :=
  ∃ front back, l = front ++ back
                ∧ Forall (λ c, JS.truthy_bool (pinned c) = true) front
                ∧ Forall (λ c, JS.truthy_bool (pinned c) = false) back.

(** ** What storage gives back *)

(** A number that [JSON.stringify] writes and [JSON.parse] reads back as it
    was: [Infinity] and [NaN] are written as [null], and minus zero as
    [0]. *)
Definition read_back_number (x : JS.number) : bool :=
  match x with
  | S754_zero false | S754_finite _ _ _ => true
  | _ => false
  end.

Definition read_back_turn (m : ChatMessage) : bool :=
  match stats m with
  | Some st => read_back_number (tokenCount st) && read_back_number (speed st)
  | None => true
  end.

(** Turns and settings that are read back from storage as they were
    written; for these alone the storage of the state, which keeps the value
    written, is what [JSON.parse] gives of what [JSON.stringify] wrote. *)
Definition read_back_unchanged (history : list ChatMessage) (c : ChatSettings) : Prop :=
  Forall (λ m, read_back_turn m = true) history
  ∧ match temperature c with
    | Some t => read_back_number t = true
    | None => True
    end.

(** ** Payloads *)

(** A payload whose first choice has no [delta], one whose [choices] array
    is empty, and a stand-in for [JSON.parse] that knows them besides those
    of [toy_parse]. *)
Definition no_delta_payload : string := "{" +:+ quoted "choices" +:+ ":[{}]}".

Definition no_choice_payload : string := "{" +:+ quoted "choices" +:+ ":[]}".

Definition shapes_parse (payload : string) : option JSON :=
  if String.eqb payload no_delta_payload
  then Some (JObject [("choices", JArray [JObject []])])
  else if String.eqb payload no_choice_payload
  then Some (JObject [("choices", JArray [])])
  else toy_parse payload.

(* ===================================================================== *)
(** * Properties *)
(* ===================================================================== *)

(** ** Reading the state through its setters and through storage *)

Lemma or_string_empty (s : string) : JS.or_string s "" = s.
Proof. by destruct s. Qed.

Lemma chatIndex_saveChatIndex s : chatIndex (saveChatIndex s) = chatIndex s.
Proof. done. Qed.

Lemma chatHistoryArray_saveCurrentChat s :
  chatHistoryArray (saveCurrentChat s) = chatHistoryArray s.
Proof. unfold saveCurrentChat. by repeat case_match. Qed.

Lemma activeChatId_saveCurrentChat s :
  activeChatId (saveCurrentChat s) = activeChatId s.
Proof. unfold saveCurrentChat. by repeat case_match. Qed.

Lemma currentSettings_saveCurrentChat s :
  currentSettings (saveCurrentChat s) = currentSettings s.
Proof. unfold saveCurrentChat. by repeat case_match. Qed.

Lemma chatIndex_loadChat chatId s : chatIndex (loadChat chatId s) = chatIndex s.
Proof. unfold loadChat. by repeat case_match. Qed.

Lemma chatIndex_activate_next s : chatIndex (activate_next s) = chatIndex s.
Proof.
  unfold activate_next. case_match; [apply chatIndex_loadChat | done].
Qed.

Lemma is_active_true chatId s :
  is_active chatId s = true ↔ activeChatId s = Some chatId.
Proof.
  unfold is_active. destruct (activeChatId s) as [aid|]; [|naive_solver].
  rewrite String.eqb_eq. naive_solver.
Qed.

(** [loadChat] always ends with the requested id active. *)
Lemma activeChatId_loadChat chatId s :
  activeChatId (loadChat chatId s) = Some chatId.
Proof.
  unfold loadChat. destruct (is_active chatId s) eqn:Hact.
  - by apply is_active_true.
  - by case_match.
Qed.

(** ** The first element that [find] returns and [update_first] rewrites *)

Section UpdateFirst.
Context {A : Type} (p : A → bool).

Lemma find_update_first (f : A → A) l x :
  (∀ y, p (f y) = p y) →
  List.find p l = Some x → List.find p (update_first p f l) = Some (f x).
Proof.
  intros Hp. induction l as [|y l IH]; simpl; [done|].
  destruct (p y) eqn:Hy; simpl.
  - intros [= ->]. by rewrite Hp, Hy.
  - rewrite Hy. apply IH.
Qed.

Lemma update_first_twice (f g : A → A) l :
  (∀ y, p (f y) = p y) →
  update_first p g (update_first p f l) = update_first p (λ y, g (f y)) l.
Proof.
  intros Hp. induction l as [|y l IH]; simpl; [done|].
  destruct (p y) eqn:Hy; simpl.
  - by rewrite Hp, Hy.
  - by rewrite Hy, IH.
Qed.

Lemma update_first_Forall (P : A → Prop) (f : A → A) l :
  Forall P l → (∀ y, List.find p l = Some y → P (f y)) →
  Forall P (update_first p f l).
Proof.
  induction 1 as [|y l Hy Hl IH]; simpl; [constructor|].
  intros Hf. destruct (p y) eqn:Hpy.
  - constructor; [by apply Hf | done].
  - constructor; [done | by apply IH].
Qed.

End UpdateFirst.

(** ** Pin and archive *)

Lemma chatIndex_togglePin chatId s item :
  find_by_id chatId (chatIndex s) = Some item →
  chatIndex (togglePin chatId s)
  = update_first (has_id chatId) (pin_entry item) (chatIndex s).
Proof.
  intros Hfind. unfold togglePin. rewrite Hfind.
  unfold updateChatMetadata. cbn [chatIndex set_chatIndex].
  unfold find_by_id in *.
  erewrite (find_update_first (has_id chatId)); [|done|exact Hfind].
  rewrite chatIndex_saveChatIndex. cbn [chatIndex set_chatIndex].
  rewrite update_first_twice by done.
  done.
Qed.

Lemma chatIndex_toggleArchive chatId s item :
  find_by_id chatId (chatIndex s) = Some item →
  chatIndex (toggleArchive chatId s)
  = update_first (has_id chatId) (archive_entry item) (chatIndex s).
Proof.
  intros Hfind. unfold toggleArchive. rewrite Hfind.
  set (s2 := updateChatMetadata _ _ _).
  assert (chatIndex s2
          = update_first (has_id chatId) (archive_entry item) (chatIndex s)) as Hs2.
  { subst s2. unfold updateChatMetadata. cbn [chatIndex set_chatIndex].
    unfold find_by_id in *.
    erewrite (find_update_first (has_id chatId)); [|done|exact Hfind].
    rewrite chatIndex_saveChatIndex. cbn [chatIndex set_chatIndex].
    rewrite update_first_twice by done.
    done. }
  case_match; [by rewrite chatIndex_activate_next | done].
Qed.

Lemma entry_ok_pin item c :
  JS.truthy_bool (archived c) = false → entry_ok (pin_entry item c).
Proof. intros Hc Harch. simpl in Harch. congruence. Qed.

Lemma entry_ok_archive item c : entry_ok (archive_entry item c).
Proof.
  unfold entry_ok, archive_entry; simpl.
  by destruct (JS.truthy_bool (archived item)).
Qed.

Lemma catalog_ok_toggleArchive chatId s :
  catalog_ok (chatIndex s) → catalog_ok (chatIndex (toggleArchive chatId s)).
Proof.
  intros Hok. destruct (find_by_id chatId (chatIndex s)) as [item|] eqn:Hfind.
  - rewrite (chatIndex_toggleArchive _ _ _ Hfind).
    apply update_first_Forall; [done|]. intros y _. apply entry_ok_archive.
  - unfold toggleArchive. by rewrite Hfind.
Qed.

Lemma catalog_ok_togglePin chatId s :
  (∀ item, find_by_id chatId (chatIndex s) = Some item →
           JS.truthy_bool (archived item) = false) →
  catalog_ok (chatIndex s) → catalog_ok (chatIndex (togglePin chatId s)).
Proof.
  intros Hoff Hok. destruct (find_by_id chatId (chatIndex s)) as [item|] eqn:Hfind.
  - rewrite (chatIndex_togglePin _ _ _ Hfind).
    apply update_first_Forall; [done|]. intros y Hy.
    apply entry_ok_pin. unfold find_by_id, has_id in *.
    assert (y = item) as -> by congruence. by apply Hoff.
  - unfold togglePin. by rewrite Hfind.
Qed.

Lemma catalog_ok_trace ops : ∀ s,
  catalog_ok (chatIndex s) → pins_offered ops s →
  Forall (λ s', catalog_ok (chatIndex s')) (trace ops s).
Proof.
  induction ops as [|op ops IH]; intros s Hok Hoff; simpl; [constructor|].
  destruct Hoff as [Hop Hrest].
  assert (catalog_ok (chatIndex (run_op op s))) as Hok'.
  { destruct op; simpl.
    - by apply catalog_ok_togglePin.
    - by apply catalog_ok_toggleArchive. }
  constructor; [done | by apply IH].
Qed.

(** C2 (as amended).  [togglePin] has no test of [archived]: it flips
    [pinned] on whatever entry [find] returns.  The invariant
    [archived ⇒ pinned = false] holds after each operation of every sequence
    of [togglePin] and [toggleArchive] in which [togglePin] is called, as the
    sidebar does, on entries that are not archived; and [toggleArchive] on an
    entry that is not archived leaves it with [pinned = false] and
    [archived = true], whatever [pinned] was. *)
Theorem C2_pin_archive_invariant :
  (∀ ops s, catalog_ok (chatIndex s) → pins_offered ops s →
            Forall (λ s', catalog_ok (chatIndex s')) (trace ops s))
  ∧ (∀ chatId s item,
       find_by_id chatId (chatIndex s) = Some item →
       JS.truthy_bool (archived item) = false →
       ∃ item', find_by_id chatId (chatIndex (toggleArchive chatId s)) = Some item'
                ∧ pinned item' = Some false ∧ archived item' = Some true
                ∧ id item' = id item ∧ title item' = title item).
Proof.
  split; [intros; by apply catalog_ok_trace|].
  intros chatId s item Hfind Harch.
  exists (archive_entry item item). split.
  - rewrite (chatIndex_toggleArchive _ _ _ Hfind). unfold find_by_id in *.
    by apply (find_update_first (has_id chatId)).
  - unfold archive_entry; simpl. by rewrite Harch.
Qed.

(** The theorem on a catalog of two entries: unpin, archive, unarchive the
    other entry, pin it. *)
Lemma C2_pin_archive_invariant_witness :
  let s := state_of [pinned_entry; archived_entry] (Some "chat_2") [] ∅ in
  Forall (λ s', catalog_ok (chatIndex s'))
         (trace [Pin "chat_2"; Archive "chat_2"; Archive "chat_1"; Pin "chat_1"] s)
  ∧ ∃ item', find_by_id "chat_2" (chatIndex (toggleArchive "chat_2" s)) = Some item'
             ∧ pinned item' = Some false ∧ archived item' = Some true
             ∧ id item' = id pinned_entry ∧ title item' = title pinned_entry.
Proof.
  intros s. split.
  - apply (proj1 C2_pin_archive_invariant).
    + repeat constructor; unfold entry_ok; simpl; intros; congruence.
    + simpl. repeat split; intros item; vm_compute; intros [= <-]; reflexivity.
  - apply (proj2 C2_pin_archive_invariant "chat_2" s pinned_entry); reflexivity.
Defined.

(** C2 (as stated) fails: on an archived entry [togglePin] is not a no-op,
    and the catalog it leaves has an entry both archived and pinned. *)
Lemma C2_togglePin_archived_counterexample :
  let s := state_of [archived_entry] None [] ∅ in
  catalog_ok (chatIndex s)
  ∧ find_by_id "chat_1" (chatIndex s) = Some archived_entry
  ∧ JS.truthy_bool (archived archived_entry) = true
  ∧ chatIndex (togglePin "chat_1" s) ≠ chatIndex s
  ∧ ¬ catalog_ok (chatIndex (togglePin "chat_1" s)).
Proof.
  intros s. repeat split.
  - by repeat constructor.
  - vm_compute. discriminate.
  - vm_compute. intros H. inversion H as [|? ? Hx _]; subst.
    specialize (Hx eq_refl). discriminate.
Qed.

(** ** Loading a conversation *)

(** C3 (as amended).  [loadChat] only replaces the history and the settings
    inside [if (storedChat)]: for an id that has no stored payload it raises
    nothing, makes the id the active one and leaves the turns, the settings
    and the storage as they were. *)
Theorem C3_loadChat_missing_payload chatId s :
  getStoredChat chatId s = None →
  activeChatId (loadChat chatId s) = Some chatId
  ∧ chatHistoryArray (loadChat chatId s) = chatHistoryArray s
  ∧ currentSettings (loadChat chatId s) = currentSettings s
  ∧ storedChats (loadChat chatId s) = storedChats s
  ∧ chatIndex (loadChat chatId s) = chatIndex s.
Proof.
  intros Hmiss. split; [apply activeChatId_loadChat|].
  unfold loadChat. destruct (is_active chatId s); [done|].
  replace (getStoredChat chatId (set_activeChatId (Some chatId) s))
    with (getStoredChat chatId s) by done.
  by rewrite Hmiss.
Qed.

Lemma C3_loadChat_missing_payload_witness :
  let s := state_of [plain_entry "chat_1"; plain_entry "chat_2"] (Some "chat_1")
                    [user_turn "hello"; model_turn "hi"] ∅ in
  activeChatId (loadChat "chat_2" s) = Some "chat_2"
  ∧ chatHistoryArray (loadChat "chat_2" s) = chatHistoryArray s
  ∧ currentSettings (loadChat "chat_2" s) = currentSettings s
  ∧ storedChats (loadChat "chat_2" s) = storedChats s
  ∧ chatIndex (loadChat "chat_2" s) = chatIndex s.
Proof.
  intros s. apply (C3_loadChat_missing_payload "chat_2" s). reflexivity.
Defined.

(** C3 (as stated) fails: with nothing stored for the id, the turns of the
    conversation that was active stay in place: the result is not an empty
    conversation. *)
Lemma C3_loadChat_keeps_turns_counterexample :
  let s := state_of [plain_entry "chat_1"; plain_entry "chat_2"] (Some "chat_1")
                    [user_turn "hello"; model_turn "hi"] ∅ in
  getStoredChat "chat_2" s = None
  ∧ chatHistoryArray (loadChat "chat_2" s) = [user_turn "hello"; model_turn "hi"]
  ∧ chatHistoryArray (loadChat "chat_2" s) ≠ [].
Proof. intros s. split; [reflexivity|]. split; [reflexivity|]. vm_compute. discriminate. Qed.

(** ** Archiving or deleting the active conversation *)






(** ** Editing a user turn *)

(** C6 (as amended).  The Save handler trims the text and does nothing when
    the trimmed text is empty or equal to the content it replaces.  For a
    user turn at [index] and a text whose trimmed form is not empty and
    differs from the turn's content, the store is left (and saved) with
    [index + 1] turns, the turn at [index] carrying the trimmed text and
    nothing else changed, the turns before it untouched, and the request is
    issued again for the trimmed text; otherwise the store is left as it
    was. *)
Theorem C6_editUser index value s message :
  chatHistoryArray s !! index = Some message →
  sender message = sender_user →
  let newText := JS.trim value in
  let s' := fst (editUser index value s) in
  (newText ≠ "" → newText ≠ content message →
     length (chatHistoryArray s') = index + 1
     ∧ chatHistoryArray s' !! index = Some (set_content newText message)
     ∧ take index (chatHistoryArray s') = take index (chatHistoryArray s)
     ∧ s' = saveCurrentChat (set_chatHistoryArray (chatHistoryArray s') s)
     ∧ snd (editUser index value s) = Some (newText, file message))
  ∧ (newText = "" ∨ newText = content message → editUser index value s = (s, None)).
Proof.
  intros Hlook Hsender newText s'. pose proof (lookup_lt_Some _ _ _ Hlook) as Hlt.
  subst s'. unfold editUser. rewrite Hlook. fold newText. split.
  - intros Hne Hdiff.
    assert (JS.truthy_string newText = true) as -> by by destruct newText.
    apply String.eqb_neq in Hdiff as ->. cbn [andb negb fst snd].
    rewrite chatHistoryArray_saveCurrentChat. cbn [chatHistoryArray set_chatHistoryArray].
    split; [|split; [|split]].
    + rewrite length_take, length_insert. lia.
    + rewrite lookup_take_lt by lia. by apply list_lookup_insert_eq.
    + rewrite take_take, Nat.min_l by lia. apply take_insert_ge. lia.
    + done.
  - intros [Hempty | Hsame].
    + by rewrite Hempty.
    + rewrite Hsame, String.eqb_refl. by rewrite andb_false_r.
Qed.

Lemma C6_editUser_witness :
  let s := state_of [plain_entry "chat_1"] (Some "chat_1")
             [user_turn "hello"; model_turn "hi"; user_turn "more"; model_turn "sure"] ∅ in
  let s' := fst (editUser 2 "  less " s) in
  chatHistoryArray s' = [user_turn "hello"; model_turn "hi"; user_turn "less"]
  ∧ storedChats s' !! "chat_1"
    = Some {| settings := empty_settings; messages := chatHistoryArray s' |}
  ∧ editUser 2 "more" s = (s, None).
Proof.
  intros s s'.
  destruct (C6_editUser 2 "  less " s (user_turn "more") eq_refl eq_refl) as [Hedit _].
  destruct (C6_editUser 2 "more" s (user_turn "more") eq_refl eq_refl) as [_ Hkeep].
  destruct Hedit as (_ & _ & _ & Hs' & _); [discriminate | discriminate |].
  split; [reflexivity|]. split; [|apply Hkeep; by right].
  fold s' in Hs'. rewrite Hs'. reflexivity.
Defined.

(** C6 (as stated) fails: an edit to the empty text leaves both turns in
    place, and an edit to a padded text stores the trimmed text. *)
Lemma C6_editUser_counterexample :
  let s := state_of [plain_entry "chat_1"] (Some "chat_1")
             [user_turn "hello"; model_turn "hi"] ∅ in
  chatHistoryArray s !! 0 = Some (user_turn "hello")
  ∧ sender (user_turn "hello") = sender_user
  ∧ length (chatHistoryArray (fst (editUser 0 "" s))) ≠ 0 + 1
  ∧ (content <$> chatHistoryArray (fst (editUser 0 "" s)) !! 0) ≠ Some ""
  ∧ (content <$> chatHistoryArray (fst (editUser 0 " bye " s)) !! 0) ≠ Some " bye ".
Proof. intros s. repeat split; vm_compute; discriminate. Qed.

(** ** Insertion-ordered maps *)

Section MapFacts.
Context {V : Type}.
Implicit Types (m acc : list (string * V)) (es : list (string * V)).

Lemma keys_map_set k v m :
  map fst (JS.map_set k v m)
  = if has_key k (map fst m) then map fst m else map fst m ++ [k].
Proof.
  induction m as [|[k' v'] m IH]; simpl; [done|].
  rewrite (String.eqb_sym k k'). destruct (String.eqb k' k); simpl; [done|].
  rewrite IH. by destruct (has_key k (map fst m)).
Qed.

Lemma assoc_map_set k' k v m :
  assoc k' (JS.map_set k v m) = if String.eqb k k' then Some v else assoc k' m.
Proof.
  unfold assoc. induction m as [|[k0 v0] m IH]; simpl.
  - by destruct (String.eqb k k').
  - destruct (String.eqb k0 k) eqn:Hk0; simpl.
    + apply String.eqb_eq in Hk0 as ->. by destruct (String.eqb k k').
    + destruct (String.eqb k0 k') eqn:Hk0'; simpl; [|done].
      apply String.eqb_eq in Hk0' as ->. by rewrite String.eqb_sym, Hk0.
Qed.

Lemma filter_filter_and {A} (p q : A → bool) l :
  List.filter p (List.filter q l) = List.filter (λ x, q x && p x) l.
Proof.
  induction l as [|x l IH]; simpl; [done|].
  destruct (q x); simpl; [|done]. destruct (p x); by rewrite IH.
Qed.

Lemma keys_fold es : ∀ acc,
  map fst (fold_left set_entry es acc)
  = map fst acc
    ++ List.filter (λ k, negb (has_key k (map fst acc))) (first_seen (map fst es)).
Proof.
  induction es as [|[k v] es IH]; intros acc; simpl.
  - by rewrite app_nil_r.
  - rewrite IH. unfold set_entry at 1 2; simpl. rewrite keys_map_set.
    rewrite filter_filter_and.
    destruct (has_key k (map fst acc)) eqn:Hk; simpl.
    + f_equal. apply List.filter_ext. intros x.
      destruct (String.eqb x k) eqn:Hx; simpl; [|done].
      apply String.eqb_eq in Hx as ->. by rewrite Hk.
    + rewrite <- app_assoc. simpl. do 2 f_equal.
      apply List.filter_ext. intros x. unfold has_key.
      rewrite existsb_app. simpl. rewrite orb_false_r, negb_orb.
      apply andb_comm.
Qed.

Lemma assoc_fold k es : ∀ acc,
  assoc k (fold_left set_entry es acc)
  = match last (List.filter (λ e, String.eqb (fst e) k) es) with
    | Some e => Some (snd e)
    | None => assoc k acc
    end.
Proof.
  induction es as [|[k0 v0] es IH]; intros acc; simpl; [done|].
  rewrite IH. unfold set_entry at 1; simpl. rewrite assoc_map_set.
  destruct (String.eqb k0 k); simpl.
  - rewrite last_cons. by destruct (last _).
  - done.
Qed.

Lemma assoc_In k v m :
  List.NoDup (map fst m) → In (k, v) m → assoc k m = Some v.
Proof.
  unfold assoc. induction m as [|[k0 v0] m IH]; simpl; [done|].
  intros Hnd Hin. apply List.NoDup_cons_iff in Hnd as [Hnotin Hnd].
  destruct Hin as [[= -> ->] | Hin].
  - by rewrite String.eqb_refl.
  - destruct (String.eqb k0 k) eqn:Hk; simpl; [|by apply IH].
    apply String.eqb_eq in Hk as ->. destruct Hnotin.
    by apply (List.in_map fst _ (k, v)).
Qed.
End MapFacts.

Lemma first_seen_NoDup ks : List.NoDup (first_seen ks).
Proof.
  induction ks as [|k ks IH]; simpl; constructor.
  - intros Hin. apply List.filter_In in Hin as [_ Hk].
    by rewrite String.eqb_refl in Hk.
  - by apply List.NoDup_filter.
Qed.

Lemma last_map {A B} (f : A → B) l : last (map f l) = f <$> last l.
Proof.
  induction l as [|x l IH]; [done|]. simpl map. rewrite !last_cons, IH.
  by destruct (last l).
Qed.

Lemma filter_map_comm {A B} (f : A → B) (p : B → bool) l :
  List.filter p (map f l) = map f (List.filter (λ x, p (f x)) l).
Proof.
  induction l as [|x l IH]; simpl; [done|]. destruct (p (f x)); simpl; by rewrite IH.
Qed.

(** ** Citations committed with the model turn *)

Lemma keyed_map_set k v m : keyed m → k = uri v → keyed (JS.map_set k v m).
Proof.
  intros Hm ->. induction m as [|[k' v'] m IH]; simpl.
  - intros e [<-|[]]. done.
  - assert (keyed m) as Hm' by (intros e He; apply Hm; by right).
    destruct (String.eqb k' (uri v)) eqn:Hk; intros e [<-|Hin]; simpl; auto.
    + by apply String.eqb_eq.
    + apply (Hm (k', v')). by left.
    + by apply IH.
Qed.

Lemma keyed_source_map l : keyed (source_map l).
Proof.
  unfold source_map.
  assert (∀ acc, keyed acc → keyed (fold_left set_entry (entries_of l) acc)) as H;
    [|apply H; by intros ? []].
  induction l as [|x l IH]; simpl; [done|]. intros acc Hacc.
  apply IH. by apply keyed_map_set.
Qed.

Lemma keyed_keys m : keyed m → map uri (map snd m) = map fst m.
Proof.
  induction m as [|e m IH]; simpl; [done|]. intros He.
  rewrite IH by (intros e' ?; apply He; by right).
  rewrite (He e) by (by left). done.
Qed.

Lemma source_map_keys l : map fst (source_map l) = first_seen (map uri l).
Proof.
  unfold source_map. rewrite keys_fold. simpl.
  unfold entries_of. rewrite map_map. simpl.
  induction (first_seen (map uri l)) as [|k ks IH]; simpl; [done|]. by rewrite IH.
Qed.

Lemma uniqueSources_source_map l : uniqueSources l = map snd (source_map l).
Proof. reflexivity. Qed.

Lemma uniqueSources_keys l : map uri (uniqueSources l) = first_seen (map uri l).
Proof.
  rewrite uniqueSources_source_map, keyed_keys by apply keyed_source_map.
  apply source_map_keys.
Qed.

Lemma uniqueSources_last l x :
  In x (uniqueSources l) → last_with_uri (uri x) l = Some x.
Proof.
  rewrite uniqueSources_source_map. intros Hin.
  apply List.in_map_iff in Hin as ([k v] & Hv & Hin). simpl in Hv. subst v.
  assert (k = uri x) as -> by apply (keyed_source_map l _ Hin).
  assert (assoc (uri x) (source_map l) = Some x) as Hassoc.
  { apply assoc_In; [|done]. rewrite source_map_keys. apply first_seen_NoDup. }
  unfold source_map in Hassoc. rewrite assoc_fold in Hassoc.
  unfold entries_of in Hassoc. rewrite filter_map_comm, last_map in Hassoc.
  simpl in Hassoc. unfold last_with_uri.
  destruct (last _) as [y|]; simpl in Hassoc; [congruence|discriminate].
Qed.

(** ** Strings *)

Lemma string_app_cons x (a b : string) : String x a +:+ b = String x (a +:+ b).
Proof. reflexivity. Qed.

Lemma string_app_assoc (a b c : string) : (a +:+ b) +:+ c = a +:+ (b +:+ c).
Proof. induction a as [|x a IH]; [done|]. rewrite !string_app_cons. by rewrite IH. Qed.

Lemma string_app_nil_r (a : string) : a +:+ "" = a.
Proof. induction a as [|x a IH]; [done|]. rewrite string_app_cons. by rewrite IH. Qed.

(** ** What a sender leaves behind *)

Lemma committed_state_history m stop s :
  chatHistoryArray (committed_state m stop s) = chatHistoryArray s ++ [m].
Proof.
  unfold committed_state, send_finally, setFormState. simpl.
  by rewrite chatHistoryArray_saveCurrentChat.
Qed.

Lemma committed_state_activeChatId m stop s :
  activeChatId (committed_state m stop s) = activeChatId s.
Proof.
  unfold committed_state, send_finally, setFormState. simpl.
  by rewrite activeChatId_saveCurrentChat.
Qed.

Lemma committed_state_currentSettings m stop s :
  currentSettings (committed_state m stop s) = currentSettings s.
Proof.
  unfold committed_state, send_finally, setFormState. simpl.
  by rewrite currentSettings_saveCurrentChat.
Qed.

(** The commit saves the conversation, with the new turn, under the active
    id. *)
Lemma committed_state_storedChats m stop s aid :
  activeChatId s = Some aid → JS.truthy_string aid = true →
  storedChats (committed_state m stop s)
  = <[aid := {| settings := currentSettings s;
                messages := chatHistoryArray s ++ [m] |}]> (storedChats s).
Proof.
  intros Hact Htruthy. unfold committed_state, send_finally, setFormState. simpl.
  unfold saveCurrentChat. simpl. by rewrite Hact, Htruthy.
Qed.

Lemma sendMessageWithGemini_outcome userMessage f run s :
  sendMessageWithGemini userMessage f run s
  = match gemini_outcome run s with
    | Some (stop, l) => committed_state (gemini_message run l) stop s
    | None => failed_state s
    end.
Proof.
  unfold sendMessageWithGemini, gemini_outcome.
  destruct (result run) as [steps|]; simpl; [|done].
  destruct (gemini_loop _ _ _) as [[stop l]|]; done.
Qed.

(** ** The [for await] loop when the stop button is left alone *)

Lemma gemini_loop_unpressed chunks : ∀ l,
  gemini_loop false (unpressed chunks) l = Some (false, feed chunks l).
Proof. induction chunks as [|c chunks IH]; intros l; simpl; [done|]. apply IH. Qed.

(** ... and when it is pressed while a later chunk is awaited: the chunks
    before that one are taken, that one and the rest are not. *)
Lemma gemini_loop_pressed chunks c rest : ∀ l,
  gemini_loop false (unpressed chunks ++ (true, Yield c) :: rest) l
  = Some (true, feed chunks l).
Proof. induction chunks as [|c' chunks IH]; intros l; simpl; [done|]. apply IH. Qed.

Lemma feed_groundingSources chunks : ∀ l,
  g_groundingSources (feed chunks l)
  = g_groundingSources l ++ concat (map citations_of chunks).
Proof.
  induction chunks as [|c chunks IH]; intros l; simpl.
  - by rewrite app_nil_r.
  - unfold feed in *. rewrite IH. simpl. unfold citations_of.
    destruct (chunk_groundingChunks c); simpl; by rewrite <- ?app_assoc.
Qed.

Lemma feed_fullResponse chunks : ∀ l,
  g_fullResponse (feed chunks l)
  = g_fullResponse l +:+ concat_strings (map text_of chunks).
Proof.
  induction chunks as [|c chunks IH]; intros l; simpl.
  - by rewrite string_app_nil_r.
  - unfold feed in *. rewrite IH. cbn [gemini_body g_fullResponse].
    by rewrite string_app_assoc.
Qed.

(** C7.  When a stream of chunks is taken to its end, the model turn that is
    committed carries the citations of all chunks, in one sequence,
    deduplicated by uri: no uri occurs twice, the uris stand in the order in
    which each was first seen, and each citation kept is the last one that
    was streamed for its uri.  Citations [a/X], [a/Y], [b/Z] come out as
    [a/Y], [b/Z]. *)
Theorem C7_citations_deduplicated userMessage f run s chunks :
  stopGeneration s = false →
  result run = Some (unpressed chunks) →
  let streamed := concat (map citations_of chunks) in
  (∃ m us,
      chatHistoryArray (sendMessageWithGemini userMessage f run s)
      = chatHistoryArray s ++ [m]
      ∧ groundingSources m = Some us
      ∧ us = uniqueSources streamed
      ∧ List.NoDup (map uri us)
      ∧ map uri us = first_seen (map uri streamed)
      ∧ (∀ x, In x us → last_with_uri (uri x) streamed = Some x))
  ∧ uniqueSources [cite "a" "X"; cite "a" "Y"; cite "b" "Z"]
    = [cite "a" "Y"; cite "b" "Z"].
Proof.
  intros Hstop Hrun streamed. split; [|reflexivity].
  rewrite sendMessageWithGemini_outcome. unfold gemini_outcome.
  rewrite Hrun, Hstop. simpl. rewrite gemini_loop_unpressed.
  eexists _, _. split; [apply committed_state_history|].
  split; [reflexivity|].
  rewrite feed_groundingSources. simpl. fold streamed.
  split; [done|]. split; [|split].
  - rewrite uniqueSources_keys. apply first_seen_NoDup.
  - apply uniqueSources_keys.
  - apply uniqueSources_last.
Qed.

Lemma C7_citations_deduplicated_witness :
  let chunks := [chunk_with "Par" [cite "a" "X"];
                 chunk_with "is" [cite "a" "Y"; cite "b" "Z"]] in
  let s := state_of [plain_entry "chat_1"] (Some "chat_1") [user_turn "capital?"] ∅ in
  ∃ m, chatHistoryArray (sendMessageWithGemini "capital?" None (run_of (unpressed chunks)) s)
       = chatHistoryArray s ++ [m]
       ∧ groundingSources m = Some [cite "a" "Y"; cite "b" "Z"].
Proof.
  intros chunks s.
  destruct (C7_citations_deduplicated "capital?" None (run_of (unpressed chunks)) s chunks
              eq_refl eq_refl) as [(m & us & Hm & Hus & -> & _) _].
  exists m. split; [exact Hm | exact Hus].
Defined.

(** ** Statistics of the committed turn *)




(** ** Lines of a text *)

Lemma split_not_nil sep s : JS.split sep s ≠ [].
Proof.
  destruct s as [|c s]; simpl; [done|].
  destruct (Ascii.eqb c sep); [done|]. by destruct (JS.split sep s).
Qed.

(** A text is its finished lines followed by its unfinished line. *)
Lemma split_lines s : JS.split newline s = complete_lines s ++ [pending s].
Proof.
  unfold complete_lines, pending.
  pose proof (split_not_nil newline s) as Hne.
  destruct (exists_last Hne) as (ls & p & ->).
  by rewrite List.removelast_last, last_snoc.
Qed.

Lemma split_newline_cons s :
  JS.split newline (String newline s) = "" :: JS.split newline s.
Proof. reflexivity. Qed.

Lemma split_other_cons c s :
  Ascii.eqb c newline = false →
  JS.split newline (String c s)
  = match JS.split newline s with
    | [] => [String c ""]
    | l :: ls => String c l :: ls
    end.
Proof. intros Hc. simpl. by rewrite Hc. Qed.

Lemma complete_lines_cons_newline s :
  complete_lines (String newline s) = "" :: complete_lines s.
Proof.
  unfold complete_lines. rewrite split_newline_cons.
  pose proof (split_not_nil newline s). simpl. by destruct (JS.split newline s).
Qed.

Lemma pending_cons_newline s : pending (String newline s) = pending s.
Proof.
  unfold pending. rewrite split_newline_cons.
  pose proof (split_not_nil newline s). by destruct (JS.split newline s).
Qed.

(** Appending to a text finishes lines of its unfinished line only. *)
Lemma split_app a b :
  JS.split newline (a +:+ b) = complete_lines a ++ JS.split newline (pending a +:+ b).
Proof.
  induction a as [|c a IH].
  - done.
  - rewrite string_app_cons. destruct (Ascii.eqb c newline) eqn:Hc.
    + apply Ascii.eqb_eq in Hc as ->.
      rewrite split_newline_cons, complete_lines_cons_newline, pending_cons_newline.
      by rewrite IH.
    + rewrite (split_other_cons _ _ Hc), IH.
      unfold complete_lines, pending. rewrite (split_other_cons c a Hc).
      pose proof (split_not_nil newline a) as Hne.
      destruct (JS.split newline a) as [|l [|l' ls]]; [done| |].
      * simpl. by rewrite Hc.
      * rewrite !last_cons_cons. simpl. done.
Qed.

Lemma complete_lines_app a b :
  complete_lines (a +:+ b) = complete_lines a ++ complete_lines (pending a +:+ b).
Proof.
  unfold complete_lines at 1. rewrite split_app.
  rewrite List.removelast_app by apply split_not_nil. done.
Qed.

Lemma pending_app a b : pending (a +:+ b) = pending (pending a +:+ b).
Proof.
  unfold pending at 1. rewrite split_app, (split_lines (pending a +:+ b)).
  by rewrite app_assoc, last_snoc.
Qed.

(** The unfinished line has no finished line in it. *)
Lemma complete_lines_pending a : complete_lines (pending a) = [].
Proof.
  pose proof (complete_lines_app a "") as H. rewrite !string_app_nil_r in H.
  apply (f_equal length) in H. rewrite length_app in H.
  destruct (complete_lines (pending a)); [done|]. simpl in H. lia.
Qed.

Lemma split_no_newline s : no_newline s = true → JS.split newline s = [s].
Proof.
  induction s as [|c s IH]; simpl; [done|].
  intros [Hc Hs]%andb_true_iff. apply negb_true_iff in Hc.
  by rewrite Hc, IH.
Qed.

(** A line feed after a record finishes it. *)
Lemma split_record r rest :
  no_newline r = true →
  JS.split newline ((r +:+ String newline "") +:+ rest) = r :: JS.split newline rest.
Proof.
  rewrite string_app_assoc, string_app_cons. change ("" +:+ rest) with rest.
  induction r as [|c r IH]; [done|]. simpl no_newline.
  intros [Hc Hr]%andb_true_iff. apply negb_true_iff in Hc.
  rewrite string_app_cons, (split_other_cons _ _ Hc). by rewrite IH.
Qed.

Lemma complete_lines_record r rest :
  no_newline r = true →
  complete_lines ((r +:+ String newline "") +:+ rest) = r :: complete_lines rest.
Proof.
  intros Hr. unfold complete_lines. rewrite (split_record _ _ Hr).
  pose proof (split_not_nil newline rest). simpl.
  by destruct (JS.split newline rest).
Qed.

Lemma complete_lines_unlines records rest :
  Forall (λ r, no_newline r = true) records →
  complete_lines (unlines records +:+ rest) = records ++ complete_lines rest.
Proof.
  induction 1 as [|r records Hr _ IH]; [done|].
  unfold unlines in *. simpl. rewrite string_app_assoc.
  rewrite (complete_lines_record _ _ Hr). by rewrite IH.
Qed.

(** ** The text-delta reader *)

Section DeepSeekFacts.
Variable JSON_parse : string -> option JSON.
Variable Number_toString : JS.number -> string.

#[local] Abbreviation deepseek_lines := (deepseek_lines JSON_parse Number_toString).
#[local] Abbreviation deepseek_body := (deepseek_body JSON_parse Number_toString).
#[local] Abbreviation deepseek_loop := (deepseek_loop JSON_parse Number_toString).
#[local] Abbreviation decoded := (decoded JSON_parse Number_toString).
#[local] Abbreviation delta := (delta JSON_parse Number_toString).
#[local] Abbreviation malformed := (malformed JSON_parse Number_toString).
#[local] Abbreviation lines_text := (lines_text JSON_parse Number_toString).
#[local] Abbreviation deepseek_outcome := (deepseek_outcome JSON_parse Number_toString).
#[local] Abbreviation sendMessageWithDeepSeek := (sendMessageWithDeepSeek JSON_parse Number_toString).
#[local] Abbreviation sendMessage := (sendMessage JSON_parse Number_toString).

Lemma deepseek_lines_app l1 l2 full :
  deepseek_lines (l1 ++ l2) full
  = if snd (deepseek_lines l1 full) then (fst (deepseek_lines l1 full), true)
    else deepseek_lines l2 (fst (deepseek_lines l1 full)).
Proof.
  revert full. induction l1 as [|line l1 IH]; intros full; simpl; [done|].
  destruct (JS.startsWith "data: " line); [|apply IH].
  destruct (String.eqb _ "[DONE]"); [done|].
  destruct (textChunk _ _ _); apply IH.
Qed.

Lemma deepseek_body_lines value l :
  deepseek_body value l
  = (snd (deepseek_lines (complete_lines (d_buffer l +:+ value)) (d_fullResponse l)),
     {| d_buffer := pending (d_buffer l +:+ value);
        d_fullResponse :=
          fst (deepseek_lines (complete_lines (d_buffer l +:+ value)) (d_fullResponse l)) |}).
Proof.
  unfold deepseek_body, JS.pop. rewrite or_string_empty.
  fold (complete_lines (d_buffer l +:+ value)).
  unfold pending, JS.nullish, default.
  destruct (deepseek_lines _ _) as [full done].
  by destruct (last _).
Qed.

Lemma deepseek_loop_stopped reads l :
  deepseek_loop true reads l = Some (true, l).
Proof. by destruct reads as [|[pressed next] reads]. Qed.

(** The text of an input in two parts: the lines that the first part
    finishes, then, unless [[DONE]] was among them, the rest. *)
Lemma lines_text_app buf v rest full :
  lines_text (buf +:+ (v +:+ rest)) full
  = if snd (deepseek_lines (complete_lines (buf +:+ v)) full)
    then fst (deepseek_lines (complete_lines (buf +:+ v)) full)
    else lines_text (pending (buf +:+ v) +:+ rest)
                    (fst (deepseek_lines (complete_lines (buf +:+ v)) full)).
Proof.
  unfold lines_text. rewrite <- string_app_assoc.
  rewrite (complete_lines_app (buf +:+ v) rest), deepseek_lines_app.
  by destruct (snd _).
Qed.

Lemma concat_strings_cons v values :
  concat_strings (v :: values) = v +:+ concat_strings values.
Proof. reflexivity. Qed.

(** With the stop button left alone the reader never fails, and the text it
    has at the end is the text of the finished lines of everything read. *)
Lemma deepseek_loop_unpressed values : ∀ l,
  complete_lines (d_buffer l) = [] →
  ∃ stop l',
    deepseek_loop false (unpressed values) l = Some (stop, l')
    ∧ d_fullResponse l'
      = lines_text (d_buffer l +:+ concat_strings values) (d_fullResponse l).
Proof.
  induction values as [|v values IH]; intros l Hbuf.
  - exists false, l. split; [done|]. unfold lines_text. simpl.
    by rewrite string_app_nil_r, Hbuf.
  - rewrite concat_strings_cons, lines_text_app.
    cbn [unpressed map app deepseek_loop orb]. rewrite deepseek_body_lines.
    destruct (snd (deepseek_lines (complete_lines (d_buffer l +:+ v)) (d_fullResponse l))).
    + rewrite deepseek_loop_stopped. by eexists _, _.
    + edestruct IH as (stop & l' & Hloop & Htext); [|fold (unpressed values); rewrite Hloop].
      { apply complete_lines_pending. }
      exists stop, l'. split; [done|]. by rewrite Htext.
Qed.

Lemma decoded_lines values :
  decoded values = Some (lines_text (concat_strings values) "").
Proof.
  unfold decoded.
  destruct (deepseek_loop_unpressed values deepseek_init eq_refl)
    as (stop & l' & -> & Htext).
  simpl. by rewrite Htext.
Qed.

(** The text of a sequence of lines is the concatenation of the deltas of
    the well-formed records before the first [[DONE]]. *)
Lemma deepseek_lines_deltas records : ∀ full,
  fst (deepseek_lines records full)
  = full +:+ concat_strings (omap delta (before_done records)).
Proof.
  induction records as [|r records IH]; intros full.
  - simpl. by rewrite string_app_nil_r.
  - cbn [deepseek_lines before_done]. unfold is_done. fold (payload r).
    destruct (JS.startsWith "data: " r) eqn:Hstart; cbn [andb].
    + destruct (String.eqb (payload r) "[DONE]").
      * simpl. by rewrite string_app_nil_r.
      * assert (omap delta (r :: before_done records)
                = match textChunk JSON_parse Number_toString (payload r) with
                  | Some y => y :: omap delta (before_done records)
                  | None => omap delta (before_done records)
                  end) as ->.
        { cbn [omap list_omap]. unfold delta at 1. by rewrite Hstart. }
        destruct (textChunk _ _ _); rewrite IH; [|done].
        by rewrite concat_strings_cons, string_app_assoc.
    + assert (omap delta (r :: before_done records) = omap delta (before_done records))
        as ->.
      { cbn [omap list_omap]. unfold delta at 1. by rewrite Hstart. }
      apply IH.
Qed.

Lemma sendMessageWithDeepSeek_outcome userMessage run s :
  sendMessageWithDeepSeek userMessage None run s
  = match deepseek_outcome run s with
    | Some (stop, l) => committed_state (deepseek_message run l) stop s
    | None => failed_state s
    end.
Proof.
  unfold sendMessageWithDeepSeek, deepseek_outcome.
  destruct (response run) as [| |reads]; [done|done|]. simpl.
  by destruct (deepseek_loop _ _ _) as [[stop l]|].
Qed.

(** The stop button pressed while a later read is awaited: what was read
    before is what the reader has. *)
Lemma deepseek_loop_pressed values next rest : ∀ l,
  complete_lines (d_buffer l) = [] →
  ∃ l', deepseek_loop false (unpressed values ++ (true, next) :: rest) l = Some (true, l')
        ∧ d_fullResponse l'
          = lines_text (d_buffer l +:+ concat_strings values) (d_fullResponse l).
Proof.
  induction values as [|v values IH]; intros l Hbuf.
  - exists l. split; [done|]. unfold lines_text. simpl.
    by rewrite string_app_nil_r, Hbuf.
  - rewrite concat_strings_cons, lines_text_app.
    cbn [unpressed map app deepseek_loop orb]. rewrite deepseek_body_lines.
    destruct (snd (deepseek_lines (complete_lines (d_buffer l +:+ v)) (d_fullResponse l))).
    + rewrite deepseek_loop_stopped. by eexists.
    + edestruct IH as (l' & Hloop & Htext); [|fold (unpressed values); rewrite Hloop].
      { apply complete_lines_pending. }
      exists l'. split; [done|]. by rewrite Htext.
Qed.

Lemma no_newline_app a b : no_newline (a +:+ b) = no_newline a && no_newline b.
Proof.
  induction a as [|c a IH]; [done|]. rewrite string_app_cons. simpl.
  by rewrite IH, andb_assoc.
Qed.

Lemma split_all_no_newline s : Forall (λ l, no_newline l = true) (JS.split newline s).
Proof.
  induction s as [|c s IH]; [by repeat constructor|].
  destruct (Ascii.eqb c newline) eqn:Hc.
  - apply Ascii.eqb_eq in Hc as ->. rewrite split_newline_cons. by constructor.
  - rewrite (split_other_cons _ _ Hc).
    destruct (JS.split newline s) as [|l ls]; [repeat constructor; simpl; by rewrite Hc|].
    apply Forall_cons in IH as [Hl Hls]. constructor; [|done].
    simpl. by rewrite Hc, Hl.
Qed.

Lemma pending_no_newline s : no_newline (pending s) = true.
Proof.
  pose proof (split_all_no_newline s) as H. rewrite split_lines in H.
  apply Forall_app in H as [_ H]. by apply Forall_cons in H as [H _].
Qed.

Lemma complete_lines_no_newline s : no_newline s = true → complete_lines s = [].
Proof. intros H. unfold complete_lines. by rewrite (split_no_newline _ H). Qed.

Lemma concat_strings_app xs ys :
  concat_strings (xs ++ ys) = concat_strings xs +:+ concat_strings ys.
Proof.
  induction xs as [|x xs IH]; [done|]. simpl app.
  by rewrite !concat_strings_cons, IH, string_app_assoc.
Qed.

Lemma concat_strings_singleton x : concat_strings [x] = x.
Proof. apply string_app_nil_r. Qed.

Lemma omap_delta_malformed bad rest :
  Forall (λ r, malformed r = true) bad →
  omap delta (before_done (bad ++ rest)) = omap delta (before_done rest).
Proof.
  induction 1 as [|r bad Hr _ IH]; [done|].
  unfold malformed in Hr. apply andb_true_iff in Hr as [Hr Hchunk].
  apply andb_true_iff in Hr as [Hstart Hdone]. apply negb_true_iff in Hdone.
  simpl app. cbn [before_done]. rewrite Hdone.
  cbn [omap list_omap]. unfold delta at 1. rewrite Hstart.
  destruct (textChunk _ _ _); [done|]. apply IH.
Qed.

Lemma omap_delta_interleaved before bad after :
  Forall (λ r, malformed r = true) bad →
  omap delta (before_done (before ++ bad ++ after))
  = omap delta (before_done (before ++ after)).
Proof.
  intros Hbad. induction before as [|r before IH]; simpl app.
  - by apply omap_delta_malformed.
  - cbn [before_done]. destruct (is_done r); [done|].
    cbn [omap list_omap]. by rewrite IH.
Qed.

(** C4.  The text that the text-delta reader accumulates depends on the
    input only, not on how it is cut into reads: reading the pieces gives
    what reading the whole in one piece gives.  A piece without a line feed
    at the end of the input stays in the buffer and adds nothing.  After a
    line [data: [DONE]] nothing is added: the text is that of the input
    before that line, whatever follows it. *)
Theorem C4_reads_decode_as_whole :
  (∀ values, decoded values = decoded [concat_strings values])
  ∧ (∀ values tail, no_newline tail = true →
       decoded (values ++ [tail]) = decoded values)
  ∧ (∀ values head post,
       pending head = "" →
       concat_strings values = head +:+ (data_line "[DONE]" +:+ LF) +:+ post →
       decoded values = decoded [head]).
Proof.
  split; [|split].
  - intros values. by rewrite !decoded_lines, concat_strings_singleton.
  - intros values tail Htail. rewrite !decoded_lines. f_equal.
    rewrite concat_strings_app, concat_strings_singleton.
    unfold lines_text. rewrite complete_lines_app.
    rewrite (complete_lines_no_newline (_ +:+ tail)), app_nil_r; [done|].
    by rewrite no_newline_app, pending_no_newline.
  - intros values head post Hhead Hinput.
    rewrite !decoded_lines, Hinput, concat_strings_singleton. f_equal.
    unfold lines_text. rewrite complete_lines_app, Hhead.
    change ("" +:+ ?x) with x.
    rewrite complete_lines_record by reflexivity.
    rewrite deepseek_lines_app. by destruct (snd _).
Qed.

(** C9.  For records written one per line, the text that the reader
    accumulates is the concatenation of the content deltas of the well-formed
    records that come before the first [[DONE]] record: a record whose
    payload fails in the [try] block adds nothing and stops nothing, and
    putting any number of such records anywhere in the stream leaves the
    text as it is. *)
Theorem C9_malformed_records_skipped :
  (∀ records values,
     Forall (λ r, no_newline r = true) records →
     concat_strings values = unlines records →
     decoded values = Some (concat_strings (omap delta (before_done records))))
  ∧ (∀ before bad after values values',
       Forall (λ r, no_newline r = true) (before ++ bad ++ after) →
       Forall (λ r, malformed r = true) bad →
       concat_strings values = unlines (before ++ bad ++ after) →
       concat_strings values' = unlines (before ++ after) →
       decoded values = decoded values').
Proof.
  assert (∀ records values,
     Forall (λ r, no_newline r = true) records →
     concat_strings values = unlines records →
     decoded values = Some (concat_strings (omap delta (before_done records)))) as Hmain.
  { intros records values Hrec Hinput. rewrite decoded_lines, Hinput. f_equal.
    unfold lines_text. rewrite <- (string_app_nil_r (unlines records)).
    rewrite (complete_lines_unlines _ _ Hrec). change (complete_lines "") with (@nil string).
    by rewrite app_nil_r, deepseek_lines_deltas. }
  split; [exact Hmain|].
  intros before bad after values values' Hnl Hbad Hin Hin'.
  rewrite (Hmain _ _ Hnl Hin).
  rewrite (Hmain (before ++ after) values'); [by rewrite omap_delta_interleaved| |done].
  apply Forall_app in Hnl as [Hb Hnl]. apply Forall_app in Hnl as [_ Ha].
  by apply Forall_app.
Qed.

(** ** Cancellation *)

(** C1 (as amended).  Neither sender tests the accumulated text before it
    commits.  When the stop button is found pressed, a model turn holding
    exactly the text accumulated from what was taken before is committed,
    and the turn sequence grows by that one turn, also when nothing was
    taken and the text is empty. *)
Theorem C1_cancellation_commits_accumulated_text :
  (∀ userMessage f run s chunks c rest,
     stopGeneration s = false →
     result run = Some (unpressed chunks ++ (true, Yield c) :: rest) →
     ∃ m, chatHistoryArray (sendMessageWithGemini userMessage f run s)
          = chatHistoryArray s ++ [m]
          ∧ sender m = sender_model
          ∧ content m = concat_strings (map text_of chunks))
  ∧ (∀ userMessage run s values next rest,
       stopGeneration s = false →
       response run = FetchOk (unpressed values ++ (true, next) :: rest) →
       ∃ m, chatHistoryArray (sendMessageWithDeepSeek userMessage None run s)
            = chatHistoryArray s ++ [m]
            ∧ sender m = sender_model
            ∧ Some (content m) = decoded values).
Proof.
  split.
  - intros userMessage f run s chunks c rest Hstop Hrun.
    rewrite sendMessageWithGemini_outcome. unfold gemini_outcome.
    rewrite Hrun, Hstop. simpl. rewrite gemini_loop_pressed.
    eexists. split; [apply committed_state_history|]. split; [done|].
    simpl. by rewrite feed_fullResponse.
  - intros userMessage run s values next rest Hstop Hrun.
    rewrite sendMessageWithDeepSeek_outcome. unfold deepseek_outcome.
    rewrite Hrun, Hstop.
    destruct (deepseek_loop_pressed values next rest deepseek_init eq_refl)
      as (l' & -> & Htext).
    eexists. split; [apply committed_state_history|]. split; [done|].
    simpl. by rewrite decoded_lines, Htext.
Qed.

(** ** Submitting a message *)

Lemma sendMessage_outcome userMessage f run s :
  sendMessage userMessage f run s
  = match JS.nullish (model (currentSettings s)) gemini with
    | gemini =>
        match gemini_outcome (gemini_run run) s with
        | Some (stop, l) => committed_state (gemini_message (gemini_run run) l) stop s
        | None => failed_state s
        end
    | deepseek =>
        match f with
        | Some _ => clearAttachedFile s
        | None =>
            match deepseek_outcome (deepseek_run run) s with
            | Some (stop, l) =>
                committed_state (deepseek_message (deepseek_run run) l) stop s
            | None => failed_state s
            end
        end
    end.
Proof.
  unfold sendMessage. destruct (JS.nullish _ _).
  - apply sendMessageWithGemini_outcome.
  - destruct f; [done|]. apply sendMessageWithDeepSeek_outcome.
Qed.

(** A send either commits one model turn and saves the conversation with
    it, or leaves the turns and the storage alone. *)
Lemma sendMessage_cases userMessage f run s :
  (session_fails JSON_parse Number_toString f run s
   ∧ chatHistoryArray (sendMessage userMessage f run s) = chatHistoryArray s
   ∧ storedChats (sendMessage userMessage f run s) = storedChats s)
  ∨ (¬ session_fails JSON_parse Number_toString f run s
     ∧ ∃ m stop, sender m = sender_model
                 ∧ sendMessage userMessage f run s = committed_state m stop s).
Proof.
  rewrite sendMessage_outcome. unfold session_fails.
  destruct (JS.nullish _ _).
  - destruct (gemini_outcome _ _) as [[stop l]|].
    + right. split; [done|]. by exists (gemini_message (gemini_run run) l), stop.
    + by left.
  - destruct f as [f|].
    + left. split; [by left|done].
    + destruct (deepseek_outcome _ _) as [[stop l]|].
      * right. split; [by intros [?|?]|].
        by exists (deepseek_message (deepseek_run run) l), stop.
      * left. split; [by right|done].
Qed.

Lemma submit_prepare_inr chatInput now userTimestamp s s1 userMessage :
  submit_prepare chatInput now userTimestamp s = inr (s1, userMessage) →
  userMessage = JS.trim chatInput
  ∧ chatHistoryArray s1
    = chatHistoryArray s
      ++ [{| sender := sender_user; content := userMessage; timestamp := userTimestamp;
             stats := None; file := attachedFile s; groundingSources := None |}]
  ∧ storedChats s1 = storedChats s
  ∧ attachedFile s1 = attachedFile s
  ∧ currentSettings s1 = currentSettings s
  ∧ ∃ aid, activeChatId s1 = Some aid ∧ JS.truthy_string aid = true.
Proof.
  unfold submit_prepare.
  destruct (isGenerating s); [done|]. destruct (isRecording s); [done|].
  destruct (_ && _); [done|].
  destruct (JS.truthy_ostring (activeChatId s)) eqn:Hactive.
  - intros [= <- <-]. repeat split. simpl.
    revert Hactive. destruct (activeChatId s) as [aid|]; [|done].
    intros Hactive. by exists aid.
  - intros [= <- <-]. repeat split. by eexists.
Qed.

(** C10.  When [handleFormSubmit] gets as far as sending, the user turn is
    in the turn sequence before the sender is called and the storage is
    still as it was.  If the send fails, the turn sequence keeps the user
    turn and the stored conversations are those from before the submit; if
    it does not, the conversation is saved, once, under the active id, with
    the user turn and the model turn together. *)
Theorem C10_user_turn_saved_with_model_turn chatInput now userTimestamp run s s1 userMessage :
  submit_prepare chatInput now userTimestamp s = inr (s1, userMessage) →
  let s' := handleFormSubmit JSON_parse Number_toString chatInput now userTimestamp run s in
  let userTurn := {| sender := sender_user; content := JS.trim chatInput;
                     timestamp := userTimestamp; stats := None;
                     file := attachedFile s; groundingSources := None |} in
  chatHistoryArray s1 = chatHistoryArray s ++ [userTurn]
  ∧ storedChats s1 = storedChats s
  ∧ (session_fails JSON_parse Number_toString (attachedFile s) run s1 →
       chatHistoryArray s' = chatHistoryArray s ++ [userTurn]
       ∧ storedChats s' = storedChats s)
  ∧ (¬ session_fails JSON_parse Number_toString (attachedFile s) run s1 →
       ∃ m aid, sender m = sender_model
                ∧ activeChatId s' = Some aid
                ∧ chatHistoryArray s' = chatHistoryArray s ++ [userTurn; m]
                ∧ storedChats s'
                  = <[aid := {| settings := currentSettings s';
                                messages := chatHistoryArray s' |}]> (storedChats s)).
Proof.
  intros Hprep s' userTurn.
  destruct (submit_prepare_inr _ _ _ _ _ _ Hprep)
    as (-> & Hhist & Hstored & Hfile & Hsettings & aid & Haid & Htruthy).
  subst s'. unfold handleFormSubmit. rewrite Hprep, Hfile.
  split; [done|]. split; [done|].
  destruct (sendMessage_cases (JS.trim chatInput) (attachedFile s) run s1)
    as [(Hfails & Hh & Hs) | (Hok & m & stop & Hm & Hsend)].
  - split; [|done]. intros _. simpl. by rewrite Hh, Hs, Hhist, Hstored.
  - split; [done|]. intros _. exists m, aid. split; [done|].
    rewrite Hsend. cbn [clearAttachedFile activeChatId chatHistoryArray storedChats
                        currentSettings set_attachedFile].
    rewrite committed_state_activeChatId, committed_state_history,
      committed_state_currentSettings,
      (committed_state_storedChats _ _ _ _ Haid Htruthy).
    rewrite Hhist, Hstored, <- app_assoc. done.
Qed.

End DeepSeekFacts.

(** ** The theorems of the two senders on concrete streams *)

Lemma C4_reads_decode_as_whole_witness :
  decoded toy_parse toy_number hello_pieces = decoded toy_parse toy_number [hello_stream]
  ∧ decoded toy_parse toy_number (hello_pieces ++ ["data: {"])
    = decoded toy_parse toy_number hello_pieces
  ∧ decoded toy_parse toy_number
      ["da"; "ta: " +:+ delta_payload "Hel" +:+ LF +:+ "data: [DO";
       "NE]" +:+ LF +:+ data_line (delta_payload "lo") +:+ LF]
    = decoded toy_parse toy_number [data_line (delta_payload "Hel") +:+ LF].
Proof.
  destruct (C4_reads_decode_as_whole toy_parse toy_number) as (Hwhole & Htail & Hdone).
  split; [exact (Hwhole hello_pieces)|]. split.
  - apply Htail. reflexivity.
  - apply (Hdone _ _ (data_line (delta_payload "lo") +:+ LF)); reflexivity.
Defined.

Lemma C9_malformed_records_skipped_witness :
  decoded toy_parse toy_number
    [unlines [data_line (delta_payload "Hel"); ": keep-alive"; data_line "{oops";
              data_line "{}"; data_line (delta_payload "lo")]]
  = Some "Hello"
  ∧ decoded toy_parse toy_number
      [unlines [data_line (delta_payload "Hel"); data_line "{oops"; data_line "{}";
                data_line (delta_payload "lo")]]
    = decoded toy_parse toy_number hello_pieces.
Proof.
  destruct (C9_malformed_records_skipped toy_parse toy_number) as [Htext Hskip].
  split.
  - apply (Htext [data_line (delta_payload "Hel"); ": keep-alive"; data_line "{oops";
                  data_line "{}"; data_line (delta_payload "lo")]);
      [by repeat constructor | reflexivity].
  - apply (Hskip [data_line (delta_payload "Hel")]
                 [data_line "{oops"; data_line "{}"]
                 [data_line (delta_payload "lo")]);
      [by repeat constructor | by repeat constructor | reflexivity | reflexivity].
Defined.

(** Stop pressed after [Hel] and [lo] were taken: [Hello] is committed, by
    either sender. *)
Lemma C1_cancellation_commits_accumulated_text_witness :
  let s := chat_state [user_turn "hi"] in
  let rest := Yield (chunk_with "!" []) in
  (∃ m, chatHistoryArray
          (sendMessageWithGemini "hi" None
             (run_of (unpressed [chunk_with "Hel" []; chunk_with "lo" []] ++ [(true, rest)])) s)
        = [user_turn "hi"; m]
        ∧ sender m = sender_model ∧ content m = "Hello")
  ∧ (∃ m, chatHistoryArray
            (sendMessageWithDeepSeek toy_parse toy_number "hi" None
               (reads_run (unpressed hello_pieces ++ [(true, Yield "data: ")])) s)
          = [user_turn "hi"; m]
          ∧ sender m = sender_model ∧ Some (content m) = Some "Hello").
Proof.
  intros s rest.
  destruct (C1_cancellation_commits_accumulated_text toy_parse toy_number)
    as [Hgemini Hdeepseek].
  split.
  - apply (Hgemini "hi" None _ s [chunk_with "Hel" []; chunk_with "lo" []]
                   (chunk_with "!" []) []); reflexivity.
  - apply (Hdeepseek "hi" _ s hello_pieces (Yield "data: ") []); reflexivity.
Defined.

(** C1 (as stated) fails: with the stop button pressed before the first
    chunk, or before the first read, a model turn is committed all the same,
    its content is empty, and the turn sequence is one longer than before
    the send. *)
Lemma C1_cancel_before_text_counterexample :
  let s := chat_state [user_turn "hi"] in
  let g := sendMessageWithGemini "hi" None
             (run_of [(true, Yield (chunk_with "Hello" []))]) s in
  let d := sendMessageWithDeepSeek toy_parse toy_number "hi" None
             (reads_run [(true, Yield hello_stream)]) s in
  length (chatHistoryArray g) ≠ length (chatHistoryArray s)
  ∧ (∃ m, last (chatHistoryArray g) = Some m ∧ sender m = sender_model ∧ content m = "")
  ∧ length (chatHistoryArray d) ≠ length (chatHistoryArray s)
  ∧ (∃ m, last (chatHistoryArray d) = Some m ∧ sender m = sender_model ∧ content m = "").
Proof.
  intros s g d. split; [vm_compute; discriminate|]. split.
  - eexists. split; [reflexivity|]. by split.
  - split; [vm_compute; discriminate|].
    eexists. split; [reflexivity|]. by split.
Qed.

(** A submit whose request fails and one that is answered. *)
Lemma C10_user_turn_saved_with_model_turn_witness :
  let s := chat_state [] in
  let failed := handleFormSubmit toy_parse toy_number " hello " 1735725600000
                  "2025-01-01T10:00:00.000Z" failing_run s in
  let answered := handleFormSubmit toy_parse toy_number " hello " 1735725600000
                    "2025-01-01T10:00:00.000Z" answering_run s in
  (chatHistoryArray failed = [user_turn "hello"] ∧ storedChats failed = ∅)
  ∧ ∃ m, sender m = sender_model
         ∧ chatHistoryArray answered = [user_turn "hello"; m]
         ∧ storedChats answered
           = {[ "chat_1" := {| settings := empty_settings;
                               messages := [user_turn "hello"; m] |} ]}.
Proof.
  intros s failed answered.
  pose proof (C10_user_turn_saved_with_model_turn toy_parse toy_number
                " hello " 1735725600000 "2025-01-01T10:00:00.000Z") as H.
  destruct (H failing_run s _ _ eq_refl) as (_ & _ & Hfail & _).
  destruct (H answering_run s _ _ eq_refl) as (_ & _ & _ & Hanswer).
  split.
  - apply Hfail. reflexivity.
  - destruct Hanswer as (m & aid & Hm & Haid & Hhist & Hstored); [discriminate|].
    exists m. split; [exact Hm|]. split; [exact Hhist|].
    fold answered in Haid, Hhist, Hstored.
    assert (aid = "chat_1") as -> by (by injection Haid).
    rewrite Hstored, Hhist. reflexivity.
Defined.

(* ===================================================================== *)
(** * Further properties *)
(* ===================================================================== *)

(** ** What each handler leaves of the catalog, the storage and the flags *)

Ltac by_cases := intros; repeat case_match; simpl in *; try done.

Lemma loadChat_frame chatId s :
  chatIndex (loadChat chatId s) = chatIndex s
  ∧ storedIndex (loadChat chatId s) = storedIndex s
  ∧ storedChats (loadChat chatId s) = storedChats s
  ∧ isGenerating (loadChat chatId s) = isGenerating s
  ∧ stopGeneration (loadChat chatId s) = stopGeneration s
  ∧ attachedFile (loadChat chatId s) = attachedFile s.
Proof. unfold loadChat. by_cases. Qed.

Lemma activate_next_frame s :
  chatIndex (activate_next s) = chatIndex s
  ∧ storedIndex (activate_next s) = storedIndex s
  ∧ storedChats (activate_next s) = storedChats s
  ∧ isGenerating (activate_next s) = isGenerating s
  ∧ stopGeneration (activate_next s) = stopGeneration s
  ∧ attachedFile (activate_next s) = attachedFile s.
Proof.
  unfold activate_next. destruct (List.find _ _); [apply loadChat_frame|done].
Qed.

(** The conversation that [activate_next] makes active is in the catalog. *)
Lemma activate_next_active s aid :
  activeChatId (activate_next s) = Some aid → catalogued aid s.
Proof.
  unfold activate_next, catalogued.
  destruct (List.find not_archived (chatIndex s)) as [next|] eqn:Hfind; [|done].
  rewrite activeChatId_loadChat. intros [= <-].
  apply List.find_some in Hfind as [Hin _]. by apply List.in_map.
Qed.

Lemma saveCurrentChat_frame s :
  chatIndex (saveCurrentChat s) = chatIndex s
  ∧ storedIndex (saveCurrentChat s) = storedIndex s
  ∧ isGenerating (saveCurrentChat s) = isGenerating s
  ∧ stopGeneration (saveCurrentChat s) = stopGeneration s
  ∧ attachedFile (saveCurrentChat s) = attachedFile s.
Proof. unfold saveCurrentChat. by_cases. Qed.

(** [saveCurrentChat] writes under the active id, if it writes. *)
Lemma saveCurrentChat_storedChats s :
  storedChats (saveCurrentChat s) = storedChats s
  ∨ ∃ aid, activeChatId s = Some aid
           ∧ JS.truthy_string aid = true
           ∧ storedChats (saveCurrentChat s)
             = <[aid := {| settings := currentSettings s;
                           messages := chatHistoryArray s |}]> (storedChats s).
Proof.
  unfold saveCurrentChat. destruct (activeChatId s) as [aid|]; [|by left].
  destruct (JS.truthy_string aid) eqn:Haid; [|by left]. right. by exists aid.
Qed.

Lemma updateChatMetadata_frame chatId patch s :
  storedChats (updateChatMetadata chatId patch s) = storedChats s
  ∧ activeChatId (updateChatMetadata chatId patch s) = activeChatId s
  ∧ chatHistoryArray (updateChatMetadata chatId patch s) = chatHistoryArray s
  ∧ currentSettings (updateChatMetadata chatId patch s) = currentSettings s
  ∧ isGenerating (updateChatMetadata chatId patch s) = isGenerating s
  ∧ stopGeneration (updateChatMetadata chatId patch s) = stopGeneration s
  ∧ attachedFile (updateChatMetadata chatId patch s) = attachedFile s.
Proof. unfold updateChatMetadata. by_cases. Qed.

(** [updateChatMetadata] saves the catalog whenever it changes it. *)
Lemma updateChatMetadata_catalog chatId patch s :
  match find_by_id chatId (chatIndex s) with
  | Some _ =>
      chatIndex (updateChatMetadata chatId patch s)
      = update_first (has_id chatId) (λ c, Object_assign c patch) (chatIndex s)
      ∧ storedIndex (updateChatMetadata chatId patch s)
        = Some (chatIndex (updateChatMetadata chatId patch s))
  | None => updateChatMetadata chatId patch s = s
  end.
Proof. unfold updateChatMetadata. by destruct (find_by_id _ _). Qed.

Lemma update_first_ids {A} (p : A → bool) (f : A → A) (k : A → string) l :
  (∀ y, k (f y) = k y) → map k (update_first p f l) = map k l.
Proof.
  intros Hk. induction l as [|y l IH]; simpl; [done|].
  destruct (p y); simpl; by rewrite ?Hk, ?IH.
Qed.

Lemma catalog_step_refl s : catalog_step s s.
Proof. by left. Qed.

Lemma catalog_step_trans s1 s2 s3 :
  catalog_step s1 s2 → catalog_step s2 s3 → catalog_step s1 s3.
Proof.
  intros [[H1 H1']|H1] [[H2 H2']|H2]; unfold catalog_step; try by right.
  - left. split; congruence.
  - right. congruence.
Qed.

Lemma catalog_step_saved s s' : catalog_saved s → catalog_step s s' → catalog_saved s'.
Proof.
  unfold catalog_saved, getChatIndex. intros Hs [[H1 H2]|H]; [by rewrite H1, H2|].
  by rewrite H.
Qed.

Lemma togglePin_frame chatId s :
  storedChats (togglePin chatId s) = storedChats s
  ∧ activeChatId (togglePin chatId s) = activeChatId s
  ∧ chatHistoryArray (togglePin chatId s) = chatHistoryArray s
  ∧ currentSettings (togglePin chatId s) = currentSettings s
  ∧ flags_kept s (togglePin chatId s)
  ∧ attachedFile (togglePin chatId s) = attachedFile s.
Proof.
  unfold togglePin, flags_kept. destruct (find_by_id _ _); [|done].
  destruct (updateChatMetadata_frame chatId
              {| p_title := None;
                 p_pinned := Some (Some (negb (JS.truthy_bool (pinned c))));
                 p_archived := None |}
              (set_chatIndex
                 (update_first (has_id chatId)
                    (λ c0, {| id := id c0; title := title c0;
                              pinned := Some (negb (JS.truthy_bool (pinned c)));
                              archived := archived c0 |}) (chatIndex s)) s))
    as (-> & -> & -> & -> & -> & -> & ->). done.
Qed.

Lemma renameChat_frame chatId newTitle s :
  storedChats (renameChat chatId newTitle s) = storedChats s
  ∧ activeChatId (renameChat chatId newTitle s) = activeChatId s
  ∧ chatHistoryArray (renameChat chatId newTitle s) = chatHistoryArray s
  ∧ currentSettings (renameChat chatId newTitle s) = currentSettings s
  ∧ flags_kept s (renameChat chatId newTitle s)
  ∧ attachedFile (renameChat chatId newTitle s) = attachedFile s.
Proof.
  unfold renameChat, flags_kept.
  destruct (updateChatMetadata_frame chatId
              {| p_title := Some newTitle; p_pinned := None; p_archived := None |} s)
    as (-> & -> & -> & -> & -> & -> & ->). done.
Qed.

Lemma togglePin_catalog_step chatId s : catalog_step s (togglePin chatId s).
Proof.
  unfold togglePin. destruct (find_by_id chatId (chatIndex s)) as [item|] eqn:Hfind;
    [|apply catalog_step_refl].
  right. set (s1 := set_chatIndex _ s). set (patch := Build_IndexPatch _ _ _).
  pose proof (updateChatMetadata_catalog chatId patch s1) as H.
  unfold find_by_id in *. subst s1. cbn [chatIndex set_chatIndex] in H.
  erewrite (find_update_first (has_id chatId)) in H; [|done|exact Hfind].
  apply H.
Qed.

Lemma renameChat_catalog_step chatId newTitle s :
  catalog_step s (renameChat chatId newTitle s).
Proof.
  unfold renameChat.
  pose proof (updateChatMetadata_catalog chatId
                {| p_title := Some newTitle; p_pinned := None; p_archived := None |} s) as H.
  destruct (find_by_id _ _); [right; apply H | rewrite H; apply catalog_step_refl].
Qed.

(** The state of [toggleArchive] before the next conversation is
    activated. *)
Lemma toggleArchive_cases chatId s :
  match find_by_id chatId (chatIndex s) with
  | None => toggleArchive chatId s = s
  | Some item =>
      ∃ s2, (toggleArchive chatId s = s2
             ∨ (toggleArchive chatId s = activate_next s2
                ∧ JS.truthy_bool (archived item) = false))
            ∧ chatIndex s2 = update_first (has_id chatId) (archive_entry item) (chatIndex s)
            ∧ storedIndex s2 = Some (chatIndex s2)
            ∧ storedChats s2 = storedChats s
            ∧ activeChatId s2 = activeChatId s
            ∧ chatHistoryArray s2 = chatHistoryArray s
            ∧ currentSettings s2 = currentSettings s
            ∧ flags_kept s s2
            ∧ attachedFile s2 = attachedFile s
  end.
Proof.
  destruct (find_by_id chatId (chatIndex s)) as [item|] eqn:Hfind;
    [|unfold toggleArchive; by rewrite Hfind].
  pose proof (chatIndex_toggleArchive _ _ _ Hfind) as Hidx.
  revert Hidx. unfold toggleArchive. rewrite Hfind. cbv zeta.
  set (s1 := set_chatIndex _ s). set (patch := Build_IndexPatch _ _ _).
  set (s2 := updateChatMetadata chatId patch s1).
  pose proof (updateChatMetadata_catalog chatId patch s1) as Hcat.
  pose proof (updateChatMetadata_frame chatId patch s1) as Hframe.
  fold s2 in Hcat, Hframe.
  unfold find_by_id in *. cbn [chatIndex set_chatIndex] in Hcat. subst s1.
  cbn [chatIndex set_chatIndex] in Hcat.
  erewrite (find_update_first (has_id chatId)) in Hcat; [|done|exact Hfind].
  destruct Hcat as [_ Hsaved].
  destruct Hframe as (Hst & Hact & Hhist & Hset & Hgen & Hstop & Hfile).
  intros Hidx. exists s2.
  assert (chatIndex s2 = update_first (has_id chatId) (archive_entry item) (chatIndex s))
    as Hidx2.
  { destruct (_ && _) in Hidx; [by rewrite chatIndex_activate_next in Hidx | done]. }
  split; [|repeat split; done].
  destruct (JS.truthy_bool (archived item)); simpl; [by left|].
  destruct (is_active chatId s2); [by right | by left].
Qed.

Lemma toggleArchive_frame chatId s :
  storedChats (toggleArchive chatId s) = storedChats s
  ∧ flags_kept s (toggleArchive chatId s)
  ∧ attachedFile (toggleArchive chatId s) = attachedFile s
  ∧ catalog_step s (toggleArchive chatId s)
  ∧ map id (chatIndex (toggleArchive chatId s)) = map id (chatIndex s).
Proof.
  pose proof (toggleArchive_cases chatId s) as H.
  destruct (find_by_id chatId (chatIndex s)) as [item|].
  - destruct H as (s2 & Heq & Hidx & Hsaved & Hst & Hact & Hhist & Hset & [Hg Hp] & Hfile).
    pose proof (activate_next_frame s2) as (Hi & Hsi & Hsc & Hig & Hsg & Haf).
    assert (map id (chatIndex s2) = map id (chatIndex s)) as Hids
      by (rewrite Hidx; by apply update_first_ids).
    unfold flags_kept, catalog_step.
    destruct Heq as [-> | [-> _]].
    + repeat split; auto.
    + rewrite Hi, Hsi, Hsc, Hig, Hsg, Haf. repeat split; auto.
  - rewrite H. unfold flags_kept. repeat split; auto. apply catalog_step_refl.
Qed.

Lemma deleteChat_frame confirmed chatId s :
  flags_kept s (deleteChat confirmed chatId s)
  ∧ attachedFile (deleteChat confirmed chatId s) = attachedFile s
  ∧ catalog_step s (deleteChat confirmed chatId s).
Proof.
  unfold deleteChat, flags_kept. destruct confirmed; [|repeat split; apply catalog_step_refl].
  set (s3 := saveChatIndex _).
  destruct (is_active chatId s3).
  - pose proof (activate_next_frame s3) as (Hi & Hsi & Hsc & Hig & Hsg & Haf).
    rewrite Hig, Hsg, Haf. repeat split. right. by rewrite Hi, Hsi.
  - repeat split. by right.
Qed.

Lemma committed_state_frame m stop s :
  chatIndex (committed_state m stop s) = chatIndex s
  ∧ storedIndex (committed_state m stop s) = storedIndex s
  ∧ idle (committed_state m stop s)
  ∧ attachedFile (committed_state m stop s) = attachedFile s.
Proof.
  unfold committed_state, send_finally, setFormState, idle. simpl.
  pose proof (saveCurrentChat_frame
                (push_message m (set_stopGeneration stop (set_isGenerating true s))))
    as (-> & -> & _ & _ & ->). done.
Qed.

Lemma committed_state_stored m stop s :
  storedChats (committed_state m stop s) = storedChats s
  ∨ ∃ aid, activeChatId s = Some aid
           ∧ JS.truthy_string aid = true
           ∧ storedChats (committed_state m stop s)
             = <[aid := {| settings := currentSettings s;
                           messages := chatHistoryArray s ++ [m] |}]> (storedChats s).
Proof.
  unfold committed_state, send_finally, setFormState. simpl.
  destruct (saveCurrentChat_storedChats
              (push_message m (set_stopGeneration stop (set_isGenerating true s))))
    as [H | (aid & Ha & Ht & H)]; [by left|right].
  by exists aid.
Qed.

Lemma no_orphans_ext s s' :
  chatIndex s' = chatIndex s → storedChats s' = storedChats s →
  activeChatId s' = activeChatId s → no_orphans s → no_orphans s'.
Proof.
  unfold no_orphans, catalogued. intros -> -> ->. done.
Qed.

(** Writing under an id that the catalog has keeps the storage free of
    orphans. *)
Lemma no_orphans_insert s s' aid c :
  chatIndex s' = chatIndex s → activeChatId s' = activeChatId s →
  activeChatId s = Some aid → storedChats s' = <[aid := c]> (storedChats s) →
  no_orphans s → no_orphans s'.
Proof.
  unfold no_orphans, catalogued. intros Hi Ha Haid Hst [Hstored Hactive].
  rewrite Hi, Ha, Hst. split; [|done].
  intros x Hx. destruct (decide (aid = x)) as [<-|Hne]; [by apply Hactive|].
  rewrite lookup_insert_ne in Hx by done. by apply Hstored.
Qed.

Lemma saveCurrentChat_no_orphans s : no_orphans s → no_orphans (saveCurrentChat s).
Proof.
  intros Hs. pose proof (saveCurrentChat_frame s) as (Hi & _).
  pose proof (activeChatId_saveCurrentChat s) as Ha.
  destruct (saveCurrentChat_storedChats s) as [H | (aid & Haid & _ & H)].
  - by apply (no_orphans_ext s).
  - by eapply (no_orphans_insert s).
Qed.

Section MoreFacts.
Variable JSON_parse : string -> option JSON.
Variable Number_toString : JS.number -> string.

#[local] Abbreviation sendMessage := (sendMessage JSON_parse Number_toString).
#[local] Abbreviation handleFormSubmit := (handleFormSubmit JSON_parse Number_toString).
#[local] Abbreviation handleRegenerate := (handleRegenerate JSON_parse Number_toString).
#[local] Abbreviation handleEdit_save := (handleEdit_save JSON_parse Number_toString).
#[local] Abbreviation perform := (perform JSON_parse Number_toString).
#[local] Abbreviation perform_all := (perform_all JSON_parse Number_toString).
#[local] Abbreviation session_fails := (session_fails JSON_parse Number_toString).
#[local] Abbreviation deepseek_outcome := (deepseek_outcome JSON_parse Number_toString).
#[local] Abbreviation decoded := (decoded JSON_parse Number_toString).
#[local] Abbreviation delta := (delta JSON_parse Number_toString).
#[local] Abbreviation textChunk := (textChunk JSON_parse Number_toString).
#[local] Abbreviation deepseek_lines := (deepseek_lines JSON_parse Number_toString).
#[local] Abbreviation deepseek_loop := (deepseek_loop JSON_parse Number_toString).
#[local] Abbreviation sendMessageWithDeepSeek :=
  (sendMessageWithDeepSeek JSON_parse Number_toString).

(** A send ends in one of three ways. *)
Lemma sendMessage_ends userMessage f run s :
  (∃ m stop, sender m = sender_model
             ∧ sendMessage userMessage f run s = committed_state m stop s)
  ∨ sendMessage userMessage f run s = failed_state s
  ∨ (sendMessage userMessage f run s = clearAttachedFile s ∧ is_Some f).
Proof.
  rewrite sendMessage_outcome. destruct (JS.nullish _ _).
  - destruct (gemini_outcome _ _) as [[stop l]|]; [left|by right; left].
    by exists (gemini_message (gemini_run run) l), stop.
  - destruct f as [f|]; [by right; right|].
    destruct (deepseek_outcome _ _) as [[stop l]|]; [left|by right; left].
    by exists (deepseek_message (deepseek_run run) l), stop.
Qed.

Lemma sendMessage_frame userMessage f run s :
  chatIndex (sendMessage userMessage f run s) = chatIndex s
  ∧ storedIndex (sendMessage userMessage f run s) = storedIndex s
  ∧ activeChatId (sendMessage userMessage f run s) = activeChatId s
  ∧ currentSettings (sendMessage userMessage f run s) = currentSettings s
  ∧ (idle s → idle (sendMessage userMessage f run s))
  ∧ (no_orphans s → no_orphans (sendMessage userMessage f run s)).
Proof.
  destruct (sendMessage_ends userMessage f run s)
    as [(m & stop & _ & ->) | [-> | [-> _]]].
  - pose proof (committed_state_frame m stop s) as (Hi & Hsi & Hidle & _).
    pose proof (committed_state_activeChatId m stop s) as Ha.
    pose proof (committed_state_currentSettings m stop s) as Hset.
    split_and!; try done.
    intros Hs. destruct (committed_state_stored m stop s) as [H | (aid & Haid & _ & H)].
    + by apply (no_orphans_ext s).
    + by eapply (no_orphans_insert s).
  - split_and!; try done; intros Hs; by apply (no_orphans_ext s).
  - split_and!; try done; intros Hs; by apply (no_orphans_ext s).
Qed.

(** ** Every handler keeps the catalog saved, the page idle and the storage
    free of orphans *)

Lemma submit_prepare_inl chatInput now userTimestamp s s' :
  submit_prepare chatInput now userTimestamp s = inl s' →
  s' = s ∨ (isGenerating s = true ∧ s' = set_stopGeneration true s).
Proof.
  unfold submit_prepare. destruct (isGenerating s); [intros [= <-]; by right|].
  destruct (isRecording s); [intros [= <-]; by left|].
  destruct (_ && _); [intros [= <-]; by left | by_cases].
Qed.

Lemma submit_prepare_catalog chatInput now userTimestamp s s1 userMessage :
  submit_prepare chatInput now userTimestamp s = inr (s1, userMessage) →
  isGenerating s = false
  ∧ flags_kept s s1
  ∧ ((JS.truthy_ostring (activeChatId s) = true
      ∧ chatIndex s1 = chatIndex s ∧ storedIndex s1 = storedIndex s
      ∧ activeChatId s1 = activeChatId s)
     ∨ (JS.truthy_ostring (activeChatId s) = false
        ∧ activeChatId s1 = Some (new_chat_id now)
        ∧ chatIndex s1
          = {| id := new_chat_id now;
               title := JS.or_string (JS.substring_to 30 userMessage) "New Chat";
               pinned := Some false; archived := Some false |} :: chatIndex s
        ∧ storedIndex s1 = Some (chatIndex s1))).
Proof.
  unfold submit_prepare, flags_kept.
  destruct (isGenerating s) eqn:Hgen; [done|]. destruct (isRecording s); [done|].
  destruct (_ && _); [done|].
  destruct (JS.truthy_ostring (activeChatId s)) eqn:Hactive; intros [= <- <-].
  - split_and!; try done. by left.
  - split_and!; try done. by right.
Qed.

Lemma handleFormSubmit_keeps chatInput now userTimestamp run s :
  catalog_step s (handleFormSubmit chatInput now userTimestamp run s)
  ∧ (idle s → idle (handleFormSubmit chatInput now userTimestamp run s))
  ∧ (no_orphans s → no_orphans (handleFormSubmit chatInput now userTimestamp run s)).
Proof.
  unfold handleFormSubmit.
  destruct (submit_prepare chatInput now userTimestamp s) as [s'|[s1 userMessage]] eqn:Hprep.
  - apply submit_prepare_inl in Hprep as [-> | [Hgen ->]].
    + split_and!; [apply catalog_step_refl|done|done].
    + split_and!; [by left| |intros Hs; by apply (no_orphans_ext s)].
      intros [Hidle _]. congruence.
  - pose proof (submit_prepare_inr _ _ _ _ _ _ Hprep)
      as (_ & _ & Hstored & _ & _ & _).
    apply submit_prepare_catalog in Hprep as (Hgen & [Hg Hp] & Hcases).
    pose proof (sendMessage_frame userMessage (attachedFile s1) run s1)
      as (Hi & Hsi & Ha & _ & Hidle & Horph).
    split_and!.
    + unfold catalog_step. cbn [clearAttachedFile chatIndex storedIndex set_attachedFile].
      rewrite Hi, Hsi.
      destruct Hcases as [(_ & H1 & H2 & _) | (_ & _ & _ & H)]; [by left | by right].
    + intros [Hig Hsg].
      assert (idle (sendMessage userMessage (attachedFile s1) run s1)) as [? ?]
        by (apply Hidle; split; congruence).
      done.
    + intros Hs.
      apply (no_orphans_ext (sendMessage userMessage (attachedFile s1) run s1)); try done.
      apply Horph.
      destruct Hcases as [(_ & H1 & _ & H3) | (_ & Hnew & Hidx & _)].
      * by apply (no_orphans_ext s).
      * destruct Hs as [Hst _]. unfold no_orphans, catalogued.
        rewrite Hstored, Hidx, Hnew. split.
        -- intros x Hx. right. by apply Hst.
        -- intros aid [= <-]. by left.
Qed.

Lemma after_save_send_keeps userMessage f run history s :
  let s' := sendMessage userMessage f run
              (saveCurrentChat (set_chatHistoryArray history s)) in
  catalog_step s s' ∧ (idle s → idle s') ∧ (no_orphans s → no_orphans s').
Proof.
  intros s'. subst s'.
  pose proof (saveCurrentChat_frame (set_chatHistoryArray history s))
    as (Hi1 & Hsi1 & Hg1 & Hp1 & _).
  cbn [chatIndex storedIndex isGenerating stopGeneration set_chatHistoryArray]
    in Hi1, Hsi1, Hg1, Hp1.
  set (s1 := saveCurrentChat (set_chatHistoryArray history s)) in *.
  pose proof (sendMessage_frame userMessage f run s1)
    as (Hi & Hsi & Ha & _ & Hidle & Horph).
  split_and!.
  - left. by rewrite Hi, Hsi, Hi1, Hsi1.
  - intros [Hig Hsg]. apply Hidle. split; congruence.
  - intros Hs. apply Horph. apply saveCurrentChat_no_orphans.
    by apply (no_orphans_ext s).
Qed.

Lemma handleRegenerate_keeps run s :
  catalog_step s (handleRegenerate run s)
  ∧ (idle s → idle (handleRegenerate run s))
  ∧ (no_orphans s → no_orphans (handleRegenerate run s)).
Proof.
  unfold handleRegenerate.
  destruct (_ || _); [split_and!; [apply catalog_step_refl|done|done]|].
  destruct (_ !! _) as [lastUserMessage|];
    [|split_and!; [apply catalog_step_refl|done|done]].
  apply after_save_send_keeps.
Qed.

Lemma handleEdit_save_keeps index value run s :
  catalog_step s (handleEdit_save index value run s)
  ∧ (idle s → idle (handleEdit_save index value run s))
  ∧ (no_orphans s → no_orphans (handleEdit_save index value run s)).
Proof.
  unfold handleEdit_save, editUser.
  destruct (_ !! _) as [message|];
    [|split_and!; [apply catalog_step_refl|done|done]].
  destruct (_ && _); [|split_and!; [apply catalog_step_refl|done|done]].
  apply after_save_send_keeps.
Qed.

Lemma loadChat_no_orphans chatId s :
  catalogued chatId s → no_orphans s → no_orphans (loadChat chatId s).
Proof.
  intros Hcat [Hst Hact]. pose proof (loadChat_frame chatId s) as (Hi & _ & Hsc & _).
  unfold no_orphans, catalogued in *. rewrite Hi, Hsc, activeChatId_loadChat.
  split; [done|]. by intros aid [= <-].
Qed.

Lemma handleSettingsSave_keeps systemPrompt temperatureInput modelInput s :
  let s' := handleSettingsSave systemPrompt temperatureInput modelInput s in
  catalog_step s s' ∧ (idle s → idle s') ∧ (no_orphans s → no_orphans s').
Proof.
  intros s'. subst s'. unfold handleSettingsSave.
  set (s1 := set_currentSettings _ s).
  destruct (JS.truthy_ostring (activeChatId s1));
    [|split_and!; [by left|done|intros Hs; by apply (no_orphans_ext s)]].
  pose proof (saveCurrentChat_frame s1) as (Hi1 & Hsi1 & Hg1 & Hp1 & _).
  pose proof (activeChatId_saveCurrentChat s1) as Ha1.
  change (chatIndex s1) with (chatIndex s) in Hi1.
  change (storedIndex s1) with (storedIndex s) in Hsi1.
  change (isGenerating s1) with (isGenerating s) in Hg1.
  change (stopGeneration s1) with (stopGeneration s) in Hp1.
  assert (no_orphans s → no_orphans (saveCurrentChat s1)) as Horph1.
  { intros Hs. apply saveCurrentChat_no_orphans. by apply (no_orphans_ext s). }
  destruct (activeChatId (saveCurrentChat s1)) as [aid|] eqn:Haid.
  - pose proof (loadChat_frame aid (saveCurrentChat s1)) as (Hi & Hsi & _ & Hg & Hp & _).
    split_and!.
    + left. by rewrite Hi, Hsi, Hi1, Hsi1.
    + intros [Hig Hsg]. split; congruence.
    + intros Hs. apply loadChat_no_orphans; [|by apply Horph1].
      destruct (Horph1 Hs) as [_ Hact]. by apply Hact.
  - split_and!.
    + left. by rewrite Hi1, Hsi1.
    + intros [Hig Hsg]. split; congruence.
    + done.
Qed.

Lemma toggleArchive_no_orphans chatId s :
  no_orphans s → no_orphans (toggleArchive chatId s).
Proof.
  intros Hs. pose proof (toggleArchive_cases chatId s) as H.
  destruct (find_by_id chatId (chatIndex s)) as [item|]; [|by rewrite H].
  destruct H as (s2 & Heq & Hidx & _ & Hst & Hact & _).
  assert (map id (chatIndex s2) = map id (chatIndex s)) as Hids
    by (rewrite Hidx; by apply update_first_ids).
  assert (no_orphans s2) as Hs2.
  { destruct Hs as [H1 H2]. unfold no_orphans, catalogued in *.
    by rewrite Hids, Hst, Hact. }
  destruct Heq as [-> | [-> _]]; [done|].
  pose proof (activate_next_frame s2) as (Hi & _ & Hsc & _).
  destruct Hs2 as [H1 _]. unfold no_orphans, catalogued in *.
  rewrite Hi, Hsc. split; [done|].
  intros aid Haid. by apply activate_next_active in Haid.
Qed.

Lemma clickConversation_keeps position s :
  catalog_step s (clickConversation position s)
  ∧ (idle s → idle (clickConversation position s))
  ∧ (no_orphans s → no_orphans (clickConversation position s)).
Proof.
  unfold clickConversation.
  destruct (chatIndex s !! position) as [item|] eqn:Hitem;
    [|split_and!; [apply catalog_step_refl|done|done]].
  set (s1 := if JS.truthy_bool (archived item) then toggleArchive (id item) s else s).
  assert (catalog_step s s1 ∧ flags_kept s s1
          ∧ map id (chatIndex s1) = map id (chatIndex s)
          ∧ (no_orphans s → no_orphans s1)) as (Hcat & [Hg Hp] & Hids & Horph).
  { subst s1. destruct (JS.truthy_bool (archived item)).
    - pose proof (toggleArchive_frame (id item) s) as (_ & Hf & _ & Hc & Hids).
      split_and!; try done. apply toggleArchive_no_orphans.
    - split_and!; try done. apply catalog_step_refl. }
  pose proof (loadChat_frame (id item) s1) as (Hi & Hsi & _ & Hg' & Hp' & _).
  split_and!.
  - eapply catalog_step_trans; [exact Hcat|]. by left.
  - intros [Hig Hsg]. split; congruence.
  - intros Hs. apply loadChat_no_orphans; [|by apply Horph].
    unfold catalogued. rewrite Hids. apply List.in_map.
    apply list_elem_of_In. by eapply list_elem_of_lookup_2.
Qed.

Lemma deleteChat_no_orphans confirmed chatId s :
  no_orphans s → no_orphans (deleteChat confirmed chatId s).
Proof.
  intros [Hst Hact]. unfold deleteChat. destruct confirmed; [|done].
  set (s3 := saveChatIndex _).
  assert (∀ x, x ≠ chatId → catalogued x s → catalogued x s3) as Hkeep.
  { intros x Hne Hx. unfold catalogued in *. subst s3. simpl.
    apply List.in_map_iff in Hx as (c & <- & Hc). apply List.in_map.
    apply List.filter_In. split; [done|]. unfold has_id.
    by apply negb_true_iff, String.eqb_neq. }
  assert (∀ x, is_Some (storedChats s3 !! x) → catalogued x s3) as Hst3.
  { intros x Hx. subst s3. simpl in Hx.
    destruct (decide (chatId = x)) as [<-|Hne].
    - rewrite lookup_delete_eq in Hx. by destruct Hx.
    - rewrite lookup_delete_ne in Hx by done. apply Hkeep; [done|by apply Hst]. }
  destruct (is_active chatId s3) eqn:Hisact.
  - pose proof (activate_next_frame s3) as (Hi & _ & Hsc & _).
    unfold no_orphans, catalogued in *. rewrite Hi, Hsc. split; [done|].
    intros aid Haid. by apply activate_next_active in Haid.
  - split; [done|]. intros aid Haid.
    assert (aid ≠ chatId) as Hne.
    { intros ->. unfold is_active in Hisact. rewrite Haid in Hisact.
      by rewrite String.eqb_refl in Hisact. }
    apply Hkeep; [done|]. apply Hact. by subst s3.
Qed.

Lemma perform_keeps a s :
  catalog_step s (perform a s)
  ∧ (idle s → idle (perform a s))
  ∧ (no_orphans s → no_orphans (perform a s)).
Proof.
  destruct a; cbn [perform].
  - pose proof (togglePin_frame chatId s) as (Hsc & Ha & _ & _ & [Hg Hp] & _).
    split_and!; [apply togglePin_catalog_step| |].
    + intros [? ?]. split; congruence.
    + intros [H1 H2]. unfold no_orphans, catalogued in *. rewrite Hsc, Ha.
      assert (map id (chatIndex (togglePin chatId s)) = map id (chatIndex s)) as ->; [|done].
      destruct (find_by_id chatId (chatIndex s)) as [item|] eqn:Hfind.
      * rewrite (chatIndex_togglePin _ _ _ Hfind). by apply update_first_ids.
      * unfold togglePin. by rewrite Hfind.
  - pose proof (toggleArchive_frame chatId s) as (_ & [Hg Hp] & _ & Hc & _).
    split_and!; [done| |apply toggleArchive_no_orphans].
    intros [? ?]. split; congruence.
  - pose proof (renameChat_frame chatId newTitle s) as (Hsc & Ha & _ & _ & [Hg Hp] & _).
    split_and!; [apply renameChat_catalog_step| |].
    + intros [? ?]. split; congruence.
    + intros [H1 H2]. unfold no_orphans, catalogued in *. rewrite Hsc, Ha.
      assert (map id (chatIndex (renameChat chatId newTitle s)) = map id (chatIndex s))
        as ->; [|done].
      unfold renameChat.
      pose proof (updateChatMetadata_catalog chatId
                    {| p_title := Some newTitle; p_pinned := None; p_archived := None |} s)
        as H.
      destruct (find_by_id _ _); [|by rewrite H].
      destruct H as [-> _]. by apply update_first_ids.
  - pose proof (deleteChat_frame confirmed chatId s) as ([Hg Hp] & _ & Hc).
    split_and!; [done| |apply deleteChat_no_orphans].
    intros [? ?]. split; congruence.
  - apply clickConversation_keeps.
  - split_and!; [by left|done|].
    intros [H1 _]. split; [done|]. by intros aid.
  - split_and!; [by left; destruct chosen|by destruct chosen|].
    intros Hs. apply (no_orphans_ext s); by destruct chosen.
  - apply handleSettingsSave_keeps.
  - apply handleFormSubmit_keeps.
  - apply handleRegenerate_keeps.
  - apply handleEdit_save_keeps.
Qed.

Lemma perform_all_keeps actions : ∀ s,
  catalog_step s (perform_all actions s)
  ∧ (idle s → idle (perform_all actions s))
  ∧ (no_orphans s → no_orphans (perform_all actions s)).
Proof.
  induction actions as [|a actions IH]; intros s; simpl.
  - split_and!; [apply catalog_step_refl|done|done].
  - destruct (perform_keeps a s) as (Hc & Hi & Ho).
    destruct (IH (perform a s)) as (Hc' & Hi' & Ho').
    split_and!; [by eapply catalog_step_trans|auto|auto].
Qed.

Lemma loaded_page_start index chats :
  let s := loaded_page index chats in
  chatIndex s = default [] index
  ∧ storedIndex s = index
  ∧ storedChats s = chats
  ∧ idle s
  ∧ (∀ aid, activeChatId s = Some aid → catalogued aid s).
Proof.
  intros s. subst s. unfold loaded_page, initializeAppForUser.
  set (s1 := set_chatIndex _ _).
  change (match List.find not_archived (chatIndex s1) with
          | Some firstActiveChat => loadChat (id firstActiveChat) s1
          | None => startNewChat s1
          end) with (activate_next s1).
  pose proof (activate_next_frame s1) as (Hi & Hsi & Hsc & _ & Hp & _).
  unfold setFormState, idle, catalogued.
  cbn [chatIndex storedIndex storedChats isGenerating stopGeneration activeChatId
       set_isGenerating].
  rewrite Hi, Hsi, Hsc, Hp. split_and!; try done.
  intros aid Haid. by apply activate_next_active in Haid.
Qed.

(** X1.  Whatever the user does on a loaded page, the catalog kept in
    [localStorage] is the catalog in memory: loading the page again reads
    back exactly the entries, flags and order that the sidebar showed. *)
Theorem X1_catalog_survives_reload index chats actions :
  let s := perform_all actions (loaded_page index chats) in
  getChatIndex s = chatIndex s ∧ chatIndex (reload s) = chatIndex s.
Proof.
  intros s.
  assert (catalog_saved s) as Hsaved.
  { subst s. eapply catalog_step_saved; [|apply perform_all_keeps].
    pose proof (loaded_page_start index chats) as (Hi & Hsi & _).
    unfold catalog_saved, getChatIndex. rewrite Hi, Hsi. by destruct index. }
  split; [done|].
  pose proof (loaded_page_start (storedIndex s) (storedChats s)) as (Hi & _).
  unfold reload. fold (loaded_page (storedIndex s) (storedChats s)). rewrite Hi.
  exact Hsaved.
Qed.

(** X2.  Every handler that sends resets both flags in its [finally] block:
    whatever the user does on a loaded page and however each request ends
    (answer, stop, exception, refusal), the page is left not generating and
    with no stop pending. *)
Theorem X2_page_left_idle index chats actions :
  let s := perform_all actions (loaded_page index chats) in
  isGenerating s = false ∧ stopGeneration s = false.
Proof.
  intros s. subst s. apply perform_all_keeps.
  apply (loaded_page_start index chats).
Qed.

(** X3.  If every conversation found in storage when the page loads has an
    entry in the catalog, this stays so whatever the user does: a
    conversation is only ever written under the active id, the active id is
    always that of a catalog entry, and deleting an entry deletes its
    conversation. *)
Theorem X3_no_orphan_conversations index chats actions :
  (∀ chatId, is_Some (chats !! chatId) → In chatId (map id (default [] index))) →
  let s := perform_all actions (loaded_page index chats) in
  (∀ chatId, is_Some (storedChats s !! chatId) → In chatId (map id (chatIndex s)))
  ∧ (∀ aid, activeChatId s = Some aid → In aid (map id (chatIndex s))).
Proof.
  intros Hstart s. subst s. apply perform_all_keeps.
  pose proof (loaded_page_start index chats) as (Hi & _ & Hsc & _ & Hact).
  split; [|done]. unfold catalogued. rewrite Hi, Hsc. exact Hstart.
Qed.

(** ** Saving, switching, loading again *)

(** X4.  A conversation saved under its id comes back when the user switches
    to another conversation and returns: the turns and the settings are those
    that were saved, provided every number in them is one that storage gives
    back as it was written (finite, and not minus zero: a speed that is
    [Infinity] or [NaN] is written as [null]).  Without the save, returning
    brings back what storage holds for the id and the turns that were only
    in memory are gone. *)
Theorem X4_switch_and_return s aid other :
  activeChatId s = Some aid → JS.truthy_string aid = true → other ≠ aid →
  (read_back_unchanged (chatHistoryArray s) (currentSettings s) →
   let s' := loadChat aid (loadChat other (saveCurrentChat s)) in
   activeChatId s' = Some aid
   ∧ chatHistoryArray s' = chatHistoryArray s
   ∧ currentSettings s' = currentSettings s)
  ∧ (∀ stored, getStoredChat aid s = Some stored →
       let s' := loadChat aid (loadChat other s) in
       chatHistoryArray s' = messages stored ∧ currentSettings s' = settings stored).
Proof.
  intros Hactive Htruthy Hne.
  assert (∀ s0 stored, getStoredChat aid s0 = Some stored →
            let s' := loadChat aid (loadChat other s0) in
            activeChatId s' = Some aid
            ∧ chatHistoryArray s' = messages stored
            ∧ currentSettings s' = settings stored) as Hback.
  { intros s0 stored Hst s'. subst s'.
    pose proof (loadChat_frame other s0) as (_ & _ & Hsc & _).
    pose proof (activeChatId_loadChat other s0) as Hact.
    set (s1 := loadChat other s0) in *.
    split; [apply activeChatId_loadChat|].
    unfold loadChat at 1 2.
    assert (is_active aid s1 = false) as ->.
    { unfold is_active. rewrite Hact. by apply String.eqb_neq. }
    unfold getStoredChat in *. cbn [storedChats set_activeChatId].
    by rewrite Hsc, Hst. }
  split.
  - intros _ s'. subst s'.
    assert (getStoredChat aid (saveCurrentChat s)
            = Some {| settings := currentSettings s; messages := chatHistoryArray s |})
      as Hsaved.
    { unfold getStoredChat, saveCurrentChat. rewrite Hactive, Htruthy. simpl.
      apply lookup_insert_eq. }
    apply (Hback _ _ Hsaved).
  - intros stored Hst s'. apply (Hback _ _ Hst).
Qed.

(** ** Loading the page *)

(** X5.  A page that loads opens the first catalog entry that is not
    archived, with the turns and settings stored for it, whichever
    conversation was active before; with no such entry it opens a new
    conversation without id, without turns, with temperature 0.9 and the
    structured-stream backend. *)
Theorem X5_page_load_opens_first index chats :
  let s := loaded_page index chats in
  match List.find not_archived (default [] index) with
  | Some c =>
      activeChatId s = Some (id c)
      ∧ (∀ stored, chats !! id c = Some stored →
           chatHistoryArray s = messages stored ∧ currentSettings s = settings stored)
      ∧ (chats !! id c = None → chatHistoryArray s = [])
  | None =>
      activeChatId s = None
      ∧ chatHistoryArray s = []
      ∧ currentSettings s = {| systemInstruction := None;
                               temperature := Some temperature_default;
                               model := Some gemini |}
  end.
Proof.
  intros s. subst s. unfold loaded_page, initializeAppForUser.
  cbn [chatIndex set_chatIndex].
  assert (getChatIndex (fresh_page index chats) = default [] index) as ->
    by (by destruct index).
  destruct (List.find not_archived (default [] index)) as [c|]; [|done].
  unfold setFormState, loadChat, is_active, getStoredChat.
  cbn [activeChatId set_chatIndex fresh_page storedChats set_activeChatId].
  destruct (chats !! id c) as [stored|]; split_and!; try done;
    by intros stored' [= <-].
Qed.

(** ** Deleting *)

Lemma find_by_id_filter_other chatId x index :
  x ≠ chatId →
  find_by_id x (List.filter (λ c, negb (has_id chatId c)) index) = find_by_id x index.
Proof.
  intros Hne. unfold find_by_id, has_id. induction index as [|c index IH]; [done|].
  simpl. destruct (String.eqb (id c) chatId) eqn:Hc; simpl.
  - apply String.eqb_eq in Hc. rewrite IH.
    assert (String.eqb (id c) x = false) as ->; [|done].
    apply String.eqb_neq. congruence.
  - destruct (String.eqb (id c) x); [done|apply IH].
Qed.

Lemma find_by_id_filter_same chatId index :
  find_by_id chatId (List.filter (λ c, negb (has_id chatId c)) index) = None.
Proof.
  unfold find_by_id, has_id. induction index as [|c index IH]; [done|].
  simpl. destruct (String.eqb (id c) chatId) eqn:Hc; simpl; [done|]. by rewrite Hc.
Qed.

(** X6.  A confirmed [deleteChat] removes the stored conversation of the id
    and every catalog entry of the id, and touches no other conversation and
    no other entry; when another conversation is the active one, its id,
    turns and settings stay.  A delete that is not confirmed changes
    nothing. *)
Theorem X6_delete_removes_one_conversation chatId s :
  let s' := deleteChat true chatId s in
  getStoredChat chatId s' = None
  ∧ find_by_id chatId (chatIndex s') = None
  ∧ (∀ x, x ≠ chatId →
       getStoredChat x s' = getStoredChat x s
       ∧ find_by_id x (chatIndex s') = find_by_id x (chatIndex s))
  ∧ (activeChatId s ≠ Some chatId →
       activeChatId s' = activeChatId s
       ∧ chatHistoryArray s' = chatHistoryArray s
       ∧ currentSettings s' = currentSettings s)
  ∧ deleteChat false chatId s = s.
Proof.
  intros s'. subst s'. unfold deleteChat.
  set (s3 := saveChatIndex _).
  assert (storedChats s3 = delete chatId (storedChats s)
          ∧ chatIndex s3 = List.filter (λ c, negb (has_id chatId c)) (chatIndex s))
    as [Hsc3 Hi3] by done.
  assert (storedChats (if is_active chatId s3 then activate_next s3 else s3)
          = storedChats s3
          ∧ chatIndex (if is_active chatId s3 then activate_next s3 else s3)
            = chatIndex s3) as [Hsc Hi].
  { destruct (is_active chatId s3); [|done].
    by pose proof (activate_next_frame s3) as (-> & _ & -> & _). }
  unfold getStoredChat. rewrite Hsc, Hi, Hsc3, Hi3. split_and!.
  - apply lookup_delete_eq.
  - apply find_by_id_filter_same.
  - intros x Hne. split; [by apply lookup_delete_ne|by apply find_by_id_filter_other].
  - intros Hother.
    assert (is_active chatId s3 = false) as ->; [|done].
    destruct (is_active chatId s3) eqn:Hact; [|done].
    apply is_active_true in Hact. by destruct Hother.
  - done.
Qed.

(** ** Toggling twice *)

Lemma togglePin_saved chatId s item :
  find_by_id chatId (chatIndex s) = Some item →
  storedIndex (togglePin chatId s) = Some (chatIndex (togglePin chatId s)).
Proof.
  intros Hfind. unfold togglePin. rewrite Hfind.
  set (s1 := set_chatIndex _ s). set (patch := Build_IndexPatch _ _ _).
  pose proof (updateChatMetadata_catalog chatId patch s1) as H.
  unfold find_by_id in *. subst s1. cbn [chatIndex set_chatIndex] in H.
  erewrite (find_update_first (has_id chatId)) in H; [|done|exact Hfind].
  apply H.
Qed.

(** X7.  [togglePin] twice gives back the pin of the entry, and nothing else
    in the catalog has changed.  [toggleArchive] twice gives back the
    archived flag but not the pin: whichever way the entry started, it ends
    unpinned.  Both leave the catalog saved. *)
Theorem X7_toggle_twice chatId s item :
  find_by_id chatId (chatIndex s) = Some item →
  (let s' := togglePin chatId (togglePin chatId s) in
   chatIndex s'
   = update_first (has_id chatId)
       (λ c, {| id := id c; title := title c;
                pinned := Some (JS.truthy_bool (pinned item));
                archived := archived c |}) (chatIndex s)
   ∧ storedIndex s' = Some (chatIndex s'))
  ∧ (let s' := toggleArchive chatId (toggleArchive chatId s) in
     chatIndex s'
     = update_first (has_id chatId)
         (λ c, {| id := id c; title := title c;
                  pinned := Some false;
                  archived := Some (JS.truthy_bool (archived item)) |}) (chatIndex s)
     ∧ storedIndex s' = Some (chatIndex s')).
Proof.
  intros Hfind. unfold find_by_id in Hfind. split.
  - intros s'. subst s'.
    pose proof (chatIndex_togglePin _ _ _ Hfind) as H1.
    assert (find_by_id chatId (chatIndex (togglePin chatId s)) = Some (pin_entry item item))
      as Hfind1.
    { rewrite H1. by apply (find_update_first (has_id chatId)). }
    pose proof (chatIndex_togglePin _ _ _ Hfind1) as H2.
    split.
    + rewrite H2, H1, update_first_twice by done.
      unfold pin_entry. simpl. by destruct (JS.truthy_bool (pinned item)).
    + by apply (togglePin_saved _ _ _ Hfind1).
  - intros s'. subst s'.
    pose proof (chatIndex_toggleArchive _ _ _ Hfind) as H1.
    assert (find_by_id chatId (chatIndex (toggleArchive chatId s))
            = Some (archive_entry item item)) as Hfind1.
    { rewrite H1. by apply (find_update_first (has_id chatId)). }
    pose proof (chatIndex_toggleArchive _ _ _ Hfind1) as H2.
    split.
    + rewrite H2, H1, update_first_twice by done.
      unfold archive_entry. simpl. by destruct (JS.truthy_bool (archived item)).
    + pose proof (toggleArchive_cases chatId (toggleArchive chatId s)) as H.
      rewrite Hfind1 in H. destruct H as (s2 & Heq & _ & Hsaved & _).
      destruct Heq as [-> | [-> _]]; [done|].
      pose proof (activate_next_frame s2) as (-> & -> & _). done.
Qed.

(** ** Opening an archived conversation *)

(** X9.  A click on an archived conversation restores and opens it: its
    entry is no longer archived and keeps its pin flag, its id is the active
    id, and when it was not the active conversation its stored turns and
    settings are the ones in memory. *)
Theorem X9_click_archived_restores position s item :
  chatIndex s !! position = Some item →
  find_by_id (id item) (chatIndex s) = Some item →
  JS.truthy_bool (archived item) = true →
  let s' := clickConversation position s in
  activeChatId s' = Some (id item)
  ∧ find_by_id (id item) (chatIndex s')
    = Some {| id := id item; title := title item;
              pinned := pinned item; archived := Some false |}
  ∧ (∀ stored, activeChatId s ≠ Some (id item) →
       getStoredChat (id item) s = Some stored →
       chatHistoryArray s' = messages stored ∧ currentSettings s' = settings stored).
Proof.
  intros Hpos Hfind Harch s'. subst s'. unfold clickConversation. rewrite Hpos, Harch.
  pose proof (toggleArchive_cases (id item) s) as H. rewrite Hfind in H.
  destruct H as (s2 & Heq & Hidx & _ & Hst & Hact & _).
  assert (toggleArchive (id item) s = s2) as ->
    by (destruct Heq as [-> | [_ Heq]]; [done|congruence]).
  pose proof (loadChat_frame (id item) s2) as (Hi & _).
  split_and!.
  - apply activeChatId_loadChat.
  - rewrite Hi, Hidx. unfold find_by_id in *.
    erewrite (find_update_first (has_id (id item))); [|done|exact Hfind].
    unfold archive_entry. by rewrite Harch.
  - intros stored Hne Hstored. unfold loadChat.
    assert (is_active (id item) s2 = false) as ->.
    { destruct (is_active (id item) s2) eqn:Hisact; [|done].
      apply is_active_true in Hisact. congruence. }
    unfold getStoredChat in *. cbn [storedChats set_activeChatId].
    by rewrite Hst, Hstored.
Qed.

(** ** Saving the settings *)

(** X10.  [handleSettingsSave] with a conversation active stores, under the
    active id, the new settings together with all the turns in memory, also
    a user turn whose request failed and that no commit had saved; the turns
    and the active id stay.  With no conversation active nothing is
    stored. *)
Theorem X10_settings_saved_with_turns systemPrompt temperatureInput modelInput s :
  let s' := handleSettingsSave systemPrompt temperatureInput modelInput s in
  let newSettings := {| systemInstruction := Some systemPrompt;
                        temperature := Some temperatureInput;
                        model := Some modelInput |} in
  currentSettings s' = newSettings
  ∧ chatHistoryArray s' = chatHistoryArray s
  ∧ activeChatId s' = activeChatId s
  ∧ (∀ aid, activeChatId s = Some aid → JS.truthy_string aid = true →
       storedChats s'
       = <[aid := {| settings := newSettings; messages := chatHistoryArray s |}]>
           (storedChats s))
  ∧ (JS.truthy_ostring (activeChatId s) = false → storedChats s' = storedChats s).
Proof.
  intros s' newSettings. subst s'. unfold handleSettingsSave. fold newSettings.
  cbn [activeChatId set_currentSettings].
  destruct (activeChatId s) as [aid|] eqn:Hactive; simpl; [|by split_and!].
  destruct (JS.truthy_string aid) eqn:Htruthy.
  - rewrite activeChatId_saveCurrentChat. cbn [activeChatId set_currentSettings].
    rewrite Hactive. unfold loadChat.
    assert (is_active aid (saveCurrentChat (set_currentSettings newSettings s)) = true)
      as -> by (apply is_active_true; by rewrite activeChatId_saveCurrentChat).
    rewrite currentSettings_saveCurrentChat, chatHistoryArray_saveCurrentChat,
      activeChatId_saveCurrentChat.
    split_and!; try done.
    intros aid' [= <-] _. unfold saveCurrentChat. cbn [activeChatId set_currentSettings].
    by rewrite Hactive, Htruthy.
  - split_and!; try done. intros aid' [= <-] Ht. congruence.
Qed.

(** ** Submitting: what it refuses and what it creates *)

Lemma substring_to_length n s : String.length (JS.substring_to n s) ≤ n.
Proof.
  unfold JS.substring_to. revert s. induction n as [|n IH]; intros [|c s]; simpl; try lia.
  specialize (IH s). lia.
Qed.

Lemma substring_to_short n s : String.length s ≤ n → JS.substring_to n s = s.
Proof.
  unfold JS.substring_to. revert s. induction n as [|n IH]; intros [|c s]; simpl;
    try done; try lia.
  intros H. rewrite IH; [done|lia].
Qed.

Lemma substring_to_truthy n s :
  JS.truthy_string (JS.substring_to (S n) s) = JS.truthy_string s.
Proof. by destruct s. Qed.

(** X11.  [handleFormSubmit] sends nothing in three cases: while a response
    is being generated it only raises the stop flag; while the microphone is
    recording, and for an input that is blank with no file attached, it
    leaves the state as it is. *)
Theorem X11_submit_refused chatInput now userTimestamp run s :
  (isGenerating s = true →
     handleFormSubmit chatInput now userTimestamp run s = set_stopGeneration true s)
  ∧ (isGenerating s = false → isRecording s = true →
       handleFormSubmit chatInput now userTimestamp run s = s)
  ∧ (isGenerating s = false → JS.trim chatInput = "" → attachedFile s = None →
       handleFormSubmit chatInput now userTimestamp run s = s).
Proof.
  unfold handleFormSubmit, submit_prepare. split_and!.
  - by intros ->.
  - by intros -> ->.
  - intros -> -> ->. by destruct (isRecording s).
Qed.

(** X12.  The first message of a conversation that has no id creates one
    catalog entry, at the front of the catalog, saved at once: its id is
    [chat_] followed by the clock reading and becomes the active id, it is
    neither pinned nor archived, and its title is the first 30 characters of
    the trimmed message, or [New Chat] when the message is blank (a file
    alone was sent): never empty, never longer than 30.  A message in a
    conversation that has an id leaves the catalog as it is. *)
Theorem X12_first_message_creates_entry chatInput now userTimestamp run s s1 userMessage :
  submit_prepare chatInput now userTimestamp s = inr (s1, userMessage) →
  let s' := handleFormSubmit chatInput now userTimestamp run s in
  (JS.truthy_ostring (activeChatId s) = false →
     ∃ entry, chatIndex s' = entry :: chatIndex s
              ∧ storedIndex s' = Some (chatIndex s')
              ∧ id entry = new_chat_id now
              ∧ activeChatId s' = Some (new_chat_id now)
              ∧ pinned entry = Some false ∧ archived entry = Some false
              ∧ title entry ≠ ""
              ∧ String.length (title entry) ≤ 30
              ∧ (JS.trim chatInput = "" → title entry = "New Chat")
              ∧ (JS.trim chatInput ≠ "" →
                   title entry = JS.substring_to 30 (JS.trim chatInput)))
  ∧ (JS.truthy_ostring (activeChatId s) = true →
       chatIndex s' = chatIndex s ∧ storedIndex s' = storedIndex s
       ∧ activeChatId s' = activeChatId s).
Proof.
  intros Hprep s'. subst s'. unfold handleFormSubmit. rewrite Hprep.
  pose proof (submit_prepare_inr _ _ _ _ _ _ Hprep) as (-> & _).
  apply submit_prepare_catalog in Hprep as (_ & _ & Hcases).
  pose proof (sendMessage_frame (JS.trim chatInput) (attachedFile s1) run s1)
    as (Hi & Hsi & Ha & _).
  cbn [clearAttachedFile chatIndex storedIndex activeChatId set_attachedFile].
  rewrite Hi, Hsi, Ha. split.
  - intros Hnone. destruct Hcases as [(Hsome & _) | (_ & Hact & Hidx & Hsaved)];
      [congruence|].
    eexists. split; [exact Hidx|]. split; [done|]. split; [done|]. split; [done|].
    split; [done|]. split; [done|]. cbn [title].
    destruct (JS.trim chatInput) as [|c rest] eqn:Htrim.
    + split_and!; try done. simpl. lia.
    + assert (JS.or_string (JS.substring_to 30 (String c rest)) "New Chat"
              = JS.substring_to 30 (String c rest)) as -> by done.
      split_and!; try done. apply substring_to_length.
  - intros Hsome. destruct Hcases as [(_ & H1 & H2 & H3) | (Hnone & _)]; [done|congruence].
Qed.

(** X13.  The id given to a new conversation is never empty and is
    determined by the clock reading alone: two readings give the same id
    exactly when they are equal. *)
Theorem X13_new_chat_id_injective now now' :
  JS.truthy_string (new_chat_id now) = true
  ∧ (new_chat_id now = new_chat_id now' ↔ now = now').
Proof.
  split; [done|]. split; [|by intros ->].
  unfold new_chat_id. intros H. apply (inj (String.app "chat_")) in H.
  apply (f_equal NilEmpty.uint_of_string) in H. rewrite !NilEmpty.usu in H.
  injection H as H. by apply DecimalN.Unsigned.to_uint_inj.
Qed.

(** ** Requests that fail *)

Lemma gemini_loop_raise chunks pressed rest : ∀ l,
  gemini_loop false (unpressed chunks ++ (pressed, Raise) :: rest) l = None.
Proof. induction chunks as [|c chunks IH]; intros l; simpl; [done|apply IH]. Qed.

Lemma deepseek_loop_app reads reads' : ∀ stop l,
  deepseek_loop stop (reads ++ reads') l
  = match deepseek_loop stop reads l with
    | Some (stop', l') => deepseek_loop stop' reads' l'
    | None => None
    end.
Proof.
  induction reads as [|[pressed next] reads IH]; intros stop l; [done|].
  cbn [app deepseek_loop].
  destruct (stop || pressed); [by rewrite deepseek_loop_stopped|].
  destruct next as [value|]; [|done].
  destruct (deepseek_body _ _ value l) as [done l']. apply IH.
Qed.

Lemma deepseek_lines_not_done lines : ∀ full,
  Forall (λ r, is_done r = false) lines → snd (deepseek_lines lines full) = false.
Proof.
  induction lines as [|r lines IH]; intros full Hall; [done|].
  apply Forall_cons in Hall as [Hr Hall]. cbn [deepseek_lines].
  unfold is_done, payload in Hr.
  destruct (JS.startsWith "data: " r); [|by apply IH].
  simpl in Hr. rewrite Hr. destruct (textChunk _); by apply IH.
Qed.

(** A text is its finished lines, each with its line feed, followed by its
    unfinished line. *)
Lemma lines_reassemble s : unlines (complete_lines s) +:+ pending s = s.
Proof.
  induction s as [|c s IH]; [done|].
  destruct (Ascii.eqb c newline) eqn:Hc.
  - apply Ascii.eqb_eq in Hc as ->.
    rewrite complete_lines_cons_newline, pending_cons_newline.
    etransitivity; [|apply (f_equal (String newline) IH)]. reflexivity.
  - unfold complete_lines, pending in *. rewrite (split_other_cons _ _ Hc).
    pose proof (split_not_nil newline s) as Hne.
    destruct (JS.split newline s) as [|l [|l' ls]]; [done| |];
      (etransitivity; [|apply (f_equal (String c) IH)]); reflexivity.
Qed.

Lemma pending_whole s : complete_lines s = [] → pending s = s.
Proof. intros H. pose proof (lines_reassemble s) as Hs. by rewrite H in Hs. Qed.

(** While no [[DONE]] has been read, the reader goes on, its buffer is the
    unfinished line of all it has read. *)
Lemma deepseek_loop_not_done values : ∀ l,
  complete_lines (d_buffer l) = [] →
  Forall (λ r, is_done r = false)
         (complete_lines (d_buffer l +:+ concat_strings values)) →
  deepseek_loop false (unpressed values) l
  = Some (false,
          {| d_buffer := pending (d_buffer l +:+ concat_strings values);
             d_fullResponse :=
               lines_text JSON_parse Number_toString
                 (d_buffer l +:+ concat_strings values) (d_fullResponse l) |}).
Proof.
  induction values as [|v values IH]; intros l Hbuf Hnot.
  - cbn. rewrite string_app_nil_r. unfold lines_text. rewrite Hbuf.
    rewrite (pending_whole _ Hbuf). destruct l. reflexivity.
  - revert Hnot. rewrite concat_strings_cons, lines_text_app, <- string_app_assoc.
    rewrite (complete_lines_app (d_buffer l +:+ v) (concat_strings values)).
    rewrite (pending_app (d_buffer l +:+ v) (concat_strings values)).
    intros [Hnot1 Hnot2]%Forall_app.
    cbn [unpressed map deepseek_loop orb]. rewrite deepseek_body_lines.
    rewrite (deepseek_lines_not_done _ _ Hnot1).
    fold (unpressed values). rewrite IH; [done|apply complete_lines_pending|exact Hnot2].
Qed.

(** X16.  A request that fails commits nothing: when the structured stream
    raises after some chunks, when a read of the text-delta stream raises
    before any [[DONE]] line, when the text-delta response is not a success
    or the request itself is rejected, the turns and the stored
    conversations are as before the send, whatever text had accumulated, and
    both flags are reset. *)
Theorem X16_failure_discards_draft userMessage f run drun s :
  stopGeneration s = false →
  (∀ chunks pressed rest,
     result run = Some (unpressed chunks ++ (pressed, Raise) :: rest) →
     sendMessageWithGemini userMessage f run s = failed_state s)
  ∧ (result run = None → sendMessageWithGemini userMessage f run s = failed_state s)
  ∧ (∀ values rest,
       response drun = FetchOk (unpressed values ++ (false, Raise) :: rest) →
       Forall (λ r, is_done r = false) (complete_lines (concat_strings values)) →
       sendMessageWithDeepSeek userMessage None drun s = failed_state s)
  ∧ (response drun = FetchRejects ∨ response drun = FetchNotOk →
       sendMessageWithDeepSeek userMessage None drun s = failed_state s)
  ∧ chatHistoryArray (failed_state s) = chatHistoryArray s
  ∧ storedChats (failed_state s) = storedChats s
  ∧ isGenerating (failed_state s) = false
  ∧ stopGeneration (failed_state s) = false.
Proof.
  intros Hstop. split_and!; try done.
  - intros chunks pressed rest Hrun. rewrite sendMessageWithGemini_outcome.
    unfold gemini_outcome. rewrite Hrun, Hstop. simpl. by rewrite gemini_loop_raise.
  - intros Hrun. rewrite sendMessageWithGemini_outcome. unfold gemini_outcome.
    by rewrite Hrun.
  - intros values rest Hrun Hnot. rewrite sendMessageWithDeepSeek_outcome.
    unfold deepseek_outcome. rewrite Hrun, Hstop, deepseek_loop_app.
    by rewrite (deepseek_loop_not_done values deepseek_init eq_refl Hnot).
  - intros Hrun. rewrite sendMessageWithDeepSeek_outcome.
    unfold deepseek_outcome. by destruct Hrun as [-> | ->].
Qed.

(** ** A structured stream taken to its end *)

(** X17.  When the structured stream ends on its own, one model turn is
    appended whose content is the texts of all chunks in order, where a
    chunk that has no text adds the nine characters [undefined]; the turn
    carries the time stamp taken at commit and no file. *)
Theorem X17_stream_taken_to_its_end userMessage f run s chunks :
  stopGeneration s = false →
  result run = Some (unpressed chunks) →
  ∃ m, chatHistoryArray (sendMessageWithGemini userMessage f run s)
       = chatHistoryArray s ++ [m]
       ∧ sender m = sender_model
       ∧ content m
         = concat_strings
             (map (λ c, match text c with Some t => t | None => "undefined" end) chunks)
       ∧ timestamp m = modelTimestamp run
       ∧ file m = None.
Proof.
  intros Hstop Hrun. rewrite sendMessageWithGemini_outcome. unfold gemini_outcome.
  rewrite Hrun, Hstop. simpl. rewrite gemini_loop_unpressed.
  eexists. split; [apply committed_state_history|]. split_and!; try done.
  simpl. by rewrite feed_fullResponse.
Qed.

(** ** Asking again: regenerate and edit *)






(** ** Citations that are already distinct *)

Lemma first_seen_NoDup_id ks : List.NoDup ks → first_seen ks = ks.
Proof.
  induction 1 as [|k ks Hk Hnd IH]; [done|]. simpl. rewrite IH. f_equal.
  clear IH Hnd. induction ks as [|k' ks IH]; [done|]. simpl.
  destruct (String.eqb k' k) eqn:Hkk; simpl.
  - apply String.eqb_eq in Hkk as ->. destruct Hk. by left.
  - rewrite IH; [done|]. intros Hin. apply Hk. by right.
Qed.

Lemma same_keys_same_list {A} (k : A → string) (us l : list A) :
  map k us = map k l → List.NoDup (map k l) → (∀ x, In x us → In x l) → us = l.
Proof.
  revert us. induction l as [|y l IH]; intros [|x us]; simpl; try done.
  intros [= Hk Hks] Hnd Hin. apply List.NoDup_cons_iff in Hnd as [Hy Hnd].
  assert (x = y) as ->.
  { destruct (Hin x (or_introl eq_refl)) as [?|Hx]; [done|].
    destruct Hy. rewrite <- Hk. by apply List.in_map. }
  f_equal. apply IH; [done|done|].
  intros z Hz. destruct (Hin z (or_intror Hz)) as [<-|?]; [|done].
  destruct Hy. rewrite <- Hks. by apply List.in_map.
Qed.

Lemma last_with_uri_In u l x : last_with_uri u l = Some x → In x l.
Proof.
  unfold last_with_uri. intros H.
  apply last_Some_elem_of, list_elem_of_In, List.filter_In in H. by destruct H.
Qed.

(** X20.  Citations whose uris are all different are committed as they
    were streamed, same elements in the same order; deduplicating what is
    already deduplicated changes nothing, and what is committed is never
    longer than what was streamed. *)
Theorem X20_distinct_citations_unchanged l :
  (List.NoDup (map uri l) → uniqueSources l = l)
  ∧ uniqueSources (uniqueSources l) = uniqueSources l
  ∧ length (uniqueSources l) ≤ length l.
Proof.
  assert (∀ l', List.NoDup (map uri l') → uniqueSources l' = l') as Hid.
  { intros l' Hnd. apply (same_keys_same_list uri); [|done|].
    - by rewrite uniqueSources_keys, first_seen_NoDup_id.
    - intros x Hx. eapply last_with_uri_In. by apply uniqueSources_last. }
  split; [apply Hid|]. split.
  - apply Hid. rewrite uniqueSources_keys. apply first_seen_NoDup.
  - rewrite <- (length_map uri (uniqueSources l)), uniqueSources_keys, <- (length_map uri l).
    generalize (map uri l). clear. intros ks.
    induction ks as [|k ks IH]; simpl; [done|].
    pose proof (List.filter_length_le (λ k', negb (String.eqb k' k)) (first_seen ks)). lia.
Qed.

(** ** What the [try] block makes of a payload *)

(** X21.  What the [try] block makes of a payload that parses to a value
    with [choices] (not [null]): the content of the first choice's delta
    when that is a string, also the empty string; and the empty string,
    without raising, when [choices] has no first element, when the first
    choice has no [delta], when the delta has no [content], and whenever the
    content is falsy.  The [try] block raises, and the record is skipped,
    exactly when the payload does not parse, parses to [null], or has no
    [choices] (absent or [null]). *)
Theorem X21_payloads payload :
  (∀ t, JSON_parse payload = Some (delta_json t) → textChunk payload = Some t)
  ∧ (∀ v choices,
       JSON_parse payload = Some v →
       Json.prop "choices" v = Some choices → choices ≠ JNull →
       let firstChoice := Json.index0 choices in
       let deltaField := Json.opt_get "delta" firstChoice in
       let contentField := Json.opt_get "content" deltaField in
       (∀ t, contentField = Some (JString t) → textChunk payload = Some t)
       ∧ (firstChoice = None → textChunk payload = Some "")
       ∧ (deltaField = None → textChunk payload = Some "")
       ∧ (contentField = None → textChunk payload = Some "")
       ∧ (Json.truthy contentField = false → textChunk payload = Some ""))
  ∧ (textChunk payload = None
     ↔ JSON_parse payload = None
       ∨ JSON_parse payload = Some JNull
       ∨ ∃ v, JSON_parse payload = Some v
              ∧ (Json.prop "choices" v = None ∨ Json.prop "choices" v = Some JNull)).
Proof.
  unfold textChunk. split_and!.
  - intros t ->. simpl. by destruct t.
  - intros v choices -> Hchoices Hnull.
    set (firstChoice := Json.index0 choices).
    set (deltaField := Json.opt_get "delta" firstChoice).
    set (contentField := Json.opt_get "content" deltaField).
    cbn [mbind option_bind].
    assert (Json.get "choices" (Some v) = Some (Some choices)) as ->.
    { destruct v; simpl in *; try done. by rewrite Hchoices. }
    cbn [mbind option_bind].
    assert (Json.get0 (Some choices) = Some firstChoice) as ->
      by (by destruct choices).
    cbn [mbind option_bind]. fold deltaField. fold contentField.
    assert (Hfalsy : Json.truthy contentField = false →
              Some (if Json.truthy contentField
                    then match contentField with
                         | Some v => Json.ToString Number_toString v
                         | None => ""
                         end
                    else "") = Some "") by (by intros ->).
    split_and!.
    + intros t ->. by destruct t.
    + intros Hfirst. apply Hfalsy. unfold contentField, deltaField. by rewrite Hfirst.
    + intros Hdelta. apply Hfalsy. unfold contentField. by rewrite Hdelta.
    + intros Hcontent. apply Hfalsy. by rewrite Hcontent.
    + exact Hfalsy.
  - destruct (JSON_parse payload) as [v|]; simpl; [|naive_solver].
    destruct v; simpl; try (split; [done|];
      intros [?|[?|(v & [= <-] & [?|?])]]; done).
    + split; [naive_solver|]. intros [?|[?|(v & [= <-] & [?|?])]]; done.
    + split; [intros _; right; right; eexists; split; [done|by left]|done].
    + split; [intros _; right; right; eexists; split; [done|by left]|done].
    + split; [intros _; right; right; eexists; split; [done|by left]|done].
    + split; [intros _; right; right; eexists; split; [done|by left]|done].
    + destruct (Json.lookup_field "choices" fields) as [c|] eqn:Hc; simpl.
      * destruct c; simpl;
          try (split; [done|]; intros [?|[?|(v & [= <-] & [?|?])]];
               simpl in *; congruence).
        split; [intros _; right; right; eexists; split; [done|by right]|done].
      * split; [intros _; right; right; eexists; split; [done|by left]|done].
Qed.

(** ** Lines that are not records *)

Lemma omap_delta_skip before skipped after :
  Forall (λ r, delta r = None ∧ is_done r = false) skipped →
  omap delta (before_done (before ++ skipped ++ after))
  = omap delta (before_done (before ++ after)).
Proof.
  intros Hskip. induction before as [|r before IH]; simpl app.
  - induction Hskip as [|r skipped [Hr Hd] _ IH]; [done|].
    simpl app. cbn [before_done]. rewrite Hd. cbn [omap list_omap].
    by rewrite Hr.
  - cbn [before_done]. destruct (is_done r); [done|].
    cbn [omap list_omap]. by rewrite IH.
Qed.

Lemma decoded_records records values :
  Forall (λ r, no_newline r = true) records →
  concat_strings values = unlines records →
  decoded values = Some (concat_strings (omap delta (before_done records))).
Proof.
  intros Hrec Hinput. rewrite decoded_lines, Hinput. f_equal.
  unfold lines_text. rewrite <- (string_app_nil_r (unlines records)).
  rewrite (complete_lines_unlines _ _ Hrec). change (complete_lines "") with (@nil string).
  by rewrite app_nil_r, deepseek_lines_deltas.
Qed.

(** X22.  Lines that do not start with [data: ] (comments, [event:] lines,
    the blank lines between events) add nothing and stop nothing: a stream
    with any number of them anywhere decodes like the stream without
    them. *)
Theorem X22_other_lines_ignored before other after values values' :
  Forall (λ r, no_newline r = true) (before ++ other ++ after) →
  Forall (λ r, JS.startsWith "data: " r = false) other →
  concat_strings values = unlines (before ++ other ++ after) →
  concat_strings values' = unlines (before ++ after) →
  decoded values = decoded values'.
Proof.
  intros Hnl Hother Hin Hin'.
  rewrite (decoded_records _ _ Hnl Hin).
  rewrite (decoded_records (before ++ after) values'); [| |done].
  - rewrite omap_delta_skip; [done|].
    eapply Forall_impl; [exact Hother|]. intros r Hr.
    unfold delta, is_done. by rewrite Hr.
  - apply Forall_app in Hnl as [Hb Hnl]. apply Forall_app in Hnl as [_ Ha].
    by apply Forall_app.
Qed.

(** ** The buffer of the reader *)

(** X23.  As long as no [[DONE]] line has been read, the reader goes on
    without raising the stop flag, and after any reads its buffer is the
    text that follows the last line feed of everything read: it holds no
    line feed, and the lines given to the parser, each with its line feed,
    followed by the buffer are the input, character for character. *)
Theorem X23_buffer_is_unfinished_line values :
  let input := concat_strings values in
  Forall (λ r, is_done r = false) (complete_lines input) →
  ∃ l, deepseek_loop false (unpressed values) deepseek_init = Some (false, l)
       ∧ d_buffer l = pending input
       ∧ no_newline (d_buffer l) = true
       ∧ unlines (complete_lines input) +:+ d_buffer l = input.
Proof.
  intros input Hnot.
  rewrite (deepseek_loop_not_done values deepseek_init eq_refl Hnot).
  eexists. split; [done|]. cbn [d_buffer deepseek_init].
  change ("" +:+ concat_strings values) with input.
  split; [done|]. split; [apply pending_no_newline|apply lines_reassemble].
Qed.

(** ** Line endings *)

Lemma trim_end_app_cr s : JS.trim_end (s +:+ CR) = JS.trim_end s.
Proof.
  induction s as [|c s IH]; [done|]. rewrite string_app_cons. simpl. by rewrite IH.
Qed.

Lemma trim_start_app_cr s :
  JS.trim_start (s +:+ CR) = JS.trim_start s +:+ CR
  ∨ (JS.trim_start s = "" ∧ JS.trim_start (s +:+ CR) = "").
Proof.
  induction s as [|c s IH]; [by right|]. rewrite string_app_cons. simpl.
  destruct (JS.is_white c); [done|]. left. by rewrite string_app_cons.
Qed.

Lemma trim_app_cr s : JS.trim (s +:+ CR) = JS.trim s.
Proof.
  unfold JS.trim. destruct (trim_start_app_cr s) as [-> | [-> ->]]; [|done].
  apply trim_end_app_cr.
Qed.

Lemma prefix_app_lacking p c : ∀ s,
  lacks c p = true → String.prefix p (s +:+ String c "") = String.prefix p s.
Proof.
  induction p as [|a p IH]; intros s Hp; [by destruct s|].
  simpl in Hp. apply andb_true_iff in Hp as [Hac Hp]. apply negb_true_iff in Hac.
  destruct s as [|b s].
  - simpl. destruct (ascii_dec a c) as [->|_]; [|done].
    by rewrite Ascii.eqb_refl in Hac.
  - rewrite string_app_cons. simpl. destruct (ascii_dec a b); [by apply IH|done].
Qed.

Lemma prefix_length p : ∀ s, String.prefix p s = true → String.length p ≤ String.length s.
Proof.
  induction p as [|a p IH]; intros [|b s]; simpl; try done; try lia.
  destruct (ascii_dec a b); [|done]. intros H. apply IH in H. lia.
Qed.

Lemma substring_all s : String.substring 0 (String.length s) s = s.
Proof. induction s as [|c s IH]; [done|]. simpl. by rewrite IH. Qed.

Lemma substring_from_app n : ∀ s w,
  n ≤ String.length s → JS.substring_from n (s +:+ w) = JS.substring_from n s +:+ w.
Proof.
  unfold JS.substring_from. induction n as [|n IH]; intros s w Hn.
  - by rewrite !Nat.sub_0_r, !substring_all.
  - destruct s as [|c s]; [simpl in Hn; lia|]. rewrite string_app_cons. simpl.
    apply IH. simpl in Hn. lia.
Qed.

Lemma record_with_cr r :
  is_done (r +:+ CR) = is_done r ∧ delta (r +:+ CR) = delta r.
Proof.
  unfold is_done, delta, payload, JS.startsWith.
  assert (String.prefix "data: " (r +:+ CR) = String.prefix "data: " r) as ->
    by (by apply prefix_app_lacking).
  destruct (String.prefix "data: " r) eqn:Hstart; [|done].
  apply prefix_length in Hstart.
  by rewrite substring_from_app, trim_app_cr by exact Hstart.
Qed.

(** X24.  Records ended by carriage return and line feed decode like the
    same records ended by a line feed alone: the carriage return is trimmed
    off the payload before it is compared with [[DONE]] and parsed. *)
Theorem X24_crlf_line_endings records values values' :
  Forall (λ r, no_newline r = true) records →
  concat_strings values = unlines (map (λ r, r +:+ CR) records) →
  concat_strings values' = unlines records →
  decoded values = decoded values'.
Proof.
  intros Hnl Hin Hin'.
  rewrite (decoded_records _ _ Hnl Hin').
  rewrite (decoded_records (map (λ r, r +:+ CR) records) values); [| |done].
  - f_equal. f_equal. clear. induction records as [|r records IH]; [done|].
    destruct (record_with_cr r) as [Hd Hdelta].
    cbn [map before_done]. rewrite Hd. destruct (is_done r); [done|].
    cbn [omap list_omap]. by rewrite Hdelta, IH.
  - apply Forall_map. eapply Forall_impl; [exact Hnl|]. intros r Hr. simpl.
    by rewrite no_newline_app, Hr.
Qed.

(** ** The page and the server function together *)

Lemma deepseek_lines_no_data lines : ∀ full,
  Forall (λ r, JS.startsWith "data: " r = false) lines →
  deepseek_lines lines full = (full, false).
Proof.
  induction lines as [|r lines IH]; intros full Hall; [done|].
  apply Forall_cons in Hall as [Hr Hall]. cbn [deepseek_lines].
  rewrite Hr. by apply IH.
Qed.

(** X8.  The server function answers 500 without contacting the backend
    when no key is configured, and the page then commits nothing.  With a
    key it answers 200 with the backend's body whatever status the backend
    gave: the page takes every such answer for a success, so a body without
    any [data: ] line, such as the body of an error, ends in a committed
    model turn with empty content, and any other body in a model turn with
    the text decoded from it. *)
Theorem X8_backend_status_not_passed_on apiKey upstream stamp userMessage s :
  stopGeneration s = false →
  let history := deepseek_history (chatHistoryArray s) in
  let run := proxied_run apiKey history upstream stamp in
  let s' := sendMessageWithDeepSeek userMessage None run s in
  (JS.truthy_ostring apiKey = false →
     Proxy.status (Proxy.handler apiKey history upstream) = 500
     ∧ (∀ upstream', Proxy.handler apiKey history upstream'
                     = Proxy.handler apiKey history upstream)
     ∧ chatHistoryArray s' = chatHistoryArray s
     ∧ storedChats s' = storedChats s)
  ∧ (∀ key, apiKey = Some key → JS.truthy_string key = true →
       let backend := upstream (upstream_request key history) in
       Proxy.status (Proxy.handler apiKey history upstream) = 200
       ∧ Proxy.body (Proxy.handler apiKey history upstream) = Proxy.body backend
       ∧ (∃ m, chatHistoryArray s' = chatHistoryArray s ++ [m]
               ∧ sender m = sender_model
               ∧ Some (content m) = decoded (Proxy.body backend)
               ∧ (Forall (λ r, JS.startsWith "data: " r = false)
                         (complete_lines (concat_strings (Proxy.body backend))) →
                    content m = ""))).
Proof.
  intros Hstop history run s'. subst s'. rewrite sendMessageWithDeepSeek_outcome.
  unfold deepseek_outcome, run, proxied_run, client_fetch, Proxy.handler.
  cbn [response]. split.
  - intros ->. by split_and!.
  - intros key -> Hkey. cbn [JS.truthy_ostring JS.nullish]. rewrite Hkey.
    set (backend := upstream _).
    unfold Proxy.ok. cbn [Proxy.status Proxy.body]. split; [done|]. split; [done|].
    change (200 <=? 200) with true. change (200 <=? 299) with true. cbn [andb].
    rewrite Hstop.
    destruct (deepseek_loop_unpressed JSON_parse Number_toString (Proxy.body backend)
                deepseek_init eq_refl) as (stop & l & -> & Htext).
    eexists. split; [apply committed_state_history|]. split; [done|].
    cbn [content deepseek_message]. rewrite decoded_lines, Htext.
    split; [done|]. intros Hnone. unfold lines_text. cbn [d_buffer d_fullResponse deepseek_init].
    change ("" +:+ ?x) with x. by rewrite deepseek_lines_no_data.
Qed.

(** ** The buttons drawn after a send *)

Lemma appendMessage_actions_regenerate s msg index :
  Regenerate ∈ appendMessage_actions s msg index
  ↔ sender msg = sender_model ∧ S index = length (chatHistoryArray s).
Proof.
  unfold appendMessage_actions. destruct (sender msg).
  - split; [|by intros [? _]]. case_match; [|by intros ?%elem_of_nil].
    by intros ?%list_elem_of_singleton.
  - case_match eqn:Hi.
    + apply Z.eqb_eq in Hi. split; [intros _; split; [done|lia]|].
      intros _. apply list_elem_of_In. simpl. do 4 right. by left.
    + apply Z.eqb_neq in Hi. split; [|intros [_ Hlen]; lia].
      intros Hin%list_elem_of_In. simpl in Hin. by decompose [or] Hin.
Qed.

Lemma appendMessage_actions_edit s msg index :
  EditMessage ∈ appendMessage_actions s msg index
  ↔ sender msg = sender_user ∧ S (S index) = length (chatHistoryArray s).
Proof.
  unfold appendMessage_actions. destruct (sender msg).
  - case_match eqn:Hi.
    + apply Z.eqb_eq in Hi. split; [intros _; split; [done|lia]|].
      intros _. apply list_elem_of_In. by left.
    + apply Z.eqb_neq in Hi. split; [by intros ?%elem_of_nil|intros [_ Hlen]; lia].
  - split; [|by intros [? _]].
    intros Hin%list_elem_of_In. case_match; simpl in Hin; by decompose [or] Hin.
Qed.

Lemma renderHistory_actions_lookup now s i bs :
  chatHistoryArray s ≠ [] →
  renderHistory_actions now s !! i = Some bs
  ↔ ∃ msg, chatHistoryArray s !! i = Some msg ∧ bs = appendMessage_actions s msg i.
Proof.
  intros Hne. unfold renderHistory_actions.
  destruct (chatHistoryArray s) as [|m h] eqn:Hh; [done|].
  rewrite list_lookup_imap. destruct ((m :: h) !! i) as [msg|]; simpl.
  - split; [intros [= <-]; by exists msg|]. by intros (? & [= <-] & ->).
  - split; [done|]. by intros (? & ? & _).
Qed.

(** X14.  What [renderHistory] draws at the end of a send that began with
    the user's turn last and that reaches its [finally] block (the
    text-delta sender given a file returns before that).  When the request
    failed, no message carries a Regenerate button, the turn that failed
    carries no button at all, and an Edit button is drawn only on the turn
    just before it and only when that is a user turn too, as after two
    requests that failed in a row: with a model turn before the failed turn,
    or none, the page offers neither Edit nor Regenerate.  When a model turn
    was committed, Regenerate is on that turn alone and Edit on the user's
    turn before it alone. *)
Theorem X14_buttons_after_send now userMessage f run s init userTurn :
  chatHistoryArray s = init ++ [userTurn] →
  sender userTurn = sender_user →
  ¬ file_refused f s →
  let s' := sendMessage userMessage f run s in
  let drawn := renderHistory_actions now s' in
  (session_fails f run s →
     drawn !! length init = Some []
     ∧ (∀ i buttons, drawn !! i = Some buttons →
          ¬ (Regenerate ∈ buttons)
          ∧ (EditMessage ∈ buttons
             ↔ S i = length init ∧ ∃ m, init !! i = Some m ∧ sender m = sender_user))
     ∧ ((∀ m, last init = Some m → sender m = sender_model) →
          ∀ i buttons, drawn !! i = Some buttons →
            ¬ (EditMessage ∈ buttons) ∧ ¬ (Regenerate ∈ buttons)))
  ∧ (¬ session_fails f run s →
       ∀ i buttons, drawn !! i = Some buttons →
         (Regenerate ∈ buttons ↔ i = S (length init))
         ∧ (EditMessage ∈ buttons ↔ i = length init)).
Proof.
  intros Hh Huser Hrefused s' drawn.
  destruct (sendMessage_cases JSON_parse Number_toString userMessage f run s)
    as [(Hfails & Hh' & _) | (Hok & m & stop & Hm & Hsend)].
  - split; [|done]. intros _.
    fold s' in Hh'. rewrite Hh in Hh'.
    assert (Hne : chatHistoryArray s' ≠ []) by (rewrite Hh'; by destruct init).
    assert (Hgeneral : ∀ i buttons, drawn !! i = Some buttons →
              ¬ (Regenerate ∈ buttons)
              ∧ (EditMessage ∈ buttons
                 ↔ S i = length init
                   ∧ ∃ m, init !! i = Some m ∧ sender m = sender_user)).
    { intros i buttons Hdrawn.
      apply renderHistory_actions_lookup in Hdrawn as (msg & Hmsg & ->); [|done].
      rewrite appendMessage_actions_edit, appendMessage_actions_regenerate.
      rewrite Hh' in Hmsg |- *. rewrite length_app. simpl. split.
      - intros [Hs Hi]. assert (i = length init) as -> by lia.
        rewrite list_lookup_middle in Hmsg by done. congruence.
      - split.
        + intros [Hs Hi]. split; [lia|]. exists msg. split; [|done].
          rewrite lookup_app_l in Hmsg by lia. done.
        + intros (Hi & m & Hm & Hs). split; [|lia].
          rewrite lookup_app_l in Hmsg by lia. congruence. }
    split_and!.
    + apply renderHistory_actions_lookup; [done|]. exists userTurn.
      split; [rewrite Hh'; by apply list_lookup_middle|].
      unfold appendMessage_actions. rewrite Huser, Hh', length_app. simpl.
      case_match eqn:Hi; [|done]. apply Z.eqb_eq in Hi. lia.
    + exact Hgeneral.
    + intros Hlast i buttons Hdrawn.
      destruct (Hgeneral i buttons Hdrawn) as [Hregenerate Hedit].
      split; [|done]. intros (Hi & m & Hm & Hs)%Hedit.
      assert (last init = Some m) as Hl.
      { rewrite last_lookup, <- Hi. done. }
      specialize (Hlast _ Hl). congruence.
  - split; [done|]. intros _ i buttons Hdrawn.
    assert (chatHistoryArray s' = init ++ [userTurn; m]) as Hh'.
    { unfold s'. rewrite Hsend, committed_state_history, Hh, <- app_assoc. done. }
    apply renderHistory_actions_lookup in Hdrawn as (msg & Hmsg & ->);
      [|rewrite Hh'; by destruct init].
    rewrite appendMessage_actions_edit, appendMessage_actions_regenerate.
    rewrite Hh' in Hmsg |- *. rewrite length_app. simpl.
    split; split.
    + intros [_ Hi]. lia.
    + intros ->. split; [|lia].
      rewrite (lookup_app_r init) in Hmsg by lia.
      replace (S (length init) - length init) with 1 in Hmsg by lia.
      simpl in Hmsg. congruence.
    + intros [_ Hi]. lia.
    + intros ->. split; [|lia].
      rewrite list_lookup_middle in Hmsg by done. congruence.
Qed.

End MoreFacts.

(* ===================================================================== *)
(** * The code renderer *)
(* ===================================================================== *)

Lemma replace_all_app c by_ a b :
  Renderer.replace_all c by_ (a +:+ b)
  = Renderer.replace_all c by_ a +:+ Renderer.replace_all c by_ b.
Proof.
  induction a as [|x a IH]; [done|]. rewrite string_app_cons.
  cbn [Renderer.replace_all]. destruct (Ascii.eqb x c); rewrite IH.
  - by rewrite string_app_assoc.
  - by rewrite string_app_cons.
Qed.

Lemma sanitizedCode_cons c code :
  Renderer.sanitizedCode (String c code) = entity c +:+ Renderer.sanitizedCode code.
Proof.
  unfold Renderer.sanitizedCode, entity. cbn [Renderer.replace_all].
  destruct (Ascii.eqb c Renderer.amp) eqn:Hamp.
  - by rewrite !replace_all_app.
  - cbn [Renderer.replace_all]. destruct (Ascii.eqb c Renderer.lt) eqn:Hlt.
    + by rewrite !replace_all_app.
    + cbn [Renderer.replace_all]. by destruct (Ascii.eqb c Renderer.gt).
Qed.

Lemma sanitizedCode_escape code : Renderer.sanitizedCode code = escape code.
Proof.
  induction code as [|c code IH]; [done|].
  rewrite sanitizedCode_cons. cbn [escape]. by rewrite IH.
Qed.

Lemma lacks_app c a b : lacks c (a +:+ b) = lacks c a && lacks c b.
Proof.
  induction a as [|x a IH]; [done|]. rewrite string_app_cons. cbn [lacks].
  rewrite IH. by rewrite andb_assoc.
Qed.

Lemma entity_cases c :
  (c = Renderer.amp ∧ entity c = "&amp;")
  ∨ (c = Renderer.lt ∧ entity c = "&lt;")
  ∨ (c = Renderer.gt ∧ entity c = "&gt;")
  ∨ (Ascii.eqb c Renderer.amp = false ∧ Ascii.eqb c Renderer.lt = false
     ∧ Ascii.eqb c Renderer.gt = false ∧ entity c = String c "").
Proof.
  unfold entity.
  destruct (Ascii.eqb c Renderer.amp) eqn:Hamp; [left; by apply Ascii.eqb_eq in Hamp|].
  destruct (Ascii.eqb c Renderer.lt) eqn:Hlt; [right; left; by apply Ascii.eqb_eq in Hlt|].
  destruct (Ascii.eqb c Renderer.gt) eqn:Hgt;
    [right; right; left; by apply Ascii.eqb_eq in Hgt|].
  by right; right; right.
Qed.

Lemma unescape_other c rest :
  Ascii.eqb c Renderer.amp = false → unescape (String c rest) = String c (unescape rest).
Proof.
  intros Hc.
  destruct c as [[] [] [] [] [] [] [] []]; try done.
Qed.

Lemma unescape_entity c rest : unescape (entity c +:+ rest) = String c (unescape rest).
Proof.
  destruct (entity_cases c) as [[-> ->]|[[-> ->]|[[-> ->]|(Hamp & _ & _ & ->)]]]; try done.
  rewrite string_app_cons. by apply unescape_other.
Qed.

Lemma string_length_app (a b : string) :
  String.length (a +:+ b) = String.length a + String.length b.
Proof. induction a as [|x a IH]; [done|]. rewrite string_app_cons. simpl. by rewrite IH. Qed.

Lemma sanitizedCode_length code :
  String.length code ≤ String.length (Renderer.sanitizedCode code).
Proof.
  induction code as [|c code IH]; [done|].
  rewrite sanitizedCode_cons, string_length_app.
  destruct (entity_cases c) as [[-> ->]|[[-> ->]|[[-> ->]|(_ & _ & _ & ->)]]]; simpl; lia.
Qed.

Lemma sanitizedCode_same_length code :
  String.length (Renderer.sanitizedCode code) = String.length code →
  lacks Renderer.amp code = true.
Proof.
  induction code as [|c code IH]; [done|].
  rewrite sanitizedCode_cons, string_length_app. cbn [lacks].
  pose proof (sanitizedCode_length code) as Hle.
  destruct (entity_cases c) as [[-> ->]|[[-> ->]|[[-> ->]|(Hamp & _ & _ & ->)]]];
    simpl String.length; intros Hlen; try lia.
  rewrite Hamp. apply IH. lia.
Qed.

(** X25.  The three replacements of the code renderer, made one after the
    other, write what one pass over the characters writes: the ampersands of
    the entities written for [<] and [>] are not escaped again, since the
    ampersands are replaced first.  The result holds no [<] and no [>],
    every ampersand in it starts one of the three entities, so that reading
    the entities back gives the code, character for character; code without
    the three characters is left as it is. *)
Theorem X25_rendered_code_escaped code :
  Renderer.sanitizedCode code = escape code
  ∧ lacks Renderer.lt (Renderer.sanitizedCode code) = true
  ∧ lacks Renderer.gt (Renderer.sanitizedCode code) = true
  ∧ unescape (Renderer.sanitizedCode code) = code
  ∧ (lacks Renderer.amp code && lacks Renderer.lt code && lacks Renderer.gt code = true
     ↔ Renderer.sanitizedCode code = code).
Proof.
  split; [apply sanitizedCode_escape|].
  assert (Hback : ∀ code, unescape (Renderer.sanitizedCode code) = code).
  { clear code. intros code. induction code as [|c code IH]; [done|].
    rewrite sanitizedCode_cons, unescape_entity. by rewrite IH. }
  split_and!.
  - induction code as [|c code IH]; [done|].
    rewrite sanitizedCode_cons, lacks_app, IH.
    by destruct (entity_cases c) as [[-> ->]|[[-> ->]|[[-> ->]|(_ & Hlt & _ & ->)]]];
      cbn [lacks]; rewrite ?Hlt.
  - induction code as [|c code IH]; [done|].
    rewrite sanitizedCode_cons, lacks_app, IH.
    by destruct (entity_cases c) as [[-> ->]|[[-> ->]|[[-> ->]|(_ & _ & Hgt & ->)]]];
      cbn [lacks]; rewrite ?Hgt.
  - apply Hback.
  - split.
    + induction code as [|c code IH]; [done|]. cbn [lacks].
      intros Hc. rewrite sanitizedCode_cons.
      destruct (Ascii.eqb c Renderer.amp) eqn:Hamp; [done|].
      destruct (Ascii.eqb c Renderer.lt) eqn:Hlt; [by rewrite andb_false_r in Hc|].
      destruct (Ascii.eqb c Renderer.gt) eqn:Hgt; [by rewrite andb_false_r in Hc|].
      unfold entity. rewrite Hamp, Hlt, Hgt. rewrite string_app_cons.
      cbn [negb andb] in Hc. by rewrite (IH Hc).
    + intros Hsame.
      assert (Hlt : lacks Renderer.lt code = true).
      { rewrite <- Hsame. clear Hsame. induction code as [|c code IH]; [done|].
        rewrite sanitizedCode_cons, lacks_app, IH.
        by destruct (entity_cases c) as [[-> ->]|[[-> ->]|[[-> ->]|(_ & Hlt & _ & ->)]]];
          cbn [lacks]; rewrite ?Hlt. }
      assert (Hgt : lacks Renderer.gt code = true).
      { rewrite <- Hsame. clear Hsame Hlt. induction code as [|c code IH]; [done|].
        rewrite sanitizedCode_cons, lacks_app, IH.
        by destruct (entity_cases c) as [[-> ->]|[[-> ->]|[[-> ->]|(_ & _ & Hgt & ->)]]];
          cbn [lacks]; rewrite ?Hgt. }
      rewrite Hlt, Hgt, !andb_true_r.
      apply sanitizedCode_same_length. by rewrite Hsame.
Qed.

(* ===================================================================== *)
(** * Single user authentication *)
(* ===================================================================== *)

Lemma startup_profile u localS tabS :
  Auth.currentUserProfile (Auth.startup (Some u) localS tabS) = u
  ∧ Auth.localProfile (Auth.startup (Some u) localS tabS) = Some u
  ∧ Auth.localSession (Auth.startup (Some u) localS tabS) = localS
  ∧ Auth.tabSession (Auth.startup (Some u) localS tabS) = tabS
  ∧ Auth.logged_in (Auth.startup (Some u) localS tabS)
    = Auth.is_true localS || Auth.is_true tabS.
Proof. done. Qed.

Lemma startup_session profile localS tabS :
  Auth.localSession (Auth.startup profile localS tabS) = localS
  ∧ Auth.tabSession (Auth.startup profile localS tabS) = tabS
  ∧ Auth.logged_in (Auth.startup profile localS tabS)
    = Auth.is_true localS || Auth.is_true tabS.
Proof. by destruct profile. Qed.

Lemma login_accepts emailInput passwordInput rememberMe p :
  Auth.logged_in p = false →
  (Auth.logged_in (Auth.login emailInput passwordInput rememberMe p) = true
   ↔ emailInput = Auth.email (Auth.currentUserProfile p)
     ∧ passwordInput = Auth.password (Auth.currentUserProfile p)).
Proof.
  intros Hout. unfold Auth.login.
  destruct (String.eqb emailInput _) eqn:He; cbn [andb].
  - destruct (String.eqb passwordInput _) eqn:Hp.
    + apply String.eqb_eq in He, Hp. by cbn [Auth.logged_in].
    + apply String.eqb_neq in Hp. rewrite Hout. split; [done|]. by intros [_ Hp'].
  - apply String.eqb_neq in He. rewrite Hout. split; [done|]. by intros [He' _].
Qed.

(** X26.  [handleProfileSave] keeps, for each field, the trimmed input, or
    the former value when the trimmed input is empty, and stores the profile
    it leaves in memory.  After a logout, which loads the page again, the
    login form accepts exactly the stored email and password, compared
    character for character: a password typed with the white space that the
    profile form trimmed away is refused. *)
Theorem X26_profile_saved_then_login nameInput emailInput passwordInput p :
  let before := Auth.currentUserProfile p in
  let p' := Auth.handleProfileSave nameInput emailInput passwordInput p in
  let u := Auth.currentUserProfile p' in
  let kept (input former : string) :=
    if JS.truthy_string (JS.trim input) then JS.trim input else former in
  u = {| Auth.name := kept nameInput (Auth.name before);
         Auth.email := kept emailInput (Auth.email before);
         Auth.password := kept passwordInput (Auth.password before) |}
  ∧ Auth.localProfile p' = Some u
  ∧ Auth.currentUserProfile (Auth.logout p') = u
  ∧ Auth.logged_in (Auth.logout p') = false
  ∧ (∀ typedEmail typedPassword rememberMe,
       Auth.logged_in (Auth.login typedEmail typedPassword rememberMe (Auth.logout p')) = true
       ↔ typedEmail = Auth.email u ∧ typedPassword = Auth.password u).
Proof.
  intros before p' u kept.
  assert (Hstored : Auth.localProfile p' = Some u) by done.
  split_and!.
  - done.
  - done.
  - unfold Auth.logout. rewrite Hstored. apply startup_profile.
  - unfold Auth.logout. by rewrite Hstored.
  - intros typedEmail typedPassword rememberMe.
    rewrite login_accepts; unfold Auth.logout; rewrite Hstored; done.
Qed.

(** X27.  A login with the profile's email and password on a page where no
    session marker is set writes one marker: into [localStorage] when
    [rememberMe] is ticked, into [sessionStorage] when it is not.  Loading
    the page again in the same tab finds the user logged in either way; a
    page loaded where [sessionStorage] is empty, as in a new tab, finds the
    user logged in exactly when [rememberMe] was ticked.  A logout removes
    both markers, so that no page loaded afterwards is logged in. *)
Theorem X27_session_lifetime rememberMe tabS p :
  Auth.session_found p = false →
  let u := Auth.currentUserProfile p in
  let p' := Auth.login (Auth.email u) (Auth.password u) rememberMe p in
  Auth.logged_in p' = true
  ∧ Auth.logged_in
      (Auth.startup (Auth.localProfile p') (Auth.localSession p') (Auth.tabSession p'))
    = true
  ∧ Auth.logged_in (Auth.startup (Auth.localProfile p') (Auth.localSession p') None)
    = rememberMe
  ∧ Auth.localSession (Auth.logout p') = None
  ∧ Auth.tabSession (Auth.logout p') = None
  ∧ Auth.logged_in
      (Auth.startup (Auth.localProfile (Auth.logout p'))
                    (Auth.localSession (Auth.logout p')) tabS)
    = Auth.is_true tabS.
Proof.
  intros Hout u p'. unfold Auth.session_found in Hout.
  apply orb_false_iff in Hout as [Hlocal Htab].
  assert (Hin : p' = {| Auth.currentUserProfile := u;
                        Auth.localProfile := Auth.localProfile p;
                        Auth.localSession :=
                          if rememberMe then Some "true" else Auth.localSession p;
                        Auth.tabSession :=
                          if rememberMe then Auth.tabSession p else Some "true";
                        Auth.logged_in := true |}).
  { unfold p', Auth.login. by rewrite !String.eqb_refl. }
  rewrite Hin. cbn [Auth.logged_in Auth.localSession Auth.tabSession Auth.localProfile].
  unfold Auth.logout. cbn [Auth.localProfile].
  split_and!; try done.
  - destruct (startup_session (Auth.localProfile p)
                (if rememberMe then Some "true" else Auth.localSession p)
                (if rememberMe then Auth.tabSession p else Some "true"))
      as (_ & _ & ->).
    by destruct rememberMe; rewrite ?orb_true_r.
  - destruct (startup_session (Auth.localProfile p)
                (if rememberMe then Some "true" else Auth.localSession p) None)
      as (_ & _ & ->).
    destruct rememberMe; [done|]. by rewrite Hlocal.
  - apply startup_session.
  - apply startup_session.
  - set (q := Auth.startup (Auth.localProfile p) None None).
    destruct (startup_session (Auth.localProfile p) None None) as (Hl & _ & _).
    fold q in Hl. rewrite Hl.
    by destruct (startup_session (Auth.localProfile q) None tabS) as (_ & _ & ->).
Qed.

(* ===================================================================== *)
(** * The sidebar *)
(* ===================================================================== *)

Lemma sort_insert_Permutation {A} (compareFn : A → A → Z) x l :
  Sidebar.sort_insert compareFn x l ≡ₚ x :: l.
Proof.
  induction l as [|y l IH]; [done|]. simpl.
  destruct (0 <? compareFn x y)%Z; [|done].
  rewrite IH. apply Permutation_swap.
Qed.

Lemma sort_Permutation {A} (compareFn : A → A → Z) l : Sidebar.sort compareFn l ≡ₚ l.
Proof.
  induction l as [|x l IH]; [done|]. simpl.
  by rewrite sort_insert_Permutation, IH.
Qed.

Lemma filter_complement_Permutation {A} (p : A → bool) l :
  List.filter (λ x, negb (p x)) l ++ List.filter p l ≡ₚ l.
Proof.
  induction l as [|x l IH]; [done|]. simpl. destruct (p x); simpl.
  - rewrite <- Permutation_middle. by rewrite IH.
  - by rewrite IH.
Qed.

Section SidebarFacts.
Variable localeCompare : string → string → Z.

Lemma sort_insert_pinned_first x l :
  pinned_first l → pinned_first (Sidebar.sort_insert (Sidebar.compare_active localeCompare) x l).
Proof.
  intros (front & back & -> & Hfront & Hback).
  induction front as [|y front IH].
  - simpl app. destruct (JS.truthy_bool (pinned x)) eqn:Hx.
    + exists [x], back. split; [|by repeat constructor].
      destruct back as [|y back]; [done|]. simpl.
      apply Forall_cons in Hback as [Hy _].
      unfold Sidebar.compare_active. by rewrite Hx, Hy.
    + exists [], (Sidebar.sort_insert (Sidebar.compare_active localeCompare) x back).
      split; [done|]. split; [done|].
      clear -Hx Hback. induction back as [|y back IH]; [by repeat constructor|].
      apply Forall_cons in Hback as [Hy Hback]. simpl.
      destruct (0 <? _)%Z; repeat constructor; auto.
  - apply Forall_cons in Hfront as [Hy Hfront]. simpl.
    destruct (0 <? _)%Z eqn:Hcmp.
    + destruct (IH Hfront) as (front' & back' & -> & Hfront' & Hback').
      exists (y :: front'), back'. by repeat constructor.
    + destruct (JS.truthy_bool (pinned x)) eqn:Hx.
      * exists (x :: y :: front), back. by repeat constructor.
      * unfold Sidebar.compare_active in Hcmp. by rewrite Hx, Hy in Hcmp.
Qed.

Lemma sort_pinned_first l :
  pinned_first (Sidebar.sort (Sidebar.compare_active localeCompare) l).
Proof.
  induction l as [|x l IH]; [by exists [], []|].
  simpl. by apply sort_insert_pinned_first.
Qed.

(** X15.  The sidebar lists every catalog entry exactly once, whatever the
    order that [localeCompare] gives the ids: the entries that are not
    archived in the list of conversations, the pinned ones before all the
    others, and the archived entries in the archive section, which is drawn
    only when there is such an entry and whose header counts them.  An
    archived item gets the buttons Unarchive and Delete and no Pin button;
    the other items get Pin, Archive and Delete. *)
Theorem X15_sidebar_lists_every_entry_once s :
  let drawn := Sidebar.renderSidebar localeCompare s in
  Sidebar.activeItems drawn ++ archivedItems drawn ≡ₚ chatIndex s
  ∧ Forall (λ c, JS.truthy_bool (archived c) = false
                 ∧ Sidebar.createConversationItem_actions c
                   = [Sidebar.Pin (JS.truthy_bool (pinned c)); Sidebar.Archive;
                      Sidebar.Delete])
      (Sidebar.activeItems drawn)
  ∧ Forall (λ c, JS.truthy_bool (archived c) = true
                 ∧ Sidebar.createConversationItem_actions c
                   = [Sidebar.Unarchive; Sidebar.Delete])
      (archivedItems drawn)
  ∧ pinned_first (Sidebar.activeItems drawn)
  ∧ match Sidebar.archiveSection drawn with
    | Some (count, items) => count = length items ∧ 0 < count
    | None => Forall (λ c, JS.truthy_bool (archived c) = false) (chatIndex s)
    end.
Proof.
  intros drawn.
  set (activeChats := List.filter (λ c, negb (JS.truthy_bool (archived c))) (chatIndex s)).
  set (archivedChats := List.filter (λ c, JS.truthy_bool (archived c)) (chatIndex s)).
  assert (Hactive : Sidebar.activeItems drawn
                    = Sidebar.sort (Sidebar.compare_active localeCompare) activeChats)
    by done.
  assert (Harchived : archivedItems drawn ≡ₚ archivedChats).
  { unfold archivedItems, drawn, Sidebar.renderSidebar. cbn [Sidebar.archiveSection].
    fold archivedChats. destruct archivedChats as [|c l]; [done|].
    change (0 <? length (c :: l))%nat with true. cbv iota. apply sort_Permutation. }
  split_and!.
  - rewrite Hactive, Harchived, sort_Permutation.
    apply (filter_complement_Permutation (λ c, JS.truthy_bool (archived c))).
  - rewrite Hactive, sort_Permutation. apply List.Forall_forall.
    intros c [_ Hc]%filter_In. apply negb_true_iff in Hc.
    unfold Sidebar.createConversationItem_actions. by rewrite Hc.
  - rewrite Harchived. apply List.Forall_forall.
    intros c [_ Hc]%filter_In.
    unfold Sidebar.createConversationItem_actions. by rewrite Hc.
  - rewrite Hactive. apply sort_pinned_first.
  - unfold drawn, Sidebar.renderSidebar. cbn [Sidebar.archiveSection].
    fold archivedChats. destruct archivedChats as [|c l] eqn:Hl.
    + change (0 <? length [])%nat with false. cbv iota.
      apply List.Forall_forall. intros c Hc.
      destruct (JS.truthy_bool (archived c)) eqn:Harch; [|done].
      assert (In c archivedChats) as Hin by (apply filter_In; done).
      rewrite Hl in Hin. done.
    + change (0 <? length (c :: l))%nat with true. cbv iota.
      split; [|simpl; lia].
      apply Permutation_length. symmetry. apply sort_Permutation.
Qed.

End SidebarFacts.

(* ===================================================================== *)
(** * The further theorems on concrete pages *)
(* ===================================================================== *)

(** A page loaded over two conversations, after the sample actions. *)
Lemma X1_catalog_survives_reload_witness :
  let s := perform_all toy_parse toy_number sample_actions
             (loaded_page (Some two_chats_index) two_chats_store) in
  getChatIndex s = chatIndex s ∧ chatIndex (reload s) = chatIndex s.
Proof.
  exact (X1_catalog_survives_reload toy_parse toy_number
           (Some two_chats_index) two_chats_store sample_actions).
Defined.

Lemma X3_no_orphan_conversations_witness :
  let s := perform_all toy_parse toy_number sample_actions
             (loaded_page (Some two_chats_index) two_chats_store) in
  (∀ chatId, is_Some (storedChats s !! chatId) → In chatId (map id (chatIndex s)))
  ∧ (∀ aid, activeChatId s = Some aid → In aid (map id (chatIndex s))).
Proof.
  apply (X3_no_orphan_conversations toy_parse toy_number
           (Some two_chats_index) two_chats_store sample_actions).
  intros chatId [stored Hstored]. unfold two_chats_store in Hstored.
  apply lookup_singleton_Some in Hstored as [<- _]. simpl. by right; left.
Defined.

(** Conversation [chat_1] with one turn in memory and two in storage. *)
Lemma X4_switch_and_return_witness :
  let s := state_of two_chats_index (Some "chat_1") [user_turn "hi"] two_chats_store in
  chatHistoryArray (loadChat "chat_1" (loadChat "chat_2" (saveCurrentChat s)))
  = [user_turn "hi"]
  ∧ chatHistoryArray (loadChat "chat_1" (loadChat "chat_2" s))
    = [user_turn "plan"; model_turn "ok"].
Proof.
  intros s.
  destruct (X4_switch_and_return s "chat_1" "chat_2") as [Hsaved Hlost];
    [reflexivity | reflexivity | discriminate |].
  split.
  - apply Hsaved. split; [by repeat constructor | done].
  - apply (Hlost stored_plans). reflexivity.
Defined.

(** A pinned entry toggled twice. *)
Lemma X7_toggle_twice_witness :
  let s := state_of [pinned_entry] (Some "chat_2") [] ∅ in
  chatIndex (togglePin "chat_2" (togglePin "chat_2" s))
  = [ {| id := "chat_2"; title := "Plans"; pinned := Some true; archived := None |} ]
  ∧ chatIndex (toggleArchive "chat_2" (toggleArchive "chat_2" s))
    = [ {| id := "chat_2"; title := "Plans"; pinned := Some false;
           archived := Some false |} ].
Proof.
  intros s.
  destruct (X7_toggle_twice "chat_2" s pinned_entry) as [[Hpin _] [Harchive _]];
    [reflexivity|].
  split; [exact Hpin | exact Harchive].
Defined.

(** A click on the one archived entry of a catalog. *)
Lemma X9_click_archived_restores_witness :
  let s := state_of [archived_entry] None [] {[ "chat_1" := stored_plans ]} in
  let s' := clickConversation 0 s in
  activeChatId s' = Some "chat_1"
  ∧ find_by_id "chat_1" (chatIndex s')
    = Some {| id := "chat_1"; title := "Notes"; pinned := Some false;
              archived := Some false |}
  ∧ chatHistoryArray s' = [user_turn "plan"; model_turn "ok"].
Proof.
  intros s s'.
  destruct (X9_click_archived_restores 0 s archived_entry) as (Hactive & Hentry & Hturns);
    [reflexivity | reflexivity | reflexivity |].
  split; [exact Hactive|]. split; [exact Hentry|].
  apply (Hturns stored_plans); [discriminate | reflexivity].
Defined.

(** The first message of a page that has no conversation. *)
Lemma X12_first_message_creates_entry_witness :
  let s := state_of [] None [] ∅ in
  let s' := handleFormSubmit toy_parse toy_number "  hello  " 1735725600000
              "2025-01-01T10:00:00.000Z" answering_run s in
  ∃ entry, chatIndex s' = [entry]
           ∧ storedIndex s' = Some [entry]
           ∧ id entry = "chat_1735725600000"
           ∧ activeChatId s' = Some "chat_1735725600000"
           ∧ title entry = "hello".
Proof.
  intros s s'.
  destruct (X12_first_message_creates_entry toy_parse toy_number "  hello  " 1735725600000
              "2025-01-01T10:00:00.000Z" answering_run s _ _ eq_refl) as [Hnew _].
  destruct (Hnew eq_refl)
    as (entry & Hindex & Hstored & Hid & Hactive & _ & _ & _ & _ & _ & Htitle).
  exists entry. fold s' in Hindex, Hstored, Hactive.
  split; [exact Hindex|]. split; [by rewrite Hstored, Hindex|].
  split; [exact Hid|]. split; [exact Hactive|].
  apply Htitle. discriminate.
Defined.

(** The buttons after a request that failed, after a second one that failed
    on top of it, and after one that was answered. *)
Lemma X14_buttons_after_send_witness :
  let now := "2025-01-01T10:00:09.000Z" in
  let s := chat_state [user_turn "hi"] in
  let twice := chat_state [user_turn "first"; user_turn "second"] in
  let failed := renderHistory_actions now
                  (sendMessage toy_parse toy_number "hi" None failing_run s) in
  let failed_twice := renderHistory_actions now
                        (sendMessage toy_parse toy_number "second" None failing_run twice) in
  let answered := renderHistory_actions now
                    (sendMessage toy_parse toy_number "hi" None answering_run s) in
  (∀ i buttons, failed !! i = Some buttons →
     ¬ (EditMessage ∈ buttons) ∧ ¬ (Regenerate ∈ buttons))
  ∧ failed_twice !! 1 = Some []
  ∧ (∀ i buttons, failed_twice !! i = Some buttons →
       ¬ (Regenerate ∈ buttons) ∧ (EditMessage ∈ buttons → i = 0))
  ∧ (∀ i buttons, answered !! i = Some buttons →
       (Regenerate ∈ buttons ↔ i = 1) ∧ (EditMessage ∈ buttons ↔ i = 0)).
Proof.
  intros now s twice failed failed_twice answered.
  assert (Hrefused : ∀ s0, currentSettings s0 = empty_settings → ¬ file_refused None s0)
    by (by intros s0 _ [_ Hfile]).
  destruct (X14_buttons_after_send toy_parse toy_number now "hi" None failing_run s []
              (user_turn "hi") eq_refl eq_refl (Hrefused s eq_refl)) as [Hfailed _].
  destruct (X14_buttons_after_send toy_parse toy_number now "second" None failing_run twice
              [user_turn "first"] (user_turn "second") eq_refl eq_refl
              (Hrefused twice eq_refl)) as [Htwice _].
  destruct (X14_buttons_after_send toy_parse toy_number now "hi" None answering_run s []
              (user_turn "hi") eq_refl eq_refl (Hrefused s eq_refl)) as [_ Hanswered].
  destruct Hfailed as (_ & _ & Hnone); [reflexivity|].
  destruct Htwice as (Hlast & Hgeneral & _); [reflexivity|].
  split_and!.
  - by apply Hnone.
  - exact Hlast.
  - intros i buttons Hdrawn. destruct (Hgeneral i buttons Hdrawn) as [Hregenerate Hedit].
    split; [done|]. intros [Hi _]%Hedit. simpl in Hi. lia.
  - apply Hanswered. discriminate.
Defined.

(** A structured stream that raises after [Hel], and a text-delta stream
    whose second read raises. *)
Lemma X16_failure_discards_draft_witness :
  let s := chat_state [user_turn "hi"] in
  let g := sendMessageWithGemini "hi" None
             (run_of (unpressed [chunk_with "Hel" []] ++ [(false, Raise)])) s in
  let d := sendMessageWithDeepSeek toy_parse toy_number "hi" None
             (reads_run (unpressed [data_line (delta_payload "Hel") +:+ LF]
                         ++ [(false, Raise)])) s in
  (g = failed_state s ∧ chatHistoryArray g = [user_turn "hi"] ∧ storedChats g = ∅)
  ∧ (d = failed_state s ∧ chatHistoryArray d = [user_turn "hi"] ∧ storedChats d = ∅).
Proof.
  intros s g d.
  destruct (X16_failure_discards_draft toy_parse toy_number "hi" None
              (run_of (unpressed [chunk_with "Hel" []] ++ [(false, Raise)]))
              (reads_run (unpressed [data_line (delta_payload "Hel") +:+ LF]
                          ++ [(false, Raise)])) s eq_refl)
    as (Hgemini & _ & Hdeepseek & _ & Hturns & Hstored & _ & _).
  assert (Hg : g = failed_state s).
  { apply (Hgemini [chunk_with "Hel" []] false []). reflexivity. }
  assert (Hd : d = failed_state s).
  { apply (Hdeepseek [data_line (delta_payload "Hel") +:+ LF] []); [reflexivity|].
    by repeat constructor. }
  split.
  - split; [exact Hg|]. rewrite Hg. by split; [rewrite Hturns | rewrite Hstored].
  - split; [exact Hd|]. rewrite Hd. by split; [rewrite Hturns | rewrite Hstored].
Defined.

(** A stream of two chunks, the second without text. *)
Lemma X17_stream_taken_to_its_end_witness :
  let s := chat_state [user_turn "hi"] in
  let silent := {| text := None; candidates := None; usageMetadata := None |} in
  ∃ m, chatHistoryArray
         (sendMessageWithGemini "hi" None
            (run_of (unpressed [chunk_with "Hel" []; silent])) s)
       = [user_turn "hi"; m]
       ∧ sender m = sender_model
       ∧ content m = "Helundefined".
Proof.
  intros s silent.
  destruct (X17_stream_taken_to_its_end "hi" None
              (run_of (unpressed [chunk_with "Hel" []; silent])) s
              [chunk_with "Hel" []; silent] eq_refl eq_refl)
    as (m & Hturns & Hsender & Hcontent & _).
  exists m. split; [exact Hturns|]. split; [exact Hsender|]. exact Hcontent.
Defined.


(** A comment, a blank line and an [event:] line between two records. *)
Lemma X22_other_lines_ignored_witness :
  decoded toy_parse toy_number
    [unlines [data_line (delta_payload "Hel"); ": keep-alive"; ""; "event: delta";
              data_line (delta_payload "lo")]]
  = decoded toy_parse toy_number hello_pieces.
Proof.
  apply (X22_other_lines_ignored toy_parse toy_number
           [data_line (delta_payload "Hel")] [": keep-alive"; ""; "event: delta"]
           [data_line (delta_payload "lo")]);
    [by repeat constructor | by repeat constructor | reflexivity | reflexivity].
Defined.

(** The reads of the example, followed by the beginning of a record. *)
Lemma X23_buffer_is_unfinished_line_witness :
  ∃ l, deepseek_loop toy_parse toy_number false (unpressed (hello_pieces ++ ["data: {"]))
         deepseek_init = Some (false, l)
       ∧ d_buffer l = "data: {".
Proof.
  destruct (X23_buffer_is_unfinished_line toy_parse toy_number (hello_pieces ++ ["data: {"]))
    as (l & Hloop & Hbuffer & _); [by repeat constructor|].
  exists l. split; [exact Hloop|]. rewrite Hbuffer. reflexivity.
Defined.

(** The two records of the example, each ended by carriage return and line
    feed. *)
Lemma X24_crlf_line_endings_witness :
  decoded toy_parse toy_number
    [data_line (delta_payload "Hel") +:+ CR +:+ LF
     +:+ data_line (delta_payload "lo") +:+ CR +:+ LF]
  = decoded toy_parse toy_number hello_pieces.
Proof.
  apply (X24_crlf_line_endings toy_parse toy_number
           [data_line (delta_payload "Hel"); data_line (delta_payload "lo")]);
    [by repeat constructor | reflexivity | reflexivity].
Defined.

(** A backend that answers 401 with an error body, behind a server function
    with a key and behind one without. *)
Lemma X8_backend_status_not_passed_on_witness :
  let s := chat_state [user_turn "hi"] in
  let upstream := λ _ : Proxy.UpstreamRequest,
    {| Proxy.status := 401; Proxy.contentType := Some "application/json";
       Proxy.body := ["{}"] |} in
  let sent key :=
    sendMessageWithDeepSeek toy_parse toy_number "hi" None
      (proxied_run key (deepseek_history (chatHistoryArray s)) upstream
         "2025-01-01T10:00:05.000Z") s in
  chatHistoryArray (sent None) = [user_turn "hi"]
  ∧ ∃ m, chatHistoryArray (sent (Some "sk-1")) = [user_turn "hi"; m]
         ∧ sender m = sender_model ∧ content m = "".
Proof.
  intros s upstream sent.
  split.
  - destruct (X8_backend_status_not_passed_on toy_parse toy_number None upstream
                "2025-01-01T10:00:05.000Z" "hi" s eq_refl) as [Hnone _].
    destruct (Hnone eq_refl) as (_ & _ & Hturns & _). exact Hturns.
  - destruct (X8_backend_status_not_passed_on toy_parse toy_number (Some "sk-1") upstream
                "2025-01-01T10:00:05.000Z" "hi" s eq_refl) as [_ Hkey].
    destruct (Hkey "sk-1" eq_refl eq_refl) as (_ & _ & m & Hturns & Hsender & _ & Hempty).
    exists m. split; [exact Hturns|]. split; [exact Hsender|].
    apply Hempty. by repeat constructor.
Defined.

(** A first visit: the default profile, logged in without [rememberMe]. *)
Lemma X27_session_lifetime_witness :
  let p := Auth.startup None None None in
  let p' := Auth.login "rommel@remoteit.solutions" "Qazw0329!" false p in
  Auth.logged_in p' = true
  ∧ Auth.logged_in
      (Auth.startup (Auth.localProfile p') (Auth.localSession p') (Auth.tabSession p'))
    = true
  ∧ Auth.logged_in (Auth.startup (Auth.localProfile p') (Auth.localSession p') None)
    = false
  ∧ Auth.logged_in (Auth.logout p') = false.
Proof.
  intros p p'.
  destruct (X27_session_lifetime false None p eq_refl)
    as (Hin & Hreload & Htab & _ & _ & Hout).
  split; [exact Hin|]. split; [exact Hreload|]. split; [exact Htab|]. reflexivity.
Defined.


(** The payloads of the example: a delta, a first choice without [delta],
    an empty [choices] array, an object without [choices], and text that
    does not parse. *)
Lemma X21_payloads_witness :
  textChunk shapes_parse toy_number (delta_payload "Hel") = Some "Hel"
  ∧ textChunk shapes_parse toy_number no_delta_payload = Some ""
  ∧ textChunk shapes_parse toy_number no_choice_payload = Some ""
  ∧ textChunk shapes_parse toy_number "{}" = None
  ∧ textChunk shapes_parse toy_number "{oops" = None.
Proof.
  split_and!.
  - destruct (X21_payloads shapes_parse toy_number (delta_payload "Hel")) as [Hdelta _].
    by apply Hdelta.
  - destruct (X21_payloads shapes_parse toy_number no_delta_payload) as (_ & Hshape & _).
    destruct (Hshape _ (JArray [JObject []]) eq_refl eq_refl) as (_ & _ & Hnone & _);
      [discriminate|].
    by apply Hnone.
  - destruct (X21_payloads shapes_parse toy_number no_choice_payload) as (_ & Hshape & _).
    destruct (Hshape _ (JArray []) eq_refl eq_refl) as (_ & Hnone & _); [discriminate|].
    by apply Hnone.
  - destruct (X21_payloads shapes_parse toy_number "{}") as (_ & _ & Hraise).
    apply Hraise. right; right. exists (JObject []). split; [reflexivity|]. by left.
  - destruct (X21_payloads shapes_parse toy_number "{oops") as (_ & _ & Hraise).
    apply Hraise. by left.
Defined.

(** Settings saved while [chat_1] is active with one turn that no commit
    had saved. *)
Lemma X10_settings_saved_with_turns_witness :
  let s := chat_state [user_turn "hi"] in
  let s' := handleSettingsSave "Be brief." JS.zero deepseek s in
  chatHistoryArray s' = [user_turn "hi"]
  ∧ storedChats s'
    = {[ "chat_1" := {| settings := {| systemInstruction := Some "Be brief.";
                                       temperature := Some JS.zero;
                                       model := Some deepseek |};
                        messages := [user_turn "hi"] |} ]}.
Proof.
  intros s s'.
  destruct (X10_settings_saved_with_turns "Be brief." JS.zero deepseek s)
    as (_ & Hturns & _ & Hstored & _).
  split; [exact Hturns|].
  fold s' in Hstored. rewrite (Hstored "chat_1" eq_refl eq_refl). reflexivity.
Defined.
